(** * isoclump: the numerical kinetics engine

    A shallow embedding of [isoclump/calc_funcs.py] and of [derivatize]
    and [geologic_history] in [isoclump/core_functions.py].

    Numbers.  The Python code computes with NumPy [float64] values.  Every
    function below is written once, over an interface [Scalar] of the
    arithmetic the source uses, and read at two instances:

    - [R_scalar]: exact real arithmetic, the idealisation in which the
      algebraic statements are proved.  Division and the library functions
      are total, as they are for NumPy scalars (which answer a division by
      zero or a domain error with [inf]/[nan] and a warning; a Python float
      raises [ZeroDivisionError]).  Where the code would produce [inf],
      [nan] or that exception the real instance has some real value, and no
      statement below rests on it: where a statement gives a value in exact
      arithmetic, its hypotheses keep the divisors of that value away
      from 0.
    - [binary64]: IEEE 754 double precision through the kernel's primitive
      floats, for [+], [-], [*], [/] and [sqrt], whose results the standard
      fixes bit for bit.  The library routines whose rounding it does not
      fix ([exp], [power], [mean], [linalg.inv]) are arguments of the
      instance.

    Control.  A Python exception is a [Raise] in the [result] monad.  Code
    that calls back into collaborators or updates an array that its caller
    can see runs in the monad [M], which threads a [world]: the heap of
    shared arrays and the log of calls made so far. *)

From Stdlib Require Import Floats.PrimFloat Floats.SpecFloat.
From Stdlib Require Import Floats.FloatOps Floats.FloatAxioms.
From Stdlib Require Numbers.Cyclic.Int63.Uint63.
From Stdlib Require Import Reals Lra ZArith.
From stdpp Require Import base option list gmap strings.

(** ** Exceptions and results *)

Inductive exn :=
  | IndexError | KeyError | ValueError | TypeError
  | LinAlgError | UnboundLocalError.

Inductive result (A : Type) :=
  | Ok (a : A)
  | Raise (e : exn).
Arguments Ok {A} a.
Arguments Raise {A} e.

#[global] Instance result_ret : MRet result := fun A a => Ok a.
#[global] Instance result_bind : MBind result := fun A B f r =>
  match r with Ok a => f a | Raise e => Raise e end.
#[global] Instance result_fmap : FMap result := fun A B f r =>
  match r with Ok a => Ok (f a) | Raise e => Raise e end.

(** A [for] loop over [l], in either monad. *)
Fixpoint for_each {m : Type -> Type} `{MBind m, MRet m} {A B}
    (body : A -> B -> m A) (a : A) (l : list B) : m A :=
  match l with
  | [] => mret a
  | b :: l' => a' ← body a b; for_each body a' l'
  end.

(** [d[k]] on a dictionary. *)
Definition dict_get {V} (d : gmap string V) (k : string) : result V :=
  match d !! k with Some v => Ok v | None => Raise KeyError end.

(** [l[i]] for [0 <= i]. *)
Definition index {A} (l : list A) (i : nat) : result A :=
  match l !! i with Some a => Ok a | None => Raise IndexError end.

(** ** The arithmetic interface *)

Class Scalar (F : Type) := {
  lit : Z -> F;                 (* an integer literal, or [float(k)] *)
  f_add : F -> F -> F;
  f_sub : F -> F -> F;
  f_mul : F -> F -> F;
  f_div : F -> F -> F;
  f_neg : F -> F;
  f_exp : F -> F;               (* np.exp *)
  f_pow : F -> F -> F;          (* x ** y *)
  f_sqrt : F -> F;              (* np.sqrt *)
  f_mean : list F -> F;         (* np.mean of a 1-d array *)
  (* numpy.linalg.inv of [[a, b], [c, d]]; None is LinAlgError *)
  f_inv2 : F * F * (F * F) -> option (F * F * (F * F));
  f_eps : F                     (* the literal 1e-6 *)
}.

Declare Scope sc_scope.
Delimit Scope sc_scope with sc.
Infix "+" := f_add : sc_scope.
Infix "-" := f_sub : sc_scope.
Infix "*" := f_mul : sc_scope.
Infix "/" := f_div : sc_scope.
Notation "- x" := (f_neg x) : sc_scope.

(** *** Exact real arithmetic *)

(** [x ** y] on reals.  A zero base gives 0 for a positive exponent and 1
    for exponent 0; a negative base is raised to an integral exponent only.
    Elsewhere NumPy yields [inf] or [nan]. *)
Definition Rpow (x y : R) : R :=
  if Rlt_dec 0 x then Rpower x y
  else if Req_dec_T x 0 then
    (if Rlt_dec 0 y then 0 else if Req_dec_T y 0 then 1 else 0)%R
  else if Req_dec_T (frac_part y) 0 then powerRZ x (Int_part y)
  else 0%R.

(** The inverse of a 2x2 matrix: the adjugate over the determinant, and
    [LinAlgError] for a singular matrix. *)
Definition Rinv2 (m : R * R * (R * R)) : option (R * R * (R * R)) :=
  let '(a, b, (c, d)) := m in
  let det := (a * d - b * c)%R in
  if Req_dec_T det 0 then None
  else Some ((d / det, - b / det, (- c / det, a / det)))%R.

Definition Rmean (l : list R) : R :=
  (foldr Rplus 0 l / INR (length l))%R.

#[global] Instance R_scalar : Scalar R := {|
  lit := IZR;
  f_add := Rplus; f_sub := Rminus; f_mul := Rmult; f_div := Rdiv;
  f_neg := Ropp;
  f_exp := exp;
  f_pow := Rpow;
  f_sqrt := R_sqrt.sqrt;
  f_mean := Rmean;
  f_inv2 := Rinv2;
  f_eps := (1 / 1000000)%R
|}.

(** *** IEEE 754 binary64 *)

Definition float_of_Z (z : Z) : float :=
  match z with
  | Z0 => PrimFloat.zero
  | Zpos _ => PrimFloat.of_uint63 (Uint63.of_Z z)
  | Zneg p => PrimFloat.opp (PrimFloat.of_uint63 (Uint63.of_Z (Zpos p)))
  end.

Definition binary64
    (libm_exp : float -> float) (libm_pow : float -> float -> float)
    (np_mean : list float -> float)
    (lapack_inv2 : float * float * (float * float) ->
                   option (float * float * (float * float)))
    : Scalar float := {|
  lit := float_of_Z;
  f_add := PrimFloat.add; f_sub := PrimFloat.sub;
  f_mul := PrimFloat.mul; f_div := PrimFloat.div;
  f_neg := PrimFloat.opp;
  f_exp := libm_exp;
  f_pow := libm_pow;
  f_sqrt := PrimFloat.sqrt;
  f_mean := np_mean;
  f_inv2 := lapack_inv2;
  f_eps := 0x1.0c6f7a0b5ed8dp-20%float   (* the double nearest to 1e-6 *)
|}.

(** ** Arrays *)

Section Arrays.
Context {F : Type} `{Scalar F}.
Local Open Scope sc_scope.

(** A 2-d [ndarray]: its rows, and the number of columns (which the rows of
    an array with no row do not show). *)
Record ndarray2 := Mat { ncols : nat; rows : list (list F) }.

Definition zeros (n : nat) : list F := replicate n (lit 0).
Definition ones (n : nat) : list F := replicate n (lit 1).
Definition zeros2 (r c : nat) : ndarray2 := Mat c (replicate r (zeros c)).

(** An index that may be negative, against an axis of length [len]. *)
Definition norm_index (len : nat) (i : Z) : result nat :=
  if ((0 <=? i) && (i <? Z.of_nat len))%Z then Ok (Z.to_nat i)
  else if ((- Z.of_nat len <=? i) && (i <? 0))%Z
       then Ok (Z.to_nat (Z.of_nat len + i))
  else Raise IndexError.

(** [a[i, j] = v] *)
Definition setitem2 (a : ndarray2) (i j : Z) (v : F) : result ndarray2 :=
  i' ← norm_index (length (rows a)) i;
  j' ← norm_index (ncols a) j;
  row ← index (rows a) i';
  mret (Mat (ncols a) (<[i' := <[j' := v]> row]> (rows a))).

(** [row[lo:hi] = c] for [0 <= lo], [0 <= hi]: the slice is clipped to the
    row, and [c] must have its length, or length 1 (it is then repeated). *)
Definition set_slice (row : list F) (lo hi : nat) (c : list F)
    : result (list F) :=
  let lo' := lo `min` length row in
  let hi' := hi `min` length row in
  let k := (hi' - lo')%nat in
  if (length c =? k)%nat
  then Ok (take lo' row ++ c ++ drop (lo' `max` hi') row)
  else match c with
       | [v] => Ok (take lo' row ++ replicate k v ++ drop (lo' `max` hi') row)
       | _ => Raise ValueError
       end.

(** [np.outer(a, b)] *)
Definition outer (a b : list F) : ndarray2 :=
  Mat (length b) ((fun x => (fun y => x * y) <$> b) <$> a).

Definition mat_map (f : F -> F) (a : ndarray2) : ndarray2 :=
  Mat (ncols a) ((fun row : list F => f <$> row) <$> rows a).

(** Elementwise product of two arrays of one shape. *)
Definition mat_mul (a b : ndarray2) : ndarray2 :=
  Mat (ncols a) (zip_with (zip_with f_mul) (rows a) (rows b)).

(** [a[i, j]] read back, for the statements. *)
Definition entry (a : ndarray2) (i j : nat) : option F :=
  row ← rows a !! i; row !! j.

(** *** [_calc_A]: the forward kernel of the HH20 inversion *)

Definition _calc_A (t lam : list F) : result ndarray2 :=
  (* extract constants *)
  let nt := length t in
  let nlam := length lam in
  l1 ← index lam 1;
  l0 ← index lam 0;
  let dlam := l1 - l0 in
  (* define matrices *)
  let t_mat := outer t (ones nlam) in
  let lam_mat := outer (ones nt) lam in
  mret (mat_map (fun v => v * dlam)
          (mat_map f_exp
             (mat_mul (mat_map f_neg (mat_map f_exp lam_mat)) t_mat))).

(** *** [_calc_R]: the smoothing matrix *)

(** The body of [for i, row in enumerate(R)]: [row] is a view of [R], so the
    slice assignment updates row [i] of [R]. *)
Definition _calc_R_body (n : Z) (c : list F) (R : ndarray2) (i : nat)
    : result ndarray2 :=
  if negb (Z.of_nat i =? 0)%Z && negb (Z.of_nat i =? n)%Z then
    row ← index (rows R) i;
    row' ← set_slice row (i - 1) (i + 1) c;
    mret (Mat (ncols R) (<[i := row']> (rows R)))
  else mret R.

Definition _calc_R (n : Z) : result ndarray2 :=
  (* pre-allocate matrix; np.zeros refuses a negative dimension *)
  if (n <? 0)%Z then Raise ValueError else
  let R := zeros2 (Z.to_nat (n + 1)) (Z.to_nat n) in
  (* ensure pdf = 0 outside of E range specified *)
  R ← setitem2 R 0 0 (lit 1);
  R ← setitem2 R (-1) (-1) (- lit 1);
  (* 1st derivative operator *)
  let c := [lit (-1); lit 1] in
  (* populate matrix *)
  for_each (_calc_R_body n c) R (seq 0 (length (rows R))).

End Arrays.

Arguments ndarray2 F : clear implicits.

(** ** The stochastic isotopologue distribution *)

Section Stochastic.
Context {F : Type} `{Scalar F}.
Local Open Scope sc_scope.

(** The registry of isotope parameters, [R13_vpdb, R18_vpdb, R17_vpdb,
    lam17] by name.  Its table ([dictionaries.py]) is not among the
    sources, so it is an argument. *)
Variable d47_isoparams : gmap string (F * F * F * F).

(** The fractional atomic abundances that [_calc_R_stoch] forms. *)
Record abundances := Abund { f12 : F; f13 : F; f16 : F; f17 : F; f18 : F }.

(** The first half of [_calc_R_stoch], up to the fractional abundances. *)
Definition _calc_R_stoch_abundances (d13C d18O : F) (iso_params : string)
    : result abundances :=
  (* extract iso_params *)
  '(R13_vpdb, R18_vpdb, R17_vpdb, lam17) ← dict_get d47_isoparams iso_params;
  (* convert d13C and d18O into R13, R18 *)
  let R13 := (d13C / lit 1000 + lit 1) * R13_vpdb in
  let R18 := (d18O / lit 1000 + lit 1) * R18_vpdb in
  (* calculate R17 using R18 and lam17 *)
  let R17 := R17_vpdb * f_pow (R18 / R18_vpdb) lam17 in
  (* convert R values to fractional abundances *)
  let f12 := lit 1 / (lit 1 + R13) in
  let f13 := R13 * f12 in
  let f16 := lit 1 / (lit 1 + R17 + R18) in
  let f17 := R17 * f16 in
  let f18 := R18 * f16 in
  mret (Abund f12 f13 f16 f17 f18).

Definition _calc_R_stoch (d13C d18O : F) (iso_params : string)
    : result (F * F * F) :=
  ab ← _calc_R_stoch_abundances d13C d18O iso_params;
  let '(Abund f12 f13 f16 f17 f18) := ab in
  (* combine into stochastic distributions *)
  let f44 := f12 * f16 * f16 in
  let f45 := f13 * f16 * f16 + lit 2 * f12 * f17 * f16 in
  let f46 := lit 2 * f12 * f16 * f18 + lit 2 * f13 * f17 * f16
             + f12 * f17 * f17 in
  let f47 := lit 2 * f13 * f16 * f18 + lit 2 * f12 * f17 * f18
             + f13 * f17 * f17 in
  (* convert to R values *)
  let R45_stoch := f45 / f44 in
  let R46_stoch := f46 / f44 in
  let R47_stoch := f47 / f44 in
  mret (R45_stoch, R46_stoch, R47_stoch).

(** [_calc_Rpeq]: the equilibrium pair concentration, normalised to [44];
    [z] is the (integer) coordination number.  At the pole
    [1 + R45_stoch + R46_stoch + R47_stoch = 0] the source divides by zero
    ([ZeroDivisionError] on Python floats, [inf] on NumPy scalars), as does
    [0.0 ** z] for a negative [z]. *)
Definition _calc_Rpeq (R45_stoch R46_stoch R47_stoch : F) (z : Z) : F :=
  (* calculate f values *)
  let f44 := lit 1 / (lit 1 + R45_stoch + R46_stoch + R47_stoch) in
  let f45 := R45_stoch * f44 in
  let f46 := R46_stoch * f44 in
  (* equilibrium pair concentration (SE15 Eq. 13a/b), average of both *)
  let pa := f46 * (lit 1 - f_pow (lit 1 - f45) (lit z)) in
  let pb := f45 * (lit 1 - f_pow (lit 1 - f46) (lit z)) in
  let p := (pa + pb) / lit 2 in
  (* convert to ratio *)
  p / f44.

(** [_fHea14]: the transient defect/equilibrium model, over the array [t]. *)
Definition _fHea14 (t : list F) (lnkc lnkd lnk2 : F) : list F :=
  (* get into un-logged format *)
  let kc := f_exp lnkc in
  let kd := f_exp lnkd in
  let k2 := f_exp lnk2 in
  (* calculate lnGhat *)
  let lnGhat :=
    (fun ti => (- kc) * ti + (kd / k2) * (f_exp ((- k2) * ti) - lit 1)) <$> t in
  f_exp <$> lnGhat.

End Stochastic.

(** ** Shared arrays and the log of calls *)

(** The forward models of the geologic-history module. *)
Inductive gh_fun := GhHea14 | GhHH20 | GhPH12 | GhSE15.

Section Effects.
Context {F : Type} `{Scalar F}.
Local Open Scope sc_scope.

(** What the log records: a call of [numpy.linalg.inv], an evaluation of
    the function handed to [_Jacobian] (with the parameters it was given), a
    look-up of a calibration equation, a call of a forward model. *)
Inductive call :=
  | CallInv
  | CallF (args : list F)
  | CallCaleq (calibration ref_frame : string)
  | CallGh (g : gh_fun).

(** The heap holds the 1-d arrays that more than one function can reach,
    by address. *)
Record world := World { heap : gmap nat (list F); calls : list call }.

Definition M (A : Type) : Type := world -> result A * world.

#[global] Instance M_ret : MRet M := fun A a w => (Ok a, w).
#[global] Instance M_bind : MBind M := fun A B f c w =>
  match c w with
  | (Ok a, w') => f a w'
  | (Raise e, w') => (Raise e, w')
  end.

Definition lift {A} (r : result A) : M A := fun w => (r, w).
Definition log (c : call) : M unit :=
  fun w => (Ok tt, World (heap w) (calls w ++ [c])).

(** A new array with contents [v]. *)
Definition alloc (v : list F) : M nat := fun w =>
  let l := fresh (dom (heap w)) in
  (Ok l, World (<[l := v]> (heap w)) (calls w)).

(** The contents of the array at [l] (every address a program holds is
    allocated; the [TypeError] is never reached). *)
Definition load (l : nat) : M (list F) := fun w =>
  match heap w !! l with
  | Some v => (Ok v, w)
  | None => (Raise TypeError, w)
  end.

Definition store (l : nat) (v : list F) : M unit := fun w =>
  (Ok tt, World (<[l := v]> (heap w)) (calls w)).

(** [p.copy()] *)
Definition np_copy (l : nat) : M nat := v ← load l; alloc v.

(** An array stores what its dtype keeps of a value: a [float64] array the
    value itself, an [int64] array its integer part (the conversion
    truncates toward zero).  A dtype is given here by that conversion; the
    heap holds the values of an array, and the dtype goes with its
    address. *)
Definition dtype : Type := F -> F.
Definition float64 : dtype := fun x => x.

(** [a[i] += d] and [a[i] -= d], in place, on an array of dtype [dt]: the
    entry is read, the sum or difference is a float64, and the store
    converts it to [dt]. *)
Definition iadd (dt : dtype) (l i : nat) (d : F) : M unit :=
  v ← load l; x ← lift (index v i); store l (<[i := dt (x + d)]> v).
Definition isub (dt : dtype) (l i : nat) (d : F) : M unit :=
  v ← load l; x ← lift (index v i); store l (<[i := dt (x - d)]> v).

(** [numpy.linalg.inv] of a 2x2 matrix. *)
Definition np_inv (m : F * F * (F * F)) : M (F * F * (F * F)) :=
  log CallInv;;
  match f_inv2 m with
  | Some r => mret r
  | None => lift (Raise LinAlgError)
  end.

(** [a[:, j]] *)
Definition column (a : ndarray2 F) (j : nat) : result (list F) :=
  if (j <? ncols a)%nat then mapM (fun row => index row j) (rows a)
  else Raise IndexError.

(** [a[i, :] = v], where [v] has the length of a row. *)
Definition set_row (a : ndarray2 F) (i : nat) (v : list F)
    : result (ndarray2 F) :=
  _ ← index (rows a) i;
  if (length v =? ncols a)%nat then Ok (Mat (ncols a) (<[i := v]> (rows a)))
  else Raise ValueError.

(** [np.dot(Ai, v)] for a 2x2 matrix and a vector of length 2. *)
Definition dot2 (Ai : F * F * (F * F)) (v : list F) : result (list F) :=
  let '(a, b, (c, d)) := Ai in
  match v with
  | [v0; v1] => Ok [a * v0 + b * v1; c * v0 + d * v1]
  | _ => Raise ValueError
  end.

(** *** [_fSE15]: the paired-diffusion model, by backward Euler *)

Variable d47_isoparams : gmap string (F * F * F * F).

(** What [_fSE15] reads of the heating experiment [he]. *)
Record HeatingExperiment := { dex : ndarray2 F; iso_params : string }.

(** [eye(2) - dt*A] for [A = [[-a, b], [a, -(b+c)]]]. *)
Definition _fSE15_matrix (a b c dt : F) : F * F * (F * F) :=
  (lit 1 - dt * (- a), lit 0 - dt * b,
   (lit 0 - dt * a, lit 1 - dt * (- (b + c)))).

(** One pass of the loop: [x[i+1,:] = np.dot(Ai, x[i,:] + dt*B)]. *)
Definition _fSE15_step (t : list F) (a b c d : F) (x : ndarray2 F) (i : nat)
    : M (ndarray2 F) :=
  ti1 ← lift (index t (i + 1));
  ti ← lift (index t i);
  (* calculate inverted A *)
  Ai ← np_inv (_fSE15_matrix a b c (ti1 - ti));
  (* calculate x at next time step *)
  xi ← lift (index (rows x) i);
  let dtB := (fun v => (ti1 - ti) * v) <$> [lit 0; d] in
  xn ← lift (dot2 Ai (zip_with f_add xi dtB));
  lift (set_row x (i + 1) xn).

(** The first half of [_fSE15]: the entries [a], [b], [c], [d] of the
    matrix [A] and the array [B], and the initial state [Dp470, Dpp0]. *)
Definition _fSE15_system (lnk1f lnkds lnp0peq D0 Deq Dppeq : F)
    (he : HeatingExperiment) : result (F * F * F * F * list F) :=
  (* calculate R45_stoch, R46_stoch, R47_stoch *)
  c1 ← column (dex he) 1;
  let d13C := f_mean c1 in
  c2 ← column (dex he) 2;
  let d18O := f_mean c2 in
  '(R45_stoch, R46_stoch, R47_stoch) ←
    _calc_R_stoch d47_isoparams d13C d18O (iso_params he);
  let Rpeq := Dppeq * R47_stoch in
  (* exponentiate and convert to kdf *)
  let kds := f_exp lnkds in
  let kdp := kds * ((R45_stoch - Rpeq) * (R46_stoch - Rpeq)) / Rpeq in
  let p0peq := f_exp lnp0peq in
  (* get other unknowns into right format *)
  let k1f := f_exp lnk1f in
  let Dpp0 := p0peq * Dppeq in
  (* get constants into the right format *)
  let Dp470 := D0 / lit 1000 + lit 1 in
  let Dp47eq := Deq / lit 1000 + lit 1 in
  (* values for each entry of the A matrix and B array *)
  let a := k1f in
  let b := k1f * Dp47eq / Dppeq in
  let c := kdp in
  let d := kdp * Dppeq in
  mret (a, b, c, d, [Dp470; Dpp0]).

Definition _fSE15 (t : list F) (lnk1f lnkds lnp0peq D0 Deq Dppeq : F)
    (he : HeatingExperiment) : M (list F) :=
  '(a, b, c, d, x0) ←
    lift (_fSE15_system lnk1f lnkds lnp0peq D0 Deq Dppeq he);
  (* extract constants, pre-allocate arrays, and set initial conditions *)
  let nt := length t in
  let x := zeros2 nt 2 in
  x ← lift (set_row x 0 x0);
  (* loop through each time point and solve backward Euler problem *)
  x ← for_each (_fSE15_step t a b c d) x (seq 0 (nt - 1));
  (* extract Dp47 and convert back to D *)
  Dp47 ← lift (column x 0);
  mret ((fun v => lit 1000 * (v - lit 1)) <$> Dp47).

(** *** [_Jacobian]: central differences *)

(** [a - b] and [a / s] on 1-d arrays; arrays of different lengths combine
    only when one has length 1. *)
Definition vec_sub (a b : list F) : result (list F) :=
  if (length a =? length b)%nat then Ok (zip_with f_sub a b)
  else match a, b with
       | [x], _ => Ok ((fun y => x - y) <$> b)
       | _, [y] => Ok ((fun x => x - y) <$> a)
       | _, _ => Raise ValueError
       end.

(** [J[:, i] = v] *)
Definition set_column (J : ndarray2 F) (i : nat) (v : list F)
    : result (ndarray2 F) :=
  if negb (i <? ncols J)%nat then Raise IndexError
  else if (length v =? length (rows J))%nat
  then Ok (Mat (ncols J) (zip_with (fun row x => <[i := x]> row) (rows J) v))
  else match v with
       | [x] => Ok (Mat (ncols J) ((fun row : list F => <[i := x]> row) <$> rows J))
       | _ => Raise ValueError
       end.

(** An evaluation [f(t, *q)] by [_Jacobian], entered in the log. *)
Definition call_f (f : list F -> list F -> M (list F)) (t q : list F)
    : M (list F) :=
  log (CallF q);; f t q.

(** One pass of the loop over the parameters.  The copies [pp] and [pm]
    have the dtype [dt] of [p]. *)
Definition _Jacobian_step (dt : dtype) (f : list F -> list F -> M (list F))
    (t : list F) (p : nat) (eps : F) (J : ndarray2 F) (i : nat)
    : M (ndarray2 F) :=
  (* parameter values plus perturbation *)
  pp ← np_copy p;
  iadd dt pp i eps;;
  (* parameter values minus perturbation *)
  pm ← np_copy p;
  isub dt pm i eps;;
  (* store in J matrix *)
  qp ← load pp;
  yp ← call_f f t qp;
  qm ← load pm;
  ym ← call_f f t qm;
  dy ← lift (vec_sub yp ym);
  let col := (fun v => v / (lit 2 * eps)) <$> dy in
  lift (set_column J i col).

(** [p] is the address of the parameter array, and [dt] its dtype. *)
Definition _Jacobian (dt : dtype) (f : list F -> list F -> M (list F))
    (t : list F) (p : nat) (eps : F) : M (ndarray2 F) :=
  (* extract constants and pre-allocate array *)
  pv ← load p;
  let npar := length pv in
  let nt := length t in
  let J := zeros2 nt npar in
  (* loop through each parameter and estimate derivative when perturbed *)
  for_each (_Jacobian_step dt f t p eps) J (seq 0 npar).

End Effects.

Arguments call F : clear implicits.
Arguments world F : clear implicits.
Arguments M F A : clear implicits.
Arguments HeatingExperiment F : clear implicits.
Arguments dtype F : clear implicits.


(** ** [geologic_history] *)

(** The Python values that the checks on [calibration] and [ref_frame] tell
    apart. *)
#[warnings="-register-all"]
Inductive pyobj :=
  | PyStr (s : string)
  | PyInt (z : Z)
  | PyNone
  | PyTuple (items : list pyobj).

(** [x in l] for a list [l] of strings: only an equal string is in it. *)
Definition py_in (x : pyobj) (l : list string) : bool :=
  match x with
  | PyStr s => bool_decide (s ∈ l)
  | _ => false
  end.

(** [isinstance(x, str)] *)
Definition isinstance_str (x : pyobj) : bool :=
  match x with PyStr _ => true | _ => false end.

(** [fmt % x] for a format with one [%s]: a tuple is taken as the list of
    arguments and must hold exactly one; anything else is the argument. *)
Definition percent_s (x : pyobj) : result unit :=
  match x with
  | PyTuple [_] => Ok tt
  | PyTuple _ => Raise TypeError
  | _ => Ok tt
  end.

Section GeologicHistory.
Context {F : Type} `{Scalar F}.
Local Open Scope sc_scope.

(** The calibration equations, [caleqs[calibration][ref_frame]], and the
    forward models [_ghHea14], [_ghHH20], [_ghPH12], [_ghSE15] that the module
    imports: none is among the sources, so they are arguments.  A forward
    model is called as [g(t, *p, Deq, T, Tref)] or, with the keyword,
    [g(t, *p, Deq, T, Tref, nlam = nlam)]. *)
Variable caleqs : gmap string (gmap string (list F -> list F)).
Variable gh : gh_fun -> list F -> list F -> list F -> list F -> F ->
              option Z -> result (list F).

(** What [geologic_history] reads of the [EDistribution] [ed].  Its arrays
    and the arrays [d0] and [d0_std] are float64 arrays here, and so is the
    array [p] that the branches build from them with [np.append]. *)
Record EDistribution := {
  model : string;
  Tref : F;
  Eparams : ndarray2 F;
  Eparams_cov : ndarray2 F
}.

(** The block "check inputs are correct". *)
Definition geologic_history_checks (t T : list F)
    (calibration ref_frame : pyobj) : result unit :=
  (* the message of this raise has the conversion %n, which Python does not
     know: building it raises ValueError before the raise statement does *)
  (if negb (length T =? length t)%nat then Raise ValueError else Ok tt);;
  (if negb (py_in calibration ["PH12"; "SE15"; "Bea17"]%string)
   then percent_s calibration;; Raise ValueError
   else if negb (isinstance_str calibration) then Raise TypeError
   else Ok tt);;
  (if negb (py_in ref_frame ["Ghosh25"; "Ghosh90"; "CDES25"; "CDES90"]%string)
   then percent_s ref_frame;; Raise ValueError
   else if negb (isinstance_str ref_frame) then Raise TypeError
   else Ok tt).

(** [d[k]] for a key that is any Python value: only a string is a key of
    these dictionaries. *)
Definition dict_get_obj {V} (d : gmap string V) (k : pyobj) : result V :=
  match k with
  | PyStr s => dict_get d s
  | _ => Raise KeyError
  end.

(** [a.T.flatten()]: the entries of [a], column after column. *)
Definition flatten_T (a : ndarray2 F) : result (list F) :=
  cols ← mapM (column a) (seq 0 (ncols a)); mret (concat cols).

(** [a[:2, :2]] *)
Definition top_left_2 (a : ndarray2 F) : ndarray2 F :=
  Mat (2 `min` ncols a) (take 2 <$> take 2 (rows a)).

(** The covariance of the parameters with [D0] appended: a row of zeros,
    then the column [0, ..., 0, D0_cov]. *)
Definition append_D0_cov (pcov : ndarray2 F) (D0_cov : F)
    : result (ndarray2 F) :=
  let npt := length (rows pcov) in
  (* np.append(pcov, [np.zeros(npt)], 0) *)
  if negb (ncols pcov =? npt)%nat then Raise ValueError else
  let pcov1 := rows pcov ++ [zeros npt] in
  (* np.append(pcov, np.append(np.zeros(npt), D0_cov).reshape(-1,1), 1) *)
  let col := zeros npt ++ [D0_cov] in
  Ok (Mat (ncols pcov + 1) (zip_with (fun row x => row ++ [x]) pcov1 col)).

Definition transpose (a : ndarray2 F) : ndarray2 F :=
  Mat (length (rows a))
      ((fun j => (fun row : list F => default (lit 0) (row !! j)) <$> rows a)
         <$> seq 0 (ncols a)).

(** [np.dot] of two 2-d arrays. *)
Definition matmul (a b : ndarray2 F) : result (ndarray2 F) :=
  if negb (ncols a =? length (rows b))%nat then Raise ValueError else
  let bT := rows (transpose b) in
  Ok (Mat (ncols b)
        ((fun row : list F =>
            (fun col => foldr f_add (lit 0) (zip_with f_mul row col)) <$> bT)
           <$> rows a)).

(** [np.diag] of a 2-d array. *)
Definition diag (a : ndarray2 F) : list F :=
  omap (fun i => entry a i i) (seq 0 (length (rows a) `min` ncols a)).

(** A call of a forward model, entered in the log. *)
Definition call_gh (g : gh_fun) (t q Deq T : list F) (Tref : F)
    (nlam : option Z) : M F (list F) :=
  log (CallGh g);; lift (gh g t q Deq T Tref nlam).

(** [lambda t, x1, ..., xk : g(t, x1, ..., xk, Deq, T, Tref)], called as
    [f(t, *q)]: it takes exactly [k] parameters. *)
Definition lamfunc (k : nat) (g : gh_fun) (Deq T : list F) (Tref : F)
    (nlam : option Z) (t q : list F) : M F (list F) :=
  if (length q =? k)%nat then call_gh g t q Deq T Tref nlam
  else lift (Raise TypeError).

Definition geologic_history (t T : list F) (ed : EDistribution)
    (d0 d0_std : list F) (calibration ref_frame : pyobj) (nlam : Z)
    (eps : option F) : M F (list F * list F) :=
  (* check inputs are correct *)
  lift (geologic_history_checks t T calibration ref_frame);;
  (* calculate array of D47eq *)
  eqs ← lift (dict_get_obj caleqs calibration);
  eq ← lift (dict_get_obj eqs ref_frame);
  log (match calibration, ref_frame with
       | PyStr c, PyStr r => CallCaleq c r
       | _, _ => CallCaleq "" ""
       end);;
  let Deq := eq T in
  D0 ← lift (index d0 0);
  s0 ← lift (index d0_std 0);
  let D0_cov := f_pow s0 (lit 2) in
  let Tref := Tref ed in
  (* calculate D depending on model type *)
  '(p, pcov, D, f) ←
    ((* Henkes et al. 2014 model *)
     if String.eqb (model ed) "Hea14" then
       p ← lift (flatten_T (Eparams ed));
       let pcov := Eparams_cov ed in
       (* append D0 to params and params_cov *)
       p ← alloc (p ++ [D0]);
       pcov ← lift (append_D0_cov pcov D0_cov);
       (* solve for D evolution *)
       q ← load p;
       D ← call_gh GhHea14 t q Deq T Tref None;
       mret (p, pcov, D, lamfunc 7 GhHea14 Deq T Tref None)
     (* Hemingway and Henkes 2020 model *)
     else if String.eqb (model ed) "HH20" then
       p ← lift (flatten_T (Eparams ed));
       let pcov := Eparams_cov ed in
       p ← alloc (p ++ [D0]);
       pcov ← lift (append_D0_cov pcov D0_cov);
       q ← load p;
       D ← call_gh GhHH20 t q Deq T Tref None;
       mret (p, pcov, D, lamfunc 5 GhHH20 Deq T Tref (Some nlam))
     (* Passey and Henkes 2012 model *)
     else if String.eqb (model ed) "PH12" then
       p ← lift (column (Eparams ed) 0);
       let pcov := top_left_2 (Eparams_cov ed) in
       p ← alloc (p ++ [D0]);
       pcov ← lift (append_D0_cov pcov D0_cov);
       q ← load p;
       D ← call_gh GhPH12 t q Deq T Tref None;
       mret (p, pcov, D, lamfunc 3 GhPH12 Deq T Tref None)
     (* Stolper and Eiler 2015 model *)
     else if String.eqb (model ed) "SE15" then
       p ← lift (flatten_T (Eparams ed));
       let pcov := Eparams_cov ed in
       p ← alloc (p ++ [D0]);
       pcov ← lift (append_D0_cov pcov D0_cov);
       q ← load p;
       D ← call_gh GhHH20 t q Deq T Tref None;
       mret (p, pcov, D, lamfunc 7 GhHH20 Deq T Tref None)
     else
       (* no branch has bound lamfunc and p *)
       lift (Raise UnboundLocalError));
  (* calculate Jacobian and D uncertainty *)
  J ← _Jacobian float64 f t p (default f_eps eps);
  PJt ← lift (matmul pcov (transpose J));
  Dcov ← lift (matmul J PJt);
  let D_std := f_sqrt <$> diag Dcov in
  mret (D, D_std).

End GeologicHistory.

Arguments EDistribution F : clear implicits.

(** ** Vocabulary of the statements *)

Section Vocabulary.
Context {F : Type} `{Scalar F}.

(** What the slice assignment [row[i-1:i+1] = [-1, 1]] makes of [row]. *)
Definition diff_row (i : nat) (row : list F) : list F :=
  take (i - 1) row ++ [lit (-1); lit 1] ++ drop (i + 1) row.

(** Column [j] of the Jacobian of [g] at [pv]: the central difference in
    parameter [j]. *)
Definition central_difference (g : list F -> list F) (pv : list F) (eps : F)
    (j : nat) : list F :=
  match pv !! j with
  | Some x =>
      (fun v => f_div v (f_mul (lit 2) eps)) <$>
        zip_with f_sub (g (<[j := f_add x eps]> pv))
                       (g (<[j := f_sub x eps]> pv))
  | None => []
  end.

(** The forward models that a run has called, in order. *)
Definition forward_calls (w : world F) : list gh_fun :=
  omap (fun c => match c with CallGh g => Some g | _ => None end) (calls w).

(** The forward models [gh] with [_ghSE15] replaced by a function that
    raises. *)
Definition without_SE15
    (gh : gh_fun -> list F -> list F -> list F -> list F -> F -> option Z ->
          result (list F)) (g : gh_fun) :=
  match g with
  | GhSE15 => fun _ _ _ _ _ _ => Raise UnboundLocalError
  | _ => gh g
  end.

(** Forward models that answer with a constant curve that names them. *)
Definition tagged_forward (g : gh_fun) (t _ _ _ : list F) (_ : F)
    (_ : option Z) : result (list F) :=
  Ok ((fun _ => lit (match g with
                     | GhHea14 => 14 | GhHH20 => 20
                     | GhPH12 => 12 | GhSE15 => 15
                     end)) <$> t).

(** A table of calibration equations with the one entry
    [caleqs['Bea17']['CDES90']]. *)
Definition example_caleqs : gmap string (gmap string (list F -> list F)) :=
  {[ "Bea17"%string := {[ "CDES90"%string := fun T : list F => T ]} ]}.

(** A descriptor of an SE15 model: two rows [E], [lnkref] of three rate
    constants, and a zero covariance. *)
Definition example_SE15 : EDistribution F :=
  {| model := "SE15"; Tref := lit 300;
     Eparams := Mat 3 [[lit 1; lit 2; lit 3]; [lit 4; lit 5; lit 6]];
     Eparams_cov := Mat 6 (replicate 6 (zeros 6)) |}.

End Vocabulary.

(** The sum of a row. *)
Definition row_sum (row : list R) : R := foldr Rplus 0%R row.

(** Doubles, for the statements in binary64: [np.isfinite(x)] ([x] is
    neither [inf], [-inf] nor [nan]) and [x == 0] ([x] is [0.0] or
    [-0.0]). *)
Definition isfinite (x : float) : bool :=
  match Prim2SF x with
  | S754_zero _ | S754_finite _ _ _ => true
  | _ => false
  end.

Definition iszero (x : float) : bool :=
  match Prim2SF x with S754_zero _ => true | _ => false end.

(** ** Example inputs *)

(** A registry with one entry, of the size of the published ratios
    ([R13], [R18], [R17]) and exponent. *)
Definition example_isoparams : gmap string (R * R * R * R) :=
  {[ "Brand"%string :=
       (1118 / 100000, 20052 / 10000000, 38475 / 100000000, 528 / 1000)%R ]}.

(** A heating experiment with one measurement [D47, d13C, d18O]. *)
Definition example_he : HeatingExperiment R :=
  {| dex := Mat 3 [[6 / 10; 0; 0]%R]; iso_params := "Brand" |}.

(** The same in binary64: the doubles nearest to 0.01118, 0.0020052,
    0.00038475, 0.528 and 0.6. *)
Definition example_isoparams64 : gmap string (float * float * float * float) :=
  {[ "Brand"%string :=
       (0x1.6e58a32f44913p-7, 0x1.06d358d8086a3p-9, 0x1.93708aac96cc6p-12,
        0x1.0e5604189374cp-1)%float ]}.

Definition example_he64 : HeatingExperiment float :=
  {| dex := Mat 3 [[0x1.3333333333333p-1; 0; 0]%float]; iso_params := "Brand" |}.



(** An [EDistribution] for the Hea14 model with no parameters. *)
Definition example_Hea14 : EDistribution R :=
  {| model := "Hea14"; Tref := 0%R; Eparams := Mat 0 []; Eparams_cov := Mat 0 [] |}.

(** Products of signs. *)
Ltac prod_pos :=
  repeat first [ lra | apply Rmult_lt_0_compat | apply Rmult_le_pos ].

(** ** The other functions of [calc_funcs.py], and [derivatize] *)

(** What these functions use beyond [Scalar]: the float literals [0.5] and
    [8.314], the constant [np.pi], and the comparison [x == y]. *)
Class ScalarConst (F : Type) := {
  lit_0_5 : F;
  lit_8_314 : F;
  f_pi : F;
  f_eqb : F -> F -> bool
}.

#[global] Instance R_const : ScalarConst R := {|
  lit_0_5 := (1 / 2)%R;
  lit_8_314 := (8314 / 1000)%R;
  f_pi := PI;
  f_eqb := fun x y => if Req_dec_T x y then true else false
|}.

(** In binary64: [0.5] is a double, and the doubles nearest to 8.314 and to
    pi. *)
Definition binary64_const : ScalarConst float := {|
  lit_0_5 := 0x1p-1%float;
  lit_8_314 := 0x1.0a0c49ba5e354p+3%float;
  f_pi := 0x1.921fb54442d18p+1%float;
  f_eqb := PrimFloat.eqb
|}.

Section Models.
Context {F : Type} `{Scalar F} `{ScalarConst F}.
Local Open Scope sc_scope.

(** [numpy.linalg.norm] of a 1-d array: the square root of [x.dot(x)]. *)
Definition norm (x : list F) : F :=
  f_sqrt (foldr f_add (lit 0) (zip_with f_mul x x)).

(** [_calc_rmse]: the root mean square error of [yhat] against [y]. *)
Definition _calc_rmse (y yhat : list F) : result F :=
  d ← vec_sub y yhat;
  mret (norm d / f_pow (lit (Z.of_nat (length y))) lit_0_5).

(** [_fArrhenius]: the Arrhenius line through [(1/Tref, lnkref)], over the
    array [T].  For [Tref = 0] the source divides by zero
    ([ZeroDivisionError] on a Python float, [inf] on a NumPy scalar). *)
Definition _fArrhenius (T : list F) (E lnkref Tref : F) : list F :=
  (* set constants *)
  let R := lit_8_314 / lit 1000 in
  (* calculate lnk *)
  (fun Ti => lnkref + (E / R) * (lit 1 / Tref - lit 1 / Ti)) <$> T.

(** [_fPH12]: the pseudo-first-order model, over the array [t]. *)
Definition _fPH12 (t : list F) (lnk intercept : F) : list F :=
  (fun ti => intercept * f_exp ((- ti) * f_exp lnk)) <$> t.

(** [_Gaussian]: the normal density with mean [mu] and standard deviation
    [sigma], over the array [x].  For [sigma = 0] the source divides by
    zero ([ZeroDivisionError] on a Python float, [inf] and [nan] on a NumPy
    scalar). *)
Definition _Gaussian (x : list F) (mu sigma : F) : list F :=
  let s := lit 1 / f_pow (lit 2 * f_pi * f_pow sigma (lit 2)) lit_0_5 in
  (fun xi =>
     s * f_exp ((- f_pow (xi - mu) (lit 2)) / (lit 2 * f_pow sigma (lit 2))))
    <$> x.

(** [np.linspace(start, stop, num)]: [num] evenly spaced nodes, both ends
    included.  NumPy multiplies [arange(num)] by the step, adds [start], and
    writes [stop] into the last node; a step that is zero is handled apart,
    and a negative [num] is refused. *)
Definition linspace (start stop : F) (num : Z) : result (list F) :=
  if (num <? 0)%Z then Raise ValueError else
  let n := Z.to_nat num in
  let div := (num - 1)%Z in
  let start := start * lit 1 in
  let stop := stop * lit 1 in
  let delta := stop - start in
  let y := (fun i => lit (Z.of_nat i)) <$> seq 0 n in
  let y :=
    if (0 <? div)%Z then
      let step := delta / lit div in
      if f_eqb step (lit 0)
      then (fun v => (v / lit div) * delta) <$> y
      else (fun v => v * step) <$> y
    else (fun v => v * delta) <$> y in
  let y := (fun v => v + start) <$> y in
  mret (if (1 <? num)%Z then <[(n - 1)%nat := stop]> y else y).

(** [np.inner(x, v)] of a 2-d and a 1-d array. *)
Definition inner (x : ndarray2 F) (v : list F) : list F :=
  (fun row : list F => foldr f_add (lit 0) (zip_with f_mul row v)) <$> rows x.

(** [_fHH20]: the decay of a lognormal distribution of rates, discretised
    on [nlam] nodes between [lam_min] and [lam_max]. *)
Definition _fHH20 (t : list F) (mu_lam sig_lam lam_max lam_min : F) (nlam : Z)
    : result (list F) :=
  (* setup arrays *)
  let nt := length t in
  lam ← linspace lam_min lam_max nlam;
  l1 ← index lam 1;
  l0 ← index lam 0;
  let dlam := l1 - l0 in
  let rho := _Gaussian lam mu_lam sig_lam in
  (* make matrices *)
  let t_mat := outer t (ones (Z.to_nat nlam)) in
  let lam_mat := outer (ones nt) lam in
  let rho_mat := outer (ones nt) rho in
  (* solve *)
  let x := mat_map (fun v => v * dlam)
             (mat_mul rho_mat
                (mat_map f_exp
                   (mat_mul (mat_map f_neg (mat_map f_exp lam_mat)) t_mat))) in
  mret (inner x (ones (Z.to_nat nlam))).

(** *** [derivatize] *)

(** [np.gradient(f)] of a 1-d array, with the default unit spacing: central
    differences inside, one-sided differences at the two ends; an array
    with fewer than two entries is refused. *)
Definition gradient_at (f : list F) (i : nat) : F :=
  let n := length f in
  let f_ k := default (lit 0) (f !! k) in
  if (i =? 0)%nat then (f_ 1%nat - f_ 0%nat) / lit 1
  else if (i =? n - 1)%nat then (f_ (n - 1)%nat - f_ (n - 2)%nat) / lit 1
  else (f_ (i + 1)%nat - f_ (i - 1)%nat) / (lit 2 * lit 1).

Definition gradient (f : list F) : result (list F) :=
  if (length f <? 2)%nat then Raise ValueError
  else Ok (gradient_at f <$> seq 0 (length f)).

(** [np.column_stack]: 1-d arrays of one length, as the columns of a 2-d
    array. *)
Definition column_stack (cols : list (list F)) : result (ndarray2 F) :=
  match cols with
  | [] => Raise ValueError
  | c :: _ =>
      if forallb (fun c' : list F => (length c' =? length c)%nat) cols
      then Ok (transpose (Mat (length c) cols))
      else Raise ValueError
  end.

(** [for col in a.T]: the columns of [a]. *)
Definition columns (a : ndarray2 F) : result (list (list F)) :=
  mapM (column a) (seq 0 (ncols a)).

(** [np.gradient(a)[0]] of a 2-d array: the gradient down each column.
    [np.gradient] differentiates along both axes, and refuses an array with
    fewer than two rows or fewer than two columns. *)
Definition gradient_axis0 (a : ndarray2 F) : result (ndarray2 F) :=
  if (length (rows a) <? 2)%nat || (ncols a <? 2)%nat then Raise ValueError
  else
    cols ← columns a;
    gcols ← mapM gradient cols;
    column_stack gcols.

(** [a / b] on 1-d arrays, as [vec_sub]. *)
Definition vec_div (a b : list F) : result (list F) :=
  if (length a =? length b)%nat then Ok (zip_with f_div a b)
  else match a, b with
       | [x], _ => Ok ((fun y => x / y) <$> b)
       | _, [y] => Ok ((fun x => x / y) <$> a)
       | _, _ => Raise ValueError
       end.

(** [a / b] on 2-d arrays with at least two rows and two columns each (as
    [np.gradient] returns them): the shapes must agree. *)
Definition mat_div (a b : ndarray2 F) : result (ndarray2 F) :=
  if (length (rows a) =? length (rows b))%nat && (ncols a =? ncols b)%nat
  then Ok (Mat (ncols a) (zip_with (zip_with f_div) (rows a) (rows b)))
  else Raise ValueError.

(** An array by its number of dimensions: [derivatize] handles 1 and 2. *)
Inductive ndarray :=
  | Nd1 (v : list F)
  | Nd2 (a : ndarray2 F)
  | NdOther.

(** The first branch, which the recursive calls of the mixed branches
    reach with two 1-d arrays. *)
Definition derivatize_1d (num denom : list F) : result (list F) :=
  gn ← gradient num;
  gd ← gradient denom;
  vec_div gn gd.

Definition derivatize (num denom : ndarray) : result ndarray :=
  match num, denom with
  (* calculate separately for each dimensionality case *)
  | Nd1 n, Nd1 d => Nd1 <$> derivatize_1d n d
  | Nd2 n, Nd2 d =>
      gn ← gradient_axis0 n;
      gd ← gradient_axis0 d;
      Nd2 <$> mat_div gn gd
  (* note recursive list comprehension when dimensions are different *)
  | Nd2 n, Nd1 d =>
      cols ← columns n;
      col_der ← mapM (fun col => derivatize_1d col d) cols;
      Nd2 <$> column_stack col_der
  | Nd1 n, Nd2 d =>
      cols ← columns d;
      col_der ← mapM (fun col => derivatize_1d n col) cols;
      Nd2 <$> column_stack col_der
  (* no branch has bound dndd *)
  | _, _ => Raise UnboundLocalError
  end.

End Models.

Arguments ndarray F : clear implicits.

(** A model that is linear in its parameters: curve [r] is the dot product
    of row [r] of the design matrix [B] with the parameters. *)
Definition design_model (B : list (list R)) (q : list R) : list R :=
  (fun row : list R => foldr Rplus 0%R (zip_with Rmult row q)) <$> B.

(** *** What [geologic_history] reads and runs, by model name *)

Section GeologicHistoryVocabulary.
Context {F : Type} `{Scalar F}.

(** The forward model that the branch of a model name calls, and the number
    of parameters of its [lamfunc] ([D0] included). *)
Definition forward_model_of (m : string) : option (gh_fun * nat) :=
  if String.eqb m "Hea14" then Some (GhHea14, 7)
  else if String.eqb m "HH20" then Some (GhHH20, 5)
  else if String.eqb m "PH12" then Some (GhPH12, 3)
  else if String.eqb m "SE15" then Some (GhHH20, 7)
  else None.

(** The keyword [nlam] that its [lamfunc] passes on. *)
Definition lamfunc_nlam (m : string) (nlam : Z) : option Z :=
  if String.eqb m "HH20" then Some nlam else None.

(** The parameters and the covariance that the branch reads from the
    descriptor: column 0 and the top-left 2x2 block for 'PH12', everything
    for the other models. *)
Definition model_params (ed : EDistribution F) : result (list F) :=
  if String.eqb (model ed) "PH12" then column (Eparams ed) 0
  else flatten_T (Eparams ed).

Definition model_cov (ed : EDistribution F) : ndarray2 F :=
  if String.eqb (model ed) "PH12" then top_left_2 (Eparams_cov ed)
  else Eparams_cov ed.

End GeologicHistoryVocabulary.

(** Forward models that answer with the constant curve 0. *)
Definition zero_forward (g : gh_fun) (t _ _ _ : list R) (_ : R)
    (_ : option Z) : result (list R) :=
  Ok ((fun _ => 0%R) <$> t).

(** A descriptor of a PH12 model: one column [E], [lnkref], and a zero
    covariance. *)
Definition example_PH12 : EDistribution R :=
  {| model := "PH12"; Tref := 300%R;
     Eparams := Mat 1 [[1%R]; [2%R]];
     Eparams_cov := Mat 2 [[0; 0]; [0; 0]]%R |}.

(** * Part II: properties *)

(** ** The monads *)

Lemma index_Some {A} (l : list A) i a : l !! i = Some a -> index l i = Ok a.
Proof. unfold index. by intros ->. Qed.

Lemma dict_get_Some {V} (d : gmap string V) k v :
  d !! k = Some v -> dict_get d k = Ok v.
Proof. unfold dict_get. by intros ->. Qed.

Lemma bind_Ok {A B} (a : A) (f : A -> result B) : Ok a ≫= f = f a.
Proof. done. Qed.

Lemma mapM_result_length {A B} (f : A -> result B) (l : list A) k :
  mapM f l = Ok k -> length k = length l.
Proof.
  revert k. induction l as [|x l IH]; intros k Hk.
  - by injection Hk as <-.
  - cbn in Hk. destruct (f x) as [y|e]; [|done]. cbn in Hk.
    destruct (mapM f l) as [k'|e]; [|done]. cbn in Hk.
    injection Hk as <-. cbn. f_equal. by apply IH.
Qed.

Section Run.
Context {F : Type} `{Scalar F}.

Lemma run_bind {A B} (c : M F A) (f : A -> M F B) (w : world F) :
  (c ≫= f) w =
  match c w with
  | (Ok a, w') => f a w'
  | (Raise e, w') => (Raise e, w')
  end.
Proof. done. Qed.

Lemma run_lift {A B} (r : result A) (f : A -> M F B) (w : world F) :
  (lift r ≫= f) w =
  match r with Ok a => f a w | Raise e => (Raise e, w) end.
Proof. rewrite run_bind. unfold lift. by destruct r. Qed.

Lemma for_each_cons {A B} (body : A -> B -> M F A) a b l (w : world F) :
  for_each body a (b :: l) w =
  match body a b w with
  | (Ok a', w') => for_each body a' l w'
  | (Raise e, w') => (Raise e, w')
  end.
Proof. done. Qed.

Lemma run_np_copy (l : nat) (v : list F) (w : world F) :
  heap w !! l = Some v ->
  np_copy l w =
  (Ok (fresh (dom (heap w))),
   World (<[fresh (dom (heap w)) := v]> (heap w)) (calls w)).
Proof.
  intros Hl. unfold np_copy. rewrite run_bind. unfold load. by rewrite Hl.
Qed.

Lemma run_iadd (dt : dtype F) (l i : nat) (d : F) (v : list F) (x : F)
    (w : world F) :
  heap w !! l = Some v -> v !! i = Some x ->
  iadd dt l i d w =
  (Ok tt, World (<[l := <[i := dt (f_add x d)]> v]> (heap w)) (calls w)).
Proof.
  intros Hl Hi. unfold iadd. rewrite run_bind. unfold load. rewrite Hl.
  by rewrite run_lift, (index_Some _ _ _ Hi).
Qed.

Lemma run_isub (dt : dtype F) (l i : nat) (d : F) (v : list F) (x : F)
    (w : world F) :
  heap w !! l = Some v -> v !! i = Some x ->
  isub dt l i d w =
  (Ok tt, World (<[l := <[i := dt (f_sub x d)]> v]> (heap w)) (calls w)).
Proof.
  intros Hl Hi. unfold isub. rewrite run_bind. unfold load. rewrite Hl.
  by rewrite run_lift, (index_Some _ _ _ Hi).
Qed.

Lemma run_load (l : nat) (v : list F) (w : world F) :
  heap w !! l = Some v -> load l w = (Ok v, w).
Proof. intros Hl. unfold load. by rewrite Hl. Qed.

Lemma fresh_lookup_None (h : gmap nat (list F)) : h !! fresh (dom h) = None.
Proof. apply not_elem_of_dom. apply is_fresh. Qed.

Lemma fresh_ne (h : gmap nat (list F)) (l : nat) (v : list F) :
  h !! l = Some v -> l <> fresh (dom h).
Proof. intros Hl ->. by rewrite fresh_lookup_None in Hl. Qed.

Lemma column_length (a : ndarray2 F) (j : nat) (c : list F) :
  column a j = Ok c -> length c = length (rows a).
Proof.
  unfold column. case_match; [|done]. apply mapM_result_length.
Qed.

Lemma column_Ok (a : ndarray2 F) (j : nat) :
  j < ncols a -> Forall (fun row => length row = ncols a) (rows a) ->
  exists c, column a j = Ok c.
Proof.
  intros Hj Hrows. unfold column.
  replace (j <? ncols a) with true by (symmetry; apply Nat.ltb_lt; lia).
  induction Hrows as [|row rs Hrow Hrs [c IH]]; [by eexists|].
  destruct (lookup_lt_is_Some_2 row j ltac:(lia)) as [v Hv].
  cbn. rewrite (index_Some _ _ _ Hv). cbn. rewrite IH. cbn. by eexists.
Qed.

End Run.

(** ** The smoothing matrix *)

Section CalcR.
Context {F : Type} `{Scalar F}.

Lemma norm_index_nonneg (len : nat) (i : nat) :
  i < len -> norm_index len (Z.of_nat i) = Ok i.
Proof.
  intros Hi. unfold norm_index.
  replace ((0 <=? Z.of_nat i)%Z && (Z.of_nat i <? Z.of_nat len)%Z) with true.
  - by rewrite Nat2Z.id.
  - symmetry. apply andb_true_iff. split; [apply Z.leb_le | apply Z.ltb_lt]; lia.
Qed.

Lemma norm_index_last (len : nat) :
  0 < len -> norm_index len (-1) = Ok (len - 1).
Proof.
  intros Hlen. unfold norm_index. simpl.
  replace (-1 <? 0)%Z with true by done.
  replace (- Z.of_nat len <=? -1)%Z with true
    by (symmetry; apply Z.leb_le; lia).
  simpl. f_equal. lia.
Qed.

Lemma set_slice_interior (row : list F) (i : nat) :
  0 < i -> i < length row ->
  set_slice row (i - 1) (i + 1) [lit (-1); lit 1] = Ok (diff_row i row).
Proof.
  intros Hi Hlen. unfold set_slice, diff_row.
  replace ((i - 1) `min` length row) with (i - 1) by lia.
  replace ((i + 1) `min` length row) with (i + 1) by lia.
  replace (i + 1 - (i - 1)) with 2 by lia.
  replace ((i - 1) `max` (i + 1)) with (i + 1) by lia.
  done.
Qed.

Lemma calc_R_body_skip (n : Z) c (Rm : ndarray2 F) (i : nat) :
  i = 0 \/ Z.of_nat i = n -> _calc_R_body n c Rm i = Ok Rm.
Proof.
  intros Hi. unfold _calc_R_body.
  destruct Hi as [-> | <-]; [done |].
  by rewrite Z.eqb_refl, andb_false_r.
Qed.

Lemma calc_R_body_interior (n : nat) (rs : list (list F)) (i : nat) row :
  0 < i < n -> rs !! i = Some row -> length row = n ->
  _calc_R_body (Z.of_nat n) [lit (-1); lit 1] (Mat n rs) i
  = Ok (Mat n (<[i := diff_row i row]> rs)).
Proof.
  intros Hi Hrow Hlen. unfold _calc_R_body.
  replace (Z.of_nat i =? 0)%Z with false by (symmetry; apply Z.eqb_neq; lia).
  replace (Z.of_nat i =? Z.of_nat n)%Z with false
    by (symmetry; apply Z.eqb_neq; lia).
  simpl. rewrite (index_Some _ _ _ Hrow). simpl.
  rewrite set_slice_interior by lia. done.
Qed.

(** The loop over the rows [a, a+k): the interior rows among them get the
    difference operator, every other row stays. *)
Lemma calc_R_loop (n : nat) (k : nat) : forall (a : nat) (rs : list (list F)),
  a + k <= length rs -> length rs = S n ->
  Forall (fun row => length row = n) rs ->
  exists rs',
    for_each (_calc_R_body (Z.of_nat n) [lit (-1); lit 1]) (Mat n rs) (seq a k)
      = Ok (Mat n rs') /\
    length rs' = length rs /\
    forall i, rs' !! i =
      if decide (a <= i < a + k /\ 0 < i < n)
      then diff_row i <$> rs !! i else rs !! i.
Proof.
  induction k as [|k IH]; intros a rs Hlen Hn Hrows.
  - exists rs. split; [done|]. split; [done|].
    intros i. case_decide; [lia | done].
  - simpl.
    destruct (decide (0 < a < n)) as [Ha | Ha].
    + destruct (lookup_lt_is_Some_2 rs a ltac:(lia)) as [row Hrow].
      assert (length row = n) as Hrl
        by (eapply (proj1 (Forall_lookup _ _) Hrows); eauto).
      rewrite (calc_R_body_interior n rs a row Ha Hrow Hrl). simpl.
      destruct (IH (S a) (<[a := diff_row a row]> rs)) as (rs' & Hrun & Hl & Hlook).
      { rewrite length_insert. lia. }
      { by rewrite length_insert. }
      { apply Forall_insert; [done|]. unfold diff_row.
        rewrite !length_app, length_take, length_drop. simpl. lia. }
      exists rs'. split; [done|]. split; [by rewrite Hl, length_insert|].
      intros i. rewrite Hlook.
      destruct (decide (i = a)) as [-> | Hne].
      * rewrite list_lookup_insert_eq by lia.
        rewrite Hrow. repeat case_decide; try lia; done.
      * rewrite list_lookup_insert_ne by done.
        repeat case_decide; try lia; done.
    + rewrite calc_R_body_skip by lia. simpl.
      destruct (IH (S a) rs) as (rs' & Hrun & Hl & Hlook); [lia | done | done |].
      exists rs'. split; [done|]. split; [done|].
      intros i. rewrite Hlook. repeat case_decide; try lia; done.
Qed.


Lemma setitem2_Ok (a : ndarray2 F) (i j : Z) (v : F) i' j' row :
  norm_index (length (rows a)) i = Ok i' ->
  norm_index (ncols a) j = Ok j' ->
  rows a !! i' = Some row ->
  setitem2 a i j v = Ok (Mat (ncols a) (<[i' := <[j' := v]> row]> (rows a))).
Proof.
  intros Hi Hj Hrow. unfold setitem2.
  by rewrite Hi, bind_Ok, Hj, bind_Ok, (index_Some _ _ _ Hrow), bind_Ok.
Qed.

Lemma calc_R_rows (n : nat) :
  1 <= n ->
  exists rs,
    _calc_R (Z.of_nat n) = Ok (Mat n rs) /\
    length rs = S n /\
    rs !! 0 = Some (<[0 := lit 1]> (zeros n)) /\
    rs !! n = Some (<[n - 1 := f_neg (lit 1)]> (zeros n)) /\
    forall i, 0 < i < n -> rs !! i = Some (diff_row i (zeros n)).
Proof.
  intros Hn. unfold _calc_R.
  replace (Z.of_nat n <? 0)%Z with false by (symmetry; apply Z.ltb_ge; lia).
  replace (Z.to_nat (Z.of_nat n + 1)) with (S n) by lia.
  rewrite Nat2Z.id. unfold zeros2.
  set (rs0 := replicate (S n) (zeros n)).
  assert (length rs0 = S n) as Hl0 by apply length_replicate.
  assert (forall i, i < S n -> rs0 !! i = Some (zeros n)) as Hrs0
    by (intros; by apply lookup_replicate_2).
  rewrite (setitem2_Ok (Mat n rs0) 0 0 _ 0 0 (zeros n)); cycle 1.
  { cbn [rows]. rewrite Hl0. apply (norm_index_nonneg (S n) 0). lia. }
  { apply (norm_index_nonneg n 0). lia. }
  { apply Hrs0. lia. }
  rewrite bind_Ok. cbn [rows ncols].
  set (rs1 := <[0 := <[0 := lit 1]> (zeros n)]> rs0).
  assert (length rs1 = S n) as Hl1 by (unfold rs1; by rewrite length_insert).
  rewrite (setitem2_Ok (Mat n rs1) (-1) (-1) _ n (n - 1) (zeros n)); cycle 1.
  { cbn [rows]. rewrite Hl1, norm_index_last by lia. f_equal. lia. }
  { cbn [ncols]. by rewrite norm_index_last by lia. }
  { cbn [rows]. unfold rs1. rewrite list_lookup_insert_ne by lia.
    apply Hrs0. lia. }
  rewrite bind_Ok. cbn [rows ncols].
  set (rs2 := <[n := <[n - 1 := f_neg (lit 1)]> (zeros n)]> rs1).
  assert (length rs2 = S n) as Hl2 by (unfold rs2; by rewrite length_insert).
  rewrite Hl2.
  destruct (calc_R_loop n (S n) 0 rs2) as (rs' & Hrun & Hl & Hlook);
    [lia | done | |].
  { unfold rs2, rs1, rs0. repeat apply Forall_insert.
    - apply Forall_replicate. apply length_replicate.
    - rewrite length_insert. apply length_replicate.
    - rewrite length_insert. apply length_replicate. }
  exists rs'. split; [exact Hrun|]. split; [lia|].
  split; [|split].
  - rewrite Hlook. case_decide; [lia|].
    unfold rs2. rewrite list_lookup_insert_ne by lia.
    unfold rs1. by rewrite list_lookup_insert_eq by lia.
  - rewrite Hlook. case_decide; [lia|].
    unfold rs2. by rewrite list_lookup_insert_eq by lia.
  - intros i Hi. rewrite Hlook. case_decide; [|lia].
    unfold rs2. rewrite list_lookup_insert_ne by lia.
    unfold rs1. rewrite list_lookup_insert_ne by lia.
    rewrite Hrs0 by lia. done.
Qed.

(** The entries of an interior row. *)
Lemma diff_row_zeros_lookup (n i j : nat) :
  0 < i < n -> j < n ->
  diff_row i (zeros n) !! j =
  Some (if decide (j = i - 1) then lit (-1)
        else if decide (j = i) then lit 1 else lit 0).
Proof.
  intros Hi Hj. unfold diff_row, zeros.
  rewrite take_replicate, drop_replicate.
  replace ((i - 1) `min` n) with (i - 1) by lia.
  destruct (decide (j < i - 1)) as [Hlt | Hge].
  - rewrite lookup_app_l by (rewrite length_replicate; lia).
    rewrite lookup_replicate_2 by lia.
    repeat case_decide; try lia; done.
  - rewrite lookup_app_r by (rewrite length_replicate; lia).
    rewrite length_replicate.
    destruct (decide (j = i - 1)) as [-> | Hne1].
    { replace (i - 1 - (i - 1)) with 0 by lia. done. }
    destruct (decide (j = i)) as [-> | Hne2].
    { replace (i - (i - 1)) with 1 by lia. done. }
    replace (j - (i - 1)) with (S (S (j - (i + 1)))) by lia.
    simpl. rewrite lookup_replicate_2 by lia. done.
Qed.

End CalcR.

Lemma row_sum_app (a b : list R) : row_sum (a ++ b) = (row_sum a + row_sum b)%R.
Proof. induction a as [|x a IH]; simpl; [lra | rewrite IH; lra]. Qed.

Lemma row_sum_replicate_0 (n : nat) : row_sum (replicate n 0%R) = 0%R.
Proof. induction n as [|n IH]; simpl; [done | rewrite IH; lra]. Qed.

(** C3.  For every integer [n >= 1], [_calc_R n] returns a matrix of shape
    [(n+1) x n]; its entry [0,0] is 1 and its entry [n,n-1] is -1; an
    interior row [i] ([0 < i < n]) has -1 in column [i-1], 1 in column [i]
    and 0 elsewhere, and sums to 0. *)
Theorem calc_R_structure (n : Z) :
  (1 <= n)%Z ->
  exists Rm : ndarray2 R,
    _calc_R n = Ok Rm /\
    length (rows Rm) = S (Z.to_nat n) /\ ncols Rm = Z.to_nat n /\
    (forall i row, rows Rm !! i = Some row -> length row = Z.to_nat n) /\
    entry Rm 0 0 = Some 1%R /\
    entry Rm (Z.to_nat n) (Z.to_nat n - 1) = Some (-1)%R /\
    (forall i j, 0 < i < Z.to_nat n -> j < Z.to_nat n ->
       entry Rm i j = Some (if decide (j = i - 1) then (-1)%R
                            else if decide (j = i) then 1%R else 0%R)) /\
    (forall i row, 0 < i < Z.to_nat n -> rows Rm !! i = Some row ->
       row_sum row = 0%R).
Proof.
  intros Hn.
  assert (exists k, n = Z.of_nat k /\ 1 <= k) as (k & -> & Hk)
    by (exists (Z.to_nat n); lia).
  rewrite !Nat2Z.id.
  destruct (calc_R_rows (F := R) k) as (rs & Hrun & Hlen & H0 & Hlast & Hmid);
    [lia|].
  exists (Mat k rs). split; [exact Hrun|]. cbn [rows ncols].
  split; [done|]. split; [done|].
  assert (length (zeros (F := R) k) = k) as Hz by apply length_replicate.
  split; [|split; [|split; [|split]]].
  - intros i row Hrow.
    destruct (decide (i = 0)) as [-> | Hi0].
    { rewrite H0 in Hrow. injection Hrow as <-. by rewrite length_insert. }
    destruct (decide (i = k)) as [-> | Hik].
    { rewrite Hlast in Hrow. injection Hrow as <-. by rewrite length_insert. }
    assert (i < S k) by (rewrite <- Hlen; eapply lookup_lt_Some; eauto).
    rewrite Hmid in Hrow by lia. injection Hrow as <-.
    unfold diff_row. rewrite !length_app, length_take, length_drop, Hz.
    simpl. lia.
  - unfold entry. cbn [rows]. rewrite H0. simpl.
    rewrite list_lookup_insert_eq by (rewrite Hz; lia). done.
  - unfold entry. cbn [rows]. rewrite Hlast. simpl.
    rewrite list_lookup_insert_eq by (rewrite Hz; lia). reflexivity.
  - intros i j Hi Hj. unfold entry. cbn [rows]. rewrite Hmid by done. simpl.
    rewrite diff_row_zeros_lookup by done.
    repeat case_decide; done.
  - intros i row Hi Hrow. rewrite Hmid in Hrow by done. injection Hrow as <-.
    unfold diff_row, zeros. rewrite take_replicate, drop_replicate.
    rewrite !row_sum_app, !row_sum_replicate_0. simpl. lra.
Qed.

Lemma calc_R_structure_witness :
  exists Rm : ndarray2 R,
    _calc_R 3 = Ok Rm /\ entry Rm 0 0 = Some 1%R /\
    entry Rm 3 2 = Some (-1)%R /\ entry Rm 2 1 = Some (-1)%R.
Proof.
  destruct (calc_R_structure 3 ltac:(lia))
    as (Rm & Hrun & _ & _ & _ & H00 & Hn & Hmid & _).
  exists Rm. split; [exact Hrun|]. split; [exact H00|]. split; [exact Hn|].
  apply (Hmid 2 1); cbn; lia.
Defined.

(** ** The forward kernel *)

(** C4, as amended.  With at least two nodes, [_calc_A t lam] is the
    [len(t) x len(lam)] matrix whose entry [(i,j)] is
    [exp(-exp(lam[j]) * t[i]) * (lam[1] - lam[0])]; with fewer than two nodes
    it raises [IndexError], since the spacing [lam[1] - lam[0]] cannot be
    formed. *)
Theorem calc_A_entries (t lam : list R) :
  (forall l0 l1, lam !! 0 = Some l0 -> lam !! 1 = Some l1 ->
     exists A : ndarray2 R,
       _calc_A t lam = Ok A /\
       length (rows A) = length t /\ ncols A = length lam /\
       forall i j ti lj, t !! i = Some ti -> lam !! j = Some lj ->
         entry A i j = Some (exp (- exp lj * ti) * (l1 - l0))%R) /\
  (length lam < 2 -> _calc_A t lam = Raise IndexError).
Proof.
  split.
  - intros l0 l1 H0 H1. unfold _calc_A.
    rewrite (index_Some _ _ _ H1), bind_Ok, (index_Some _ _ _ H0), bind_Ok.
    eexists. split; [reflexivity|].
    unfold mat_map, mat_mul, outer, ones. cbn [rows ncols].
    split; [|split].
    + rewrite !length_fmap, length_zip_with, !length_fmap, length_replicate. lia.
    + done.
    + intros i j ti lj Hti Hlj. unfold entry. cbn [rows].
      apply lookup_lt_Some in Hti as Hi. apply lookup_lt_Some in Hlj as Hj.
      rewrite !list_lookup_fmap, lookup_zip_with, !list_lookup_fmap.
      rewrite lookup_replicate_2 by done. rewrite Hti. simpl.
      rewrite !list_lookup_fmap, lookup_zip_with, !list_lookup_fmap.
      rewrite Hlj, lookup_replicate_2 by done. simpl.
      by rewrite Rmult_1_l, Rmult_1_r.
  - intros Hlen. unfold _calc_A.
    destruct lam as [|l0 [|l1 lam]]; simpl in *; try done. lia.
Qed.

Lemma calc_A_entries_witness :
  exists A : ndarray2 R,
    _calc_A [0; 1]%R [0; 1]%R = Ok A /\
    entry A 1 1 = Some (exp (- exp 1 * 1) * (1 - 0))%R.
Proof.
  destruct (proj1 (calc_A_entries [0; 1]%R [0; 1]%R) 0%R 1%R eq_refl eq_refl)
    as (A & Hrun & _ & _ & Hent).
  exists A. split; [exact Hrun|]. by apply (Hent 1 1).
Defined.

(** C4 as stated fails: with the single node [lam = [0]] the call raises
    [IndexError] and returns no matrix. *)
Lemma calc_A_single_node_raises :
  _calc_A [0; 1]%R [0%R] = Raise IndexError.
Proof. reflexivity. Qed.

(** ** Zeros and finite doubles *)

Lemma iszero_cases (x : float) :
  iszero x = true -> x = 0%float \/ x = (-0)%float.
Proof.
  unfold iszero. intros Hx. rewrite <- (SF2Prim_Prim2SF x).
  destruct (Prim2SF x) as [[|]| | |]; try done; [right | left]; reflexivity.
Qed.

(** A finite double times a zero is a zero. *)
Lemma mul_finite_zero (x z : float) :
  isfinite x = true -> iszero z = true -> iszero (x * z) = true.
Proof.
  unfold isfinite, iszero. rewrite mul_spec.
  destruct (Prim2SF x), (Prim2SF z); done.
Qed.

Lemma opp_finite (x : float) : isfinite (- x) = isfinite x.
Proof. unfold isfinite. rewrite opp_spec. by destruct (Prim2SF x). Qed.

Lemma add_zero_zero (x y : float) :
  iszero x = true -> iszero y = true -> iszero (x + y) = true.
Proof.
  intros Hx Hy.
  destruct (iszero_cases x Hx) as [-> | ->], (iszero_cases y Hy) as [-> | ->];
    reflexivity.
Qed.

Lemma add_nan_l (x : float) : (nan + x)%float = nan.
Proof.
  apply Prim2SF_inj. rewrite add_spec.
  change (Prim2SF nan) with S754_nan. reflexivity.
Qed.

(** ** The model functions *)

(** C9, as amended.  At a time point [t[i] = 0] the Hea14 model returns
    exactly 1: in exact arithmetic whatever the parameters [lnkc], [lnkd],
    [lnk2]; in binary64, for [t[i]] either zero and an [exp] that is 1 at
    both zeros, whenever [kc = exp(lnkc)], [k2 = exp(lnk2)] and the
    quotient [kd/k2] are finite. *)
Theorem fHea14_at_zero :
  (forall (t : list R) (lnkc lnkd lnk2 : R) (i : nat),
     t !! i = Some 0%R -> _fHea14 t lnkc lnkd lnk2 !! i = Some 1%R) /\
  (forall libm_exp libm_pow np_mean lapack_inv2
          (t : list float) (lnkc lnkd lnk2 : float) (i : nat) (ti : float),
     (forall z, iszero z = true -> libm_exp z = 1%float) ->
     t !! i = Some ti -> iszero ti = true ->
     isfinite (libm_exp lnkc) = true ->
     isfinite (libm_exp lnk2) = true ->
     isfinite (libm_exp lnkd / libm_exp lnk2) = true ->
     _fHea14 (H := binary64 libm_exp libm_pow np_mean lapack_inv2)
       t lnkc lnkd lnk2 !! i = Some 1%float).
Proof.
  split.
  - intros t lnkc lnkd lnk2 i Ht. unfold _fHea14.
    rewrite !list_lookup_fmap, Ht. simpl.
    rewrite !Rmult_0_r, exp_0, Rminus_diag, Rmult_0_r, Rplus_0_l, exp_0. done.
  - intros libm_exp libm_pow np_mean lapack_inv2 t lnkc lnkd lnk2 i ti
      Hexp Ht Hti Hkc Hk2 Hq.
    unfold _fHea14. rewrite !list_lookup_fmap, Ht.
    cbn [fmap option_fmap option_map f_exp f_neg f_mul f_add f_sub f_div lit
         binary64]. f_equal.
    apply Hexp, add_zero_zero.
    + apply mul_finite_zero; [by rewrite opp_finite | done].
    + rewrite (Hexp (- libm_exp lnk2 * ti)%float)
        by (apply mul_finite_zero; [by rewrite opp_finite | done]).
      by apply mul_finite_zero.
Qed.

Lemma fHea14_at_zero_witness :
  _fHea14 [5; 0]%R 1%R 2%R 3%R !! 1 = Some 1%R.
Proof.
  apply (proj1 fHea14_at_zero [5; 0]%R 1%R 2%R 3%R 1). reflexivity.
Defined.

(** C9 as stated fails in binary64, where [exp] overflows: [e^1000] is
    above the largest double, so that [kc = exp(1000)] is [inf], the product
    [-kc*0] is [nan], and the call returns [nan] at [t = 0] whatever [lnkd]
    and [lnk2] are. *)
Lemma fHea14_at_zero_overflow :
  (forall libm_exp libm_pow np_mean lapack_inv2 (lnkd lnk2 : float),
     libm_exp 1000%float = infinity -> libm_exp nan = nan ->
     _fHea14 (H := binary64 libm_exp libm_pow np_mean lapack_inv2)
       [0%float] 1000%float lnkd lnk2 = [nan]) /\
  PrimFloat.eqb nan 1 = false.
Proof.
  split; [|reflexivity].
  intros libm_exp libm_pow np_mean lapack_inv2 lnkd lnk2 Hinf Hnan.
  unfold _fHea14.
  cbn [fmap list_fmap f_exp f_neg f_mul f_add f_sub f_div lit binary64].
  rewrite Hinf.
  change (- infinity * 0)%float with nan.
  by rewrite add_nan_l, Hnan.
Qed.

(** C10, as amended.  In exact arithmetic, away from the pole
    [1 + R45 + R46 + R47 = 0] and for a coordination number [z >= 0],
    [_calc_Rpeq] is symmetric in its first two arguments. *)
Theorem calc_Rpeq_symmetric (R45 R46 R47 : R) (z : Z) :
  (1 + R45 + R46 + R47 <> 0)%R -> (0 <= z)%Z ->
  _calc_Rpeq R45 R46 R47 z = _calc_Rpeq R46 R45 R47 z.
Proof.
  intros _ _. unfold _calc_Rpeq. simpl.
  replace (1 + R46 + R45 + R47)%R with (1 + R45 + R46 + R47)%R by lra.
  f_equal. f_equal. apply Rplus_comm.
Qed.

Lemma calc_Rpeq_symmetric_witness :
  _calc_Rpeq (1 / 100)%R (4 / 10)%R (1 / 1000)%R 6
  = _calc_Rpeq (4 / 10)%R (1 / 100)%R (1 / 1000)%R 6.
Proof. apply calc_Rpeq_symmetric; [lra | lia]. Defined.

(** C10 as stated fails in binary64: the sum [1 + R45 + R46 + R47] is
    rounded from left to right, and the two orders round differently.  At
    [R45 = 0.01], [R46 = 0.4], [R47 = 0.001] and [z = 1] (with [x ** 1 = x])
    the call returns [0x1.73926a51a4ec4p-9], which prints as
    [0.0028348688873139644], and the swapped call [0x1.73926a51a4ec6p-9],
    [0.0028348688873139653]. *)
Lemma calc_Rpeq_rounding_binary64 :
  (forall libm_exp libm_pow np_mean lapack_inv2,
     (forall x, libm_pow x 1%float = x) ->
     _calc_Rpeq (H := binary64 libm_exp libm_pow np_mean lapack_inv2)
       0x1.47ae147ae147bp-7%float 0x1.999999999999ap-2%float
       0x1.0624dd2f1a9fcp-10%float 1
     = 0x1.73926a51a4ec4p-9%float /\
     _calc_Rpeq (H := binary64 libm_exp libm_pow np_mean lapack_inv2)
       0x1.999999999999ap-2%float 0x1.47ae147ae147bp-7%float
       0x1.0624dd2f1a9fcp-10%float 1
     = 0x1.73926a51a4ec6p-9%float) /\
  PrimFloat.eqb 0x1.73926a51a4ec4p-9 0x1.73926a51a4ec6p-9 = false.
Proof.
  split; [|reflexivity].
  intros libm_exp libm_pow np_mean lapack_inv2 Hpow.
  unfold _calc_Rpeq.
  cbn [f_exp f_neg f_mul f_add f_sub f_div f_pow lit binary64].
  change (float_of_Z 1) with 1%float. change (float_of_Z 2) with 2%float.
  rewrite !Hpow. split; vm_compute; reflexivity.
Qed.

Lemma Rpow_pos (x y : R) : (0 < x)%R -> (0 < Rpow x y)%R.
Proof.
  intros Hx. unfold Rpow. destruct (Rlt_dec 0 x); [|done].
  unfold Rpower. apply exp_pos.
Qed.


Lemma Rpow_one (y : R) : Rpow 1 y = 1%R.
Proof.
  unfold Rpow. destruct (Rlt_dec 0 1); [|lra].
  unfold Rpower. by rewrite ln_1, Rmult_0_r, exp_0.
Qed.

(** With real arithmetic the stochastic ratios are the polynomials of
    Daeron et al. in [R13], [R17] and [R18]. *)
Lemma calc_R_stoch_polynomials (reg : gmap string (R * R * R * R))
    (name : string) (R13v R18v R17v lam17 d13C d18O : R) :
  reg !! name = Some (R13v, R18v, R17v, lam17) ->
  (0 < R13v)%R -> (0 < R18v)%R -> (0 < R17v)%R ->
  (-1000 <= d13C)%R -> (-1000 < d18O)%R ->
  let R13 := ((d13C / 1000 + 1) * R13v)%R in
  let R18 := ((d18O / 1000 + 1) * R18v)%R in
  let R17 := (R17v * Rpow (R18 / R18v) lam17)%R in
  _calc_R_stoch reg d13C d18O name =
  Ok (R13 + 2 * R17, 2 * R18 + 2 * R13 * R17 + R17 * R17,
      2 * R13 * R18 + 2 * R17 * R18 + R13 * R17 * R17)%R.
Proof.
  intros Hreg H13 H18 H17 HC HO R13 R18 R17.
  unfold _calc_R_stoch, _calc_R_stoch_abundances.
  rewrite (dict_get_Some _ _ _ Hreg), !bind_Ok.
  cbn [lit f_add f_sub f_mul f_div f_pow R_scalar mret result_ret].
  fold R13 R18. fold R17.
  assert (0 <= R13)%R as HR13 by (unfold R13; nra).
  assert (0 < R18)%R as HR18 by (unfold R18; nra).
  assert (0 < R17)%R as HR17.
  { unfold R17. apply Rmult_lt_0_compat; [done|]. apply Rpow_pos.
    apply Rdiv_lt_0_compat; done. }
  f_equal. f_equal; [f_equal|]; field; lra.
Qed.





(** ** The backward-Euler integrator of [_fSE15] *)

Section SE15.
Context {F : Type} `{Scalar F}.
Variable reg : gmap string (F * F * F * F).

(** One pass of the backward-Euler loop leaves the heap alone and calls
    [inv] at most once, and exactly once when it completes. *)
Lemma fSE15_step_log (t : list F) (a b c d : F) (x : ndarray2 F) (i : nat)
    (w : world F) r w' :
  _fSE15_step t a b c d x i w = (r, w') ->
  heap w' = heap w /\
  (exists j, j <= 1 /\ calls w' = calls w ++ replicate j CallInv) /\
  forall x', r = Ok x' ->
    calls w' = calls w ++ [CallInv] /\
    ncols x' = ncols x /\ length (rows x') = length (rows x).
Proof.
  cbv [_fSE15_step set_row np_inv log lift mbind M_bind result_bind mret M_ret].
  intros Hrun.
  repeat (case_match; simplify_eq/=);
    (split; [done|]);
    (split; [first [ by exists 1
                   | exists 0; split; [lia | cbn; by rewrite app_nil_r] ] |]);
    intros x' Hx'; simplify_eq/=.
  by rewrite length_insert.
Qed.

Lemma fSE15_loop_log (t : list F) (a b c d : F) (k : nat) :
  forall (i0 : nat) (x : ndarray2 F) (w : world F) r w',
  for_each (_fSE15_step t a b c d) x (seq i0 k) w = (r, w') ->
  heap w' = heap w /\
  (exists j, j <= k /\ calls w' = calls w ++ replicate j CallInv) /\
  forall x', r = Ok x' ->
    calls w' = calls w ++ replicate k CallInv /\
    ncols x' = ncols x /\ length (rows x') = length (rows x).
Proof.
  induction k as [|k IH]; intros i0 x w r w' Hrun.
  - cbn in Hrun. injection Hrun as <- <-.
    split; [done|]. split.
    + exists 0. split; [lia | by rewrite app_nil_r].
    + intros x' [= <-]. by rewrite app_nil_r.
  - cbn [seq] in Hrun. rewrite for_each_cons in Hrun.
    destruct (_fSE15_step t a b c d x i0 w) as [r1 w1] eqn:Hstep.
    apply fSE15_step_log in Hstep as (Hh1 & (j1 & Hj1 & Hc1) & Hok1).
    destruct r1 as [x1|e].
    + destruct (Hok1 x1 eq_refl) as (Hc1' & Hn1 & Hl1).
      apply IH in Hrun as (Hh & (j & Hj & Hc) & Hok).
      split; [congruence|]. split.
      * exists (S j). split; [lia|].
        rewrite Hc, Hc1'. by rewrite <- app_assoc.
      * intros x' Hx'. destruct (Hok x' Hx') as (Hc' & Hn' & Hl').
        split; [|split; congruence].
        rewrite Hc', Hc1'. by rewrite <- app_assoc.
    + injection Hrun as <- <-. split; [done|]. split; [|done].
      exists j1. split; [lia | done].
Qed.

Lemma fSE15_step_returns (t : list F) (a b c d : F) (x : ndarray2 F)
    (i : nat) (w : world F) ti ti1 :
  t !! i = Some ti -> t !! (i + 1) = Some ti1 ->
  is_Some (f_inv2 (_fSE15_matrix a b c (f_sub ti1 ti))) ->
  i + 1 < length (rows x) -> ncols x = 2 ->
  Forall (fun row => length row = 2) (rows x) ->
  exists xn,
    length xn = 2 /\
    _fSE15_step t a b c d x i w =
    (Ok (Mat 2 (<[i + 1 := xn]> (rows x))),
     World (heap w) (calls w ++ [CallInv])).
Proof.
  intros Hti Hti1 [Ai HAi] Hlen Hcols Hrows.
  destruct (lookup_lt_is_Some_2 (rows x) i ltac:(lia)) as [xi Hxi].
  destruct (lookup_lt_is_Some_2 (rows x) (i + 1) ltac:(lia)) as [xi1 Hxi1].
  assert (length xi = 2) as Hxl
    by (eapply (proj1 (Forall_lookup _ _) Hrows); eauto).
  destruct xi as [|u0 [|u1 [|]]]; try done.
  destruct Ai as [[m00 m01] [m10 m11]].
  eexists. split; [|].
  2:{ cbv [_fSE15_step set_row np_inv log lift mbind M_bind result_bind
           mret M_ret].
      rewrite (index_Some _ _ _ Hti), (index_Some _ _ _ Hti1), HAi.
      cbn [heap calls].
      rewrite (index_Some _ _ _ Hxi). cbn.
      rewrite (index_Some _ _ _ Hxi1), Hcols. cbn. reflexivity. }
  done.
Qed.

Lemma fSE15_loop_returns (t : list F) (a b c d : F) (k : nat) :
  forall (i0 : nat) (x : ndarray2 F) (w : world F),
  i0 + k < length t -> length (rows x) = length t -> ncols x = 2 ->
  Forall (fun row => length row = 2) (rows x) ->
  (forall i ti ti1, t !! i = Some ti -> t !! (i + 1) = Some ti1 ->
     is_Some (f_inv2 (_fSE15_matrix a b c (f_sub ti1 ti)))) ->
  exists x',
    for_each (_fSE15_step t a b c d) x (seq i0 k) w =
    (Ok x', World (heap w) (calls w ++ replicate k CallInv)) /\
    length (rows x') = length t /\ ncols x' = 2 /\
    Forall (fun row => length row = 2) (rows x') /\
    forall r, r <= i0 -> rows x' !! r = rows x !! r.
Proof.
  induction k as [|k IH]; intros i0 x w Hk Hlen Hcols Hrows Hinv.
  - exists x. cbn. rewrite app_nil_r. by destruct w.
  - destruct (lookup_lt_is_Some_2 t i0 ltac:(lia)) as [ti Hti].
    destruct (lookup_lt_is_Some_2 t (i0 + 1) ltac:(lia)) as [ti1 Hti1].
    destruct (fSE15_step_returns t a b c d x i0 w ti ti1)
      as (xn & Hxn & Hstep); try done; [by eapply Hinv | lia |].
    cbn [seq]. rewrite for_each_cons, Hstep.
    destruct (IH (S i0) (Mat 2 (<[i0 + 1 := xn]> (rows x)))
                (World (heap w) (calls w ++ [CallInv])))
      as (x' & Hrun & Hl' & Hc' & Hr' & Hpre); try done.
    + lia.
    + cbn. by rewrite length_insert.
    + cbn. by apply Forall_insert.
    + exists x'. rewrite Hrun. cbn [heap calls].
      rewrite <- app_assoc. split; [done|]. split; [done|].
      split; [done|]. split; [done|].
      intros r Hr. rewrite Hpre by lia. cbn.
      by rewrite list_lookup_insert_ne by lia.
Qed.

Lemma fSE15_system_init lnk1f lnkds lnp0peq D0 Deq Dppeq he a b c d x0 :
  _fSE15_system reg lnk1f lnkds lnp0peq D0 Deq Dppeq he = Ok (a, b, c, d, x0) ->
  exists Dpp0, x0 = [f_add (f_div D0 (lit 1000)) (lit 1); Dpp0].
Proof.
  unfold _fSE15_system. intros Hsys.
  destruct (column (dex he) 1) as [c1|]; [|done]. rewrite bind_Ok in Hsys.
  destruct (column (dex he) 2) as [c2|]; [|done]. rewrite bind_Ok in Hsys.
  destruct (_calc_R_stoch _ _ _ _) as [[[R45 R46] R47]|]; [|done].
  rewrite bind_Ok in Hsys. injection Hsys as <- <- <- <- <-. eauto.
Qed.

Lemma fSE15_log t lnk1f lnkds lnp0peq D0 Deq Dppeq he (w : world F) r w' :
  _fSE15 reg t lnk1f lnkds lnp0peq D0 Deq Dppeq he w = (r, w') ->
  heap w' = heap w /\
  (exists j, j <= length t - 1 /\ calls w' = calls w ++ replicate j CallInv) /\
  forall D, r = Ok D ->
    length D = length t /\
    calls w' = calls w ++ replicate (length t - 1) CallInv.
Proof.
  unfold _fSE15. rewrite run_lift.
  assert (forall e, (Raise e, w) = (r, w') ->
    heap w' = heap w /\
    (exists j, j <= length t - 1 /\ calls w' = calls w ++ replicate j CallInv) /\
    forall D, r = Ok D ->
      length D = length t /\
      calls w' = calls w ++ replicate (length t - 1) CallInv) as Hraise.
  { intros e [= <- <-]. split; [done|]. split; [|done].
    exists 0. split; [lia | by rewrite app_nil_r]. }
  destruct (_fSE15_system _ _ _ _ _ _ _ _) as [[[[[a b] c] d] x0]|e];
    [|by apply Hraise].
  rewrite run_lift.
  destruct (set_row (zeros2 (length t) 2) 0 x0) as [x1|e] eqn:Hset;
    [|by apply Hraise].
  assert (length (rows x1) = length t) as Hl1.
  { unfold set_row in Hset. destruct (index _ 0); [|done].
    cbn in Hset. case_match; [|done]. injection Hset as <-.
    cbn. by rewrite length_insert, length_replicate. }
  rewrite run_bind.
  destruct (for_each (m := M F) _ x1 _ w) as [r2 w2] eqn:Hloop.
  apply fSE15_loop_log in Hloop as (Hh & (j & Hj & Hc) & Hok).
  destruct r2 as [x2|e].
  - destruct (Hok x2 eq_refl) as (Hc' & Hn2 & Hl2).
    rewrite run_lift. destruct (column x2 0) as [Dp47|e] eqn:Hcol.
    + intros [= <- <-]. split; [done|]. split; [by exists j|].
      intros D [= <-]. split; [|done].
      rewrite length_fmap, (column_length _ _ _ Hcol). congruence.
    + intros [= <- <-]. split; [done|]. split; [by exists j | done].
  - intros [= <- <-]. split; [done|]. split; [by exists j | done].
Qed.

Lemma fSE15_returns t lnk1f lnkds lnp0peq D0 Deq Dppeq he a b c d x0
    (w : world F) :
  _fSE15_system reg lnk1f lnkds lnp0peq D0 Deq Dppeq he = Ok (a, b, c, d, x0) ->
  0 < length t ->
  (forall i ti ti1, t !! i = Some ti -> t !! (i + 1) = Some ti1 ->
     is_Some (f_inv2 (_fSE15_matrix a b c (f_sub ti1 ti)))) ->
  exists D,
    _fSE15 reg t lnk1f lnkds lnp0peq D0 Deq Dppeq he w =
    (Ok D, World (heap w) (calls w ++ replicate (length t - 1) CallInv)) /\
    length D = length t /\
    D !! 0 = Some (f_mul (lit 1000)
                     (f_sub (f_add (f_div D0 (lit 1000)) (lit 1)) (lit 1))).
Proof.
  intros Hsys Hnt Hinv.
  destruct (fSE15_system_init _ _ _ _ _ _ _ _ _ _ _ _ Hsys) as [Dpp0 ->].
  unfold _fSE15. rewrite Hsys, run_lift.
  set (x0 := [f_add (f_div D0 (lit 1000)) (lit 1); Dpp0]).
  assert (set_row (zeros2 (length t) 2) 0 x0
          = Ok (Mat 2 (<[0 := x0]> (replicate (length t) (zeros 2))))) as ->.
  { unfold set_row, zeros2. cbn [rows ncols].
    rewrite (index_Some _ 0 (zeros 2)) by (apply lookup_replicate_2; lia).
    done. }
  rewrite run_lift, run_bind.
  destruct (fSE15_loop_returns t a b c d (length t - 1) 0
              (Mat 2 (<[0 := x0]> (replicate (length t) (zeros 2)))) w)
    as (x' & Hrun & Hl' & Hc' & Hr' & Hpre); try done.
  - lia.
  - cbn. by rewrite length_insert, length_replicate.
  - cbn. apply Forall_insert; [|done]. apply Forall_replicate. done.
  - rewrite Hrun.
    destruct (column_Ok x' 0) as [Dp47 Hcol]; [lia | by rewrite Hc' |].
    rewrite run_lift, Hcol. eexists. split; [reflexivity|].
    split; [rewrite length_fmap, (column_length _ _ _ Hcol); congruence|].
    rewrite list_lookup_fmap.
    assert (Dp47 !! 0 = Some (f_add (f_div D0 (lit 1000)) (lit 1))) as ->; [|done].
    specialize (Hpre 0 ltac:(lia)). cbn [rows] in Hpre.
    rewrite list_lookup_insert_eq in Hpre
      by (rewrite length_replicate; lia).
    unfold column in Hcol. rewrite Hc' in Hcol. cbn in Hcol.
    destruct (rows x') as [|row0 rs]; [done|].
    cbn in Hpre. injection Hpre as ->. cbn in Hcol.
    destruct (mapM _ rs); [|done]. cbn in Hcol. by injection Hcol as <-.
Qed.

Lemma fSE15_single_point t0 lnk1f lnkds lnp0peq D0 Deq Dppeq he a b c d x0
    (w : world F) :
  _fSE15_system reg lnk1f lnkds lnp0peq D0 Deq Dppeq he = Ok (a, b, c, d, x0) ->
  _fSE15 reg [t0] lnk1f lnkds lnp0peq D0 Deq Dppeq he w =
  (Ok [f_mul (lit 1000) (f_sub (f_add (f_div D0 (lit 1000)) (lit 1)) (lit 1))],
   w).
Proof.
  intros Hsys.
  destruct (fSE15_system_init _ _ _ _ _ _ _ _ _ _ _ _ Hsys) as [Dpp0 ->].
  unfold _fSE15. rewrite Hsys, run_lift. by destruct w.
Qed.

End SE15.

Lemma Rinv2_SE15_Some (a b c dt : R) :
  (0 <= dt)%R -> (0 <= a)%R -> (0 <= b)%R -> (0 <= c)%R ->
  is_Some (Rinv2 (_fSE15_matrix a b c dt)).
Proof.
  intros Hdt Ha Hb Hc. unfold Rinv2, _fSE15_matrix.
  cbn [lit f_sub f_mul f_neg f_add R_scalar].
  destruct (Req_dec_T _ 0) as [Hdet|]; [|by eexists].
  exfalso.
  assert (0 <= dt * a)%R by (apply Rmult_le_pos; lra).
  assert (0 <= dt * b)%R by (apply Rmult_le_pos; lra).
  assert (0 <= dt * c)%R by (apply Rmult_le_pos; lra).
  assert (0 <= (dt * a) * (dt * c))%R by (apply Rmult_le_pos; lra).
  nra.
Qed.

Lemma example_system (lnk1f lnkds lnp0peq D0 Deq : R) :
  (-1000 <= Deq)%R ->
  exists a b c d x0,
    _fSE15_system example_isoparams lnk1f lnkds lnp0peq D0 Deq 1%R example_he
      = Ok (a, b, c, d, x0) /\
    (0 <= a)%R /\ (0 <= b)%R /\ (0 <= c)%R.
Proof.
  intros HDeq. unfold _fSE15_system.
  change (column (dex example_he) 1) with (Ok [0%R]).
  change (column (dex example_he) 2) with (Ok [0%R]).
  rewrite !bind_Ok.
  assert (f_mean [0%R] = 0%R) as ->
    by (cbv [f_mean R_scalar Rmean foldr length INR]; lra).
  erewrite (calc_R_stoch_polynomials example_isoparams "Brand");
    [| reflexivity | lra ..].
  rewrite bind_Ok.
  replace ((0 / 1000 + 1) * (20052 / 10000000) / (20052 / 10000000))%R
    with 1%R by lra.
  rewrite Rpow_one.
  do 5 eexists. split; [reflexivity|].
  cbn [lit f_add f_sub f_mul f_div f_exp R_scalar].
  pose proof (exp_pos lnk1f). pose proof (exp_pos lnkds).
  split; [lra|]. split.
  - apply Rmult_le_pos; [|lra]. apply Rmult_le_pos; lra.
  - apply Rmult_le_pos.
    + apply Rmult_le_pos; [lra|]. apply Rmult_le_pos; lra.
    + lra.
Qed.

(** C5, as amended.  Every call of [_fSE15] leaves the heap alone and calls
    [inv] at most [nt - 1] times, and a call that returns has made exactly
    [nt - 1] backward-Euler steps and returns [nt] values; a call returns
    when its first half does, [t] is not empty and every matrix
    [I - dt*A] has an inverse.  With a single time point it makes no step
    and returns the one-element array [1000*((D0/1000 + 1) - 1)], which in
    exact arithmetic is [D0]. *)
Theorem fSE15_backward_euler_steps :
  (forall (F : Type) (S : Scalar F) reg t lnk1f lnkds lnp0peq D0 Deq Dppeq he
          (w : world F) r w',
     _fSE15 reg t lnk1f lnkds lnp0peq D0 Deq Dppeq he w = (r, w') ->
     heap w' = heap w /\
     (exists j, j <= length t - 1 /\
                calls w' = calls w ++ replicate j CallInv) /\
     (forall D, r = Ok D ->
        length D = length t /\
        calls w' = calls w ++ replicate (length t - 1) CallInv)) /\
  (forall (F : Type) (S : Scalar F) reg t lnk1f lnkds lnp0peq D0 Deq Dppeq he
          a b c d x0 (w : world F),
     _fSE15_system reg lnk1f lnkds lnp0peq D0 Deq Dppeq he
       = Ok (a, b, c, d, x0) ->
     0 < length t ->
     (forall i ti ti1, t !! i = Some ti -> t !! (i + 1) = Some ti1 ->
        is_Some (f_inv2 (_fSE15_matrix a b c (f_sub ti1 ti)))) ->
     exists D,
       _fSE15 reg t lnk1f lnkds lnp0peq D0 Deq Dppeq he w =
       (Ok D, World (heap w) (calls w ++ replicate (length t - 1) CallInv)) /\
       length D = length t) /\
  (forall (F : Type) (S : Scalar F) reg t0 lnk1f lnkds lnp0peq D0 Deq Dppeq he
          a b c d x0 (w : world F),
     _fSE15_system reg lnk1f lnkds lnp0peq D0 Deq Dppeq he
       = Ok (a, b, c, d, x0) ->
     _fSE15 reg [t0] lnk1f lnkds lnp0peq D0 Deq Dppeq he w =
     (Ok [f_mul (lit 1000)
            (f_sub (f_add (f_div D0 (lit 1000)) (lit 1)) (lit 1))], w)) /\
  (forall reg (t0 lnk1f lnkds lnp0peq D0 Deq Dppeq : R) he a b c d x0
          (w : world R),
     _fSE15_system reg lnk1f lnkds lnp0peq D0 Deq Dppeq he
       = Ok (a, b, c, d, x0) ->
     _fSE15 reg [t0] lnk1f lnkds lnp0peq D0 Deq Dppeq he w = (Ok [D0], w)).
Proof.
  split; [|split; [|split]].
  - intros. by eapply fSE15_log.
  - intros F S reg t lnk1f lnkds lnp0peq D0 Deq Dppeq he a b c d x0 w
      Hsys Hnt Hinv.
    destruct (fSE15_returns reg t _ _ _ _ _ _ _ _ _ _ _ _ w Hsys Hnt Hinv)
      as (D & Hrun & Hlen & _).
    by exists D.
  - intros. by eapply fSE15_single_point.
  - intros reg t0 lnk1f lnkds lnp0peq D0 Deq Dppeq he a b c d x0 w Hsys.
    rewrite (fSE15_single_point reg t0 _ _ _ _ _ _ _ _ _ _ _ _ w Hsys).
    do 3 f_equal. cbn. lra.
Qed.

Lemma fSE15_backward_euler_steps_witness :
  exists D : list R,
    _fSE15 example_isoparams [0; 1; 3]%R 0%R 0%R 0%R (6 / 10)%R (1 / 2)%R 1%R
      example_he (World ∅ [])
    = (Ok D, World ∅ [CallInv; CallInv]) /\
    length D = 3.
Proof.
  destruct (example_system 0 0 0 (6 / 10) (1 / 2))
    as (a & b & c & d & x0 & Hsys & Ha & Hb & Hc); [lra|].
  apply (proj1 (proj2 fSE15_backward_euler_steps) R R_scalar
           example_isoparams [0; 1; 3]%R _ _ _ _ _ _ _ a b c d x0
           (World ∅ []) Hsys); [cbn; lia|].
  intros i ti ti1 Hti Hti1.
  apply Rinv2_SE15_Some; try done.
  destruct i as [|[|[|i]]]; cbn in Hti, Hti1; simplify_eq; cbn; lra.
Defined.

(** C5 as stated fails in binary64: the round trip through [D0/1000 + 1]
    loses the last digits of [D0].  At [D0 = 0.6] the single-point call
    returns the double [0x1.33333333330e0p-1], which prints as
    [0.5999999999999339] and does not equal [D0], whatever [exp], [power],
    [mean] and [inv] compute. *)
Lemma fSE15_single_point_binary64 :
  (forall libm_exp libm_pow np_mean lapack_inv2 (w : world float),
     _fSE15 (H := binary64 libm_exp libm_pow np_mean lapack_inv2)
       example_isoparams64 [0%float] 0%float 0%float 0%float
       0x1.3333333333333p-1%float 0x1p-1%float 1%float example_he64 w
     = (Ok [0x1.33333333330e0p-1%float], w)) /\
  PrimFloat.eqb 0x1.33333333330e0p-1 0x1.3333333333333p-1 = false.
Proof.
  split; [|by vm_compute].
  intros libm_exp libm_pow np_mean lapack_inv2 w.
  erewrite (fSE15_single_point (H := binary64 _ _ _ _)); reflexivity.
Qed.
(** ** The Jacobian estimator *)

Section Jacobian.
Context {F : Type} `{Scalar F}.

(** One pass of the loop of [_Jacobian], for a function [f] that is pure:
    [f(t, *q)] is [g q], and the world stays as it is.  The two evaluations
    are at what the stores into [pp] and [pm] have kept. *)
Lemma Jacobian_step_run (dt : dtype F) (f : list F -> list F -> M F (list F))
    (g : list F -> list F) (t : list F) (p : nat) (eps : F)
    (J : ndarray2 F) (i : nat) (w : world F) (pv : list F) (x : F) :
  (forall q w0, f t q w0 = (Ok (g q), w0)) ->
  (forall q, length (g q) = length t) ->
  heap w !! p = Some pv -> pv !! i = Some x ->
  length (rows J) = length t -> i < ncols J ->
  exists w',
    _Jacobian_step dt f t p eps J i w =
    (Ok (Mat (ncols J)
           (zip_with (fun row v => <[i := v]> row) (rows J)
              ((fun v => f_div v (f_mul (lit 2) eps)) <$>
                 zip_with f_sub (g (<[i := dt (f_add x eps)]> pv))
                                (g (<[i := dt (f_sub x eps)]> pv))))), w') /\
    heap w ⊆ heap w' /\
    calls w' = calls w ++ [CallF (<[i := dt (f_add x eps)]> pv);
                           CallF (<[i := dt (f_sub x eps)]> pv)].
Proof.
  intros Hf Hg Hp Hi HJ HiJ. unfold _Jacobian_step.
  rewrite run_bind, (run_np_copy p pv w Hp).
  set (pp := fresh (dom (heap w))).
  set (h1 := <[pp := pv]> (heap w)).
  rewrite run_bind, (run_iadd dt pp i eps pv x (World h1 (calls w)))
    by (apply lookup_insert_eq || done).
  cbn [heap calls].
  set (h2 := <[pp := <[i := dt (f_add x eps)]> pv]> h1).
  assert (h2 !! p = Some pv) as Hp2.
  { unfold h2, h1. rewrite !lookup_insert_ne by (symmetry; by eapply fresh_ne).
    done. }
  rewrite run_bind, (run_np_copy p pv (World h2 (calls w)) Hp2).
  cbn [heap calls].
  set (pm := fresh (dom h2)).
  set (h3 := <[pm := pv]> h2).
  rewrite run_bind, (run_isub dt pm i eps pv x (World h3 (calls w)))
    by (apply lookup_insert_eq || done).
  cbn [heap calls].
  set (h4 := <[pm := <[i := dt (f_sub x eps)]> pv]> h3).
  assert (h4 !! pp = Some (<[i := dt (f_add x eps)]> pv)) as Hpp4.
  { assert (h2 !! pp = Some (<[i := dt (f_add x eps)]> pv)) as Hpp2
      by apply lookup_insert_eq.
    unfold h4, h3. rewrite !lookup_insert_ne by (symmetry; by eapply fresh_ne).
    done. }
  rewrite run_bind, (run_load pp _ (World h4 (calls w)) Hpp4).
  rewrite run_bind. unfold call_f at 1. rewrite run_bind. unfold log at 1.
  cbn [heap calls]. rewrite Hf.
  rewrite run_bind,
    (run_load pm (<[i := dt (f_sub x eps)]> pv) (World h4 _))
    by apply lookup_insert_eq.
  rewrite run_bind. unfold call_f at 1. rewrite run_bind. unfold log at 1.
  cbn [heap calls]. rewrite Hf.
  rewrite run_lift. unfold vec_sub. rewrite !Hg, Nat.eqb_refl.
  unfold lift, set_column.
  replace (i <? ncols J) with true by (symmetry; apply Nat.ltb_lt; lia).
  cbn [negb].
  rewrite length_fmap, length_zip_with, !Hg, HJ.
  replace (length t `min` length t) with (length t) by lia.
  rewrite Nat.eqb_refl.
  eexists. split; [reflexivity|]. cbn [heap calls]. split.
  - unfold h4, h3. rewrite insert_insert_eq.
    etrans; [|apply insert_subseteq; apply fresh_lookup_None].
    unfold h2, h1. rewrite insert_insert_eq.
    apply insert_subseteq, fresh_lookup_None.
  - by rewrite <- app_assoc.
Qed.

Lemma set_column_entry (J : ndarray2 F) (n i : nat) (col : list F) r j :
  length col = length (rows J) ->
  Forall (fun row => i < length row) (rows J) ->
  entry (Mat n (zip_with (fun row v => <[i := v]> row) (rows J) col)) r j =
  if decide (j = i) then col !! r else entry J r j.
Proof.
  intros Hlen Hrows. unfold entry. cbn [rows].
  rewrite lookup_zip_with.
  destruct (rows J !! r) as [row|] eqn:Hrow; cbn.
  - assert (i < length row) as Hi
      by (eapply (proj1 (Forall_lookup _ _) Hrows); eauto).
    destruct (lookup_lt_is_Some_2 col r) as [v Hv].
    { rewrite Hlen. eapply lookup_lt_Some; eauto. }
    rewrite Hv. cbn. case_decide as Hj.
    + subst j. by rewrite list_lookup_insert_eq.
    + by rewrite list_lookup_insert_ne.
  - case_decide; [|done]. symmetry. apply lookup_ge_None_2.
    rewrite Hlen. by apply lookup_ge_None_1.
Qed.

Lemma Jacobian_loop_run (f : list F -> list F -> M F (list F))
    (g : list F -> list F) (t : list F) (p : nat) (eps : F) (pv : list F)
    (k : nat) :
  (forall q w0, f t q w0 = (Ok (g q), w0)) ->
  (forall q, length (g q) = length t) ->
  forall (a : nat) (J : ndarray2 F) (w : world F),
  heap w !! p = Some pv -> a + k <= length pv ->
  length (rows J) = length t -> ncols J = length pv ->
  Forall (fun row => length row = length pv) (rows J) ->
  exists J' w' evals,
    for_each (_Jacobian_step float64 f t p eps) J (seq a k) w = (Ok J', w') /\
    heap w ⊆ heap w' /\
    calls w' = calls w ++ (CallF <$> evals) /\ length evals = 2 * k /\
    ncols J' = length pv /\ length (rows J') = length t /\
    Forall (fun row => length row = length pv) (rows J') /\
    forall r j, entry J' r j =
      if decide (a <= j < a + k) then central_difference g pv eps j !! r
      else entry J r j.
Proof.
  intros Hf Hg. induction k as [|k IH]; intros a J w Hp Hk HJ Hn Hrows.
  - exists J, w, []. cbn. rewrite app_nil_r.
    repeat split; try done. intros r j. case_decide; [lia | done].
  - destruct (lookup_lt_is_Some_2 pv a ltac:(lia)) as [x Hx].
    destruct (Jacobian_step_run float64 f g t p eps J a w pv x)
      as (w1 & Hstep & Hsub1 & Hcalls1); try done; [lia|].
    change (float64 (f_add x eps)) with (f_add x eps) in Hstep, Hcalls1.
    change (float64 (f_sub x eps)) with (f_sub x eps) in Hstep, Hcalls1.
    set (col := (fun v => f_div v (f_mul (lit 2) eps)) <$>
                  zip_with f_sub (g (<[a := f_add x eps]> pv))
                                 (g (<[a := f_sub x eps]> pv))) in *.
    assert (length col = length t) as Hcol.
    { unfold col. rewrite length_fmap, length_zip_with, !Hg. lia. }
    set (J1 := Mat (ncols J)
                 (zip_with (fun row v => <[a := v]> row) (rows J) col)) in *.
    destruct (IH (S a) J1 w1) as (J' & w' & evals & Hrun & Hsub & Hcalls &
                                  Hev & Hn' & Hl' & Hr' & Hent).
    + eapply lookup_weaken; eauto.
    + lia.
    + unfold J1. cbn. rewrite length_zip_with. lia.
    + done.
    + unfold J1. cbn. apply Forall_forall. intros row Hrow.
      apply list_elem_of_lookup in Hrow as [r Hrow].
      apply lookup_zip_with_Some in Hrow as (row0 & v & -> & Hrow0 & _).
      rewrite length_insert.
      eapply (proj1 (Forall_lookup _ _) Hrows); eauto.
    + exists J', w', (<[a := f_add x eps]> pv :: <[a := f_sub x eps]> pv :: evals).
      cbn [seq]. rewrite for_each_cons, Hstep. split; [done|].
      split; [by etrans|].
      split; [rewrite Hcalls, Hcalls1, <- app_assoc; done|].
      split; [cbn; lia|]. split; [done|]. split; [done|]. split; [done|].
      intros r j. rewrite Hent. unfold J1.
      rewrite set_column_entry; [|lia|].
      2:{ eapply Forall_impl; [exact Hrows|]. cbn. intros; lia. }
      unfold central_difference.
      destruct (decide (j = a)) as [-> | Hne].
      * rewrite Hx. fold col. repeat case_decide; try lia; done.
      * repeat case_decide; try lia; done.
Qed.

Lemma entry_zeros2 (nt n r j : nat) :
  r < nt -> j < n -> entry (zeros2 nt n) r j = Some (lit 0).
Proof.
  intros Hr Hj. unfold entry, zeros2, zeros. cbn [rows].
  rewrite lookup_replicate_2 by done. cbn. by rewrite lookup_replicate_2.
Qed.

End Jacobian.





(** ** [geologic_history] *)

Section GeologicHistoryChecks.
Context {F : Type} `{Scalar F}.
Variable caleqs : gmap string (gmap string (list F -> list F)).
Variable gh : gh_fun -> list F -> list F -> list F -> list F -> F ->
              option Z -> result (list F).

Lemma checks_length_mismatch (t T : list F) calibration ref_frame :
  length T <> length t ->
  geologic_history_checks t T calibration ref_frame = Raise ValueError.
Proof.
  intros Hlen. unfold geologic_history_checks.
  replace (length T =? length t) with false
    by (symmetry; by apply Nat.eqb_neq).
  done.
Qed.

Lemma checks_unknown_calibration (t T : list F) (s : string) ref_frame :
  s ∉ ["PH12"; "SE15"; "Bea17"]%string ->
  geologic_history_checks t T (PyStr s) ref_frame = Raise ValueError.
Proof.
  intros Hs. unfold geologic_history_checks.
  destruct (length T =? length t); [|done]. cbn [negb].
  unfold py_in. rewrite bool_decide_eq_false_2 by done. done.
Qed.

(** C7.  When [T] and [t] differ in length, or [calibration] is a string
    other than 'PH12', 'SE15' and 'Bea17', [geologic_history] raises
    [ValueError], and the world is as it was: no calibration equation has
    been looked up, no forward model called, no array allocated. *)
Theorem geologic_history_rejects_bad_input (t T : list F)
    (ed : EDistribution F) (d0 d0_std : list F) (calibration ref_frame : pyobj)
    (nlam : Z) (eps : option F) (w : world F) :
  length T <> length t \/
  (exists s, calibration = PyStr s /\ s ∉ ["PH12"; "SE15"; "Bea17"]%string) ->
  geologic_history caleqs gh t T ed d0 d0_std calibration ref_frame nlam eps w
  = (Raise ValueError, w).
Proof.
  intros Hbad. unfold geologic_history. rewrite run_bind. unfold lift at 1.
  destruct Hbad as [Hlen | (s & -> & Hs)].
  - by rewrite checks_length_mismatch.
  - by rewrite checks_unknown_calibration.
Qed.

(** C6 fails on the code.  With [T] as long as [t], a [calibration] or a
    [ref_frame] that is an integer or [None] is refused by the test
    [not in [...]], which comes first: the call raises [ValueError], and the
    [TypeError] of the [elif] is never reached. *)
Theorem geologic_history_non_string_is_ValueError (t : list F)
    (ed : EDistribution F) (d0 d0_std : list F) (z : Z) (nlam : Z)
    (eps : option F) (w : world F) :
  (forall ref_frame,
     geologic_history caleqs gh t t ed d0 d0_std (PyInt z) ref_frame nlam eps w
     = (Raise ValueError, w)) /\
  (forall ref_frame,
     geologic_history caleqs gh t t ed d0 d0_std PyNone ref_frame nlam eps w
     = (Raise ValueError, w)) /\
  geologic_history caleqs gh t t ed d0 d0_std (PyStr "Bea17") (PyInt z) nlam
    eps w = (Raise ValueError, w) /\
  geologic_history caleqs gh t t ed d0 d0_std (PyStr "Bea17") PyNone nlam
    eps w = (Raise ValueError, w).
Proof.
  unfold geologic_history, geologic_history_checks.
  repeat split; intros; rewrite run_bind; unfold lift at 1;
    rewrite Nat.eqb_refl; reflexivity.
Qed.

End GeologicHistoryChecks.

Lemma geologic_history_rejects_bad_input_witness :
  geologic_history (F := R) ∅ tagged_forward [0; 1]%R [300; 310]%R
    example_Hea14 [6 / 10]%R [0]%R (PyStr "bogus") (PyStr "CDES90") 400 None
    (World ∅ [])
  = (Raise ValueError, World ∅ []).
Proof.
  apply geologic_history_rejects_bad_input. right.
  exists "bogus"%string. split; [reflexivity|].
  apply (bool_decide_unpack _). vm_compute. exact I.
Defined.

Section GeologicHistoryDispatch.
Context {F : Type} `{Scalar F}.

(** C1 fails on the code.  No run of [geologic_history] calls [_ghSE15]:
    replacing it by a function that raises changes no result.  And on a
    descriptor whose model is 'SE15' the curve [D] is the one that [_ghHH20]
    computes, and the 15 forward-model calls of the run (one for [D], two for
    each of the seven parameters of the Jacobian) are all calls of
    [_ghHH20]. *)
Theorem geologic_history_SE15_runs_ghHH20 :
  (forall caleqs gh t T ed d0 d0_std calibration ref_frame nlam eps
          (w : world F),
     geologic_history caleqs gh t T ed d0 d0_std calibration ref_frame nlam
       eps w =
     geologic_history caleqs (without_SE15 gh) t T ed d0 d0_std calibration
       ref_frame nlam eps w) /\
  (forall t0 t1 T0 T1 D0 s0,
     let run := geologic_history example_caleqs tagged_forward [t0; t1]
                  [T0; T1] example_SE15 [D0] [s0] (PyStr "Bea17")
                  (PyStr "CDES90") 400 None (World ∅ []) in
     fst <$> run.1 = Ok [lit 20; lit 20] /\
     forward_calls run.2 = replicate 15 GhHH20).
Proof.
  split.
  - intros. reflexivity.
  - intros. split.
    + vm_compute. reflexivity.
    + vm_compute. reflexivity.
Qed.
End GeologicHistoryDispatch.

(** * Part III: the rest of the code *)

(** ** Powers in exact arithmetic *)

Lemma Rpow_square (x : R) : Rpow x 2 = (x * x)%R.
Proof.
  unfold Rpow. destruct (Rlt_dec 0 x) as [Hx|Hx].
  - change 2%R with (INR 2). rewrite Rpower_pow by done. cbn. ring.
  - destruct (Req_dec_T x 0) as [->|Hx0].
    + destruct (Rlt_dec 0 2); [ring | lra].
    + destruct (Int_part_frac_part_spec 2 2 0) as [Hi Hf]; [lra | lra |].
      rewrite <- Hf, <- Hi.
      destruct (Req_dec_T 0 0); [|done]. unfold powerRZ.
      replace (Pos.to_nat 2) with 2%nat by reflexivity. cbn [pow]. ring.
Qed.

Lemma Rpow_half (x : R) : (0 <= x)%R -> Rpow x (1 / 2) = R_sqrt.sqrt x.
Proof.
  intros Hx. unfold Rpow. destruct (Rlt_dec 0 x) as [Hx'|Hx'].
  - replace (1 / 2)%R with (/ 2)%R by lra. by apply Rpower_sqrt.
  - assert (x = 0%R) as -> by lra. rewrite sqrt_0.
    destruct (Req_dec_T 0 0); [|done]. destruct (Rlt_dec 0 (1 / 2)); [done | lra].
Qed.

(** ** [_fPH12] *)

(** X1.  For a non-negative [intercept], the curve of [_fPH12] does not
    increase with time and stays non-negative: for [t[i] <= t[j]], [0 <=
    G[j] <= G[i]]; and at [t[i] = 0] it is [intercept]. *)
Theorem fPH12_decays (t : list R) (lnk intercept : R) (i j : nat) (ti tj : R) :
  t !! i = Some ti -> t !! j = Some tj ->
  (0 <= intercept)%R -> (ti <= tj)%R ->
  exists Gi Gj,
    _fPH12 t lnk intercept !! i = Some Gi /\
    _fPH12 t lnk intercept !! j = Some Gj /\
    (0 <= Gj <= Gi)%R /\ (ti = 0%R -> Gi = intercept).
Proof.
  intros Hi Hj H0 Hle. unfold _fPH12. rewrite !list_lookup_fmap, Hi, Hj. cbn.
  eexists _, _. split; [done|]. split; [done|].
  pose proof (exp_pos lnk) as Hk.
  pose proof (exp_pos (- tj * exp lnk)) as Hej.
  assert (exp (- tj * exp lnk) <= exp (- ti * exp lnk))%R as Hexp.
  { destruct (Req_dec_T ti tj) as [->|Hne]; [lra|].
    left. apply exp_increasing. nra. }
  split; [split; nra|].
  intros ->. replace (- 0 * exp lnk)%R with 0%R by ring. rewrite exp_0. ring.
Qed.

Lemma fPH12_decays_witness :
  exists Gi Gj : R,
    _fPH12 [0; 2]%R 1%R 3%R !! 0 = Some Gi /\
    _fPH12 [0; 2]%R 1%R 3%R !! 1 = Some Gj /\
    (0 <= Gj <= Gi)%R /\ Gi = 3%R.
Proof.
  destruct (fPH12_decays [0; 2]%R 1 3 0 1 0 2 eq_refl eq_refl
              ltac:(lra) ltac:(lra)) as (Gi & Gj & Hi & Hj & Hle & H0).
  exists Gi, Gj. split; [exact Hi|]. split; [exact Hj|]. split; [exact Hle|].
  apply H0. reflexivity.
Defined.

(** ** [_fHea14] *)

(** X2.  At a time point [t[i] >= 0] the curve of [_fHea14] lies in [(0,
    1]], whatever the parameters. *)
Theorem fHea14_bounded (t : list R) (lnkc lnkd lnk2 : R) (i : nat) (ti : R) :
  t !! i = Some ti -> (0 <= ti)%R ->
  exists G, _fHea14 t lnkc lnkd lnk2 !! i = Some G /\ (0 < G <= 1)%R.
Proof.
  intros Hi Hti. unfold _fHea14. rewrite !list_lookup_fmap, Hi. cbn.
  eexists. split; [done|]. split; [apply exp_pos|].
  pose proof (exp_pos lnkc) as Hc. pose proof (exp_pos lnkd) as Hd.
  pose proof (exp_pos lnk2) as H2.
  set (kc := exp lnkc) in *. set (kd := exp lnkd) in *. set (k2 := exp lnk2) in *.
  assert (exp (- k2 * ti) <= 1)%R as He.
  { rewrite <- exp_0. destruct (Req_dec_T (- k2 * ti) 0) as [->|Hne]; [lra|].
    left. apply exp_increasing. nra. }
  assert (0 < kd / k2)%R as Hq by (apply Rdiv_lt_0_compat; lra).
  set (e := exp (- k2 * ti)) in *.
  assert (- kc * ti + kd / k2 * (e - 1) <= 0)%R as Hle by nra.
  destruct Hle as [Hlt | ->]; [|rewrite exp_0; lra].
  pose proof (exp_increasing _ _ Hlt) as Hinc. rewrite exp_0 in Hinc. lra.
Qed.

Lemma fHea14_bounded_witness :
  exists G : R, _fHea14 [0; 5]%R 1%R 2%R 3%R !! 1 = Some G /\ (0 < G <= 1)%R.
Proof.
  apply (fHea14_bounded [0; 5]%R 1 2 3 1 5 eq_refl). lra.
Defined.

(** ** [_fArrhenius] *)

(** X3.  For a reference temperature [Tref <> 0] and an activation energy
    [E >= 0], [_fArrhenius] does not decrease with temperature: for
    [0 < T[i] <= T[j]], [lnk[i] <= lnk[j]]; and at [T[i] = Tref] it is
    [lnkref]. *)
Theorem fArrhenius_increasing (T : list R) (E lnkref Tref : R) (i j : nat)
    (Ti Tj : R) :
  Tref <> 0%R ->
  T !! i = Some Ti -> T !! j = Some Tj ->
  (0 <= E)%R -> (0 < Ti <= Tj)%R ->
  exists ki kj,
    _fArrhenius T E lnkref Tref !! i = Some ki /\
    _fArrhenius T E lnkref Tref !! j = Some kj /\
    (ki <= kj)%R /\ (Ti = Tref -> ki = lnkref).
Proof.
  intros _ Hi Hj HE [Hpos Hle]. unfold _fArrhenius.
  rewrite !list_lookup_fmap, Hi, Hj. cbn.
  eexists _, _. split; [done|]. split; [done|].
  assert (0 <= E / (8314 / 1000 / 1000))%R as Hq.
  { apply Rmult_le_pos; [done|]. left. apply Rinv_0_lt_compat. lra. }
  assert (1 / Tj <= 1 / Ti)%R as Hinv.
  { unfold Rdiv. rewrite !Rmult_1_l. apply Rinv_le_contravar; lra. }
  split; [nra|]. intros ->. ring.
Qed.

Lemma fArrhenius_increasing_witness :
  exists ki kj : R,
    _fArrhenius [300; 400]%R 100%R (-20)%R 300%R !! 0 = Some ki /\
    _fArrhenius [300; 400]%R 100%R (-20)%R 300%R !! 1 = Some kj /\
    (ki <= kj)%R /\ ki = (-20)%R.
Proof.
  destruct (fArrhenius_increasing [300; 400]%R 100 (-20) 300 0 1 300 400
              ltac:(lra) eq_refl eq_refl ltac:(lra) ltac:(lra))
    as (ki & kj & Hi & Hj & Hle & Href).
  exists ki, kj. split; [exact Hi|]. split; [exact Hj|]. split; [exact Hle|].
  apply Href. reflexivity.
Defined.

(** ** [_Gaussian] *)

(** X4.  For [sigma <> 0], [_Gaussian] is symmetric about [mu]: its values
    at [mu + h] and at [mu - h] are equal. *)
Theorem Gaussian_symmetric (x : list R) (mu sigma h : R) (i j : nat) :
  sigma <> 0%R ->
  x !! i = Some (mu + h)%R -> x !! j = Some (mu - h)%R ->
  _Gaussian x mu sigma !! i = _Gaussian x mu sigma !! j.
Proof.
  intros _ Hi Hj. unfold _Gaussian. rewrite !list_lookup_fmap, Hi, Hj. cbn.
  rewrite !Rpow_square. do 3 f_equal. unfold Rdiv. f_equal. ring.
Qed.

Lemma Gaussian_symmetric_witness :
  _Gaussian [3; 1]%R 2%R 5%R !! 0 = _Gaussian [3; 1]%R 2%R 5%R !! 1.
Proof.
  apply (Gaussian_symmetric [3; 1]%R 2 5 1 0 1); [lra | |]; cbn; f_equal; lra.
Defined.

(** X5.  For [sigma <> 0], every value of [_Gaussian] is positive and at
    most the peak [1 / sqrt(2 pi sigma^2)], which it takes at [x = mu]. *)
Theorem Gaussian_bounds (x : list R) (mu sigma : R) (i : nat) (xi : R) :
  sigma <> 0%R -> x !! i = Some xi ->
  exists y,
    _Gaussian x mu sigma !! i = Some y /\
    (0 < y <= / R_sqrt.sqrt (2 * PI * (sigma * sigma)))%R /\
    (xi = mu -> y = / R_sqrt.sqrt (2 * PI * (sigma * sigma)))%R.
Proof.
  intros Hs Hi. unfold _Gaussian. rewrite !list_lookup_fmap, Hi. cbn.
  eexists. split; [done|].
  rewrite !Rpow_square.
  assert (0 < sigma * sigma)%R as Hss by nra.
  pose proof PI_RGT_0 as Hpi.
  assert (0 < 2 * PI * (sigma * sigma))%R as Hv by prod_pos.
  rewrite Rpow_half by lra.
  pose proof (sqrt_lt_R0 _ Hv) as Hsq.
  set (s := R_sqrt.sqrt (2 * PI * (sigma * sigma))) in *.
  assert (1 / s = / s)%R as -> by (unfold Rdiv; ring).
  pose proof (Rinv_0_lt_compat _ Hsq) as Hinv.
  set (d := (xi - mu)%R).
  assert (- (d * d) / (2 * (sigma * sigma)) <= 0)%R as Hle.
  { unfold Rdiv. assert (0 < / (2 * (sigma * sigma)))%R
      by (apply Rinv_0_lt_compat; lra). nra. }
  pose proof (exp_pos (- (d * d) / (2 * (sigma * sigma)))) as Hep.
  assert (exp (- (d * d) / (2 * (sigma * sigma))) <= 1)%R as He1.
  { destruct Hle as [Hlt | ->]; [|rewrite exp_0; lra].
    pose proof (exp_increasing _ _ Hlt) as Hinc. rewrite exp_0 in Hinc. lra. }
  split; [split; nra|].
  intros ->. unfold d.
  replace (- ((mu - mu) * (mu - mu)) / (2 * (sigma * sigma)))%R with 0%R
    by (unfold Rdiv; ring).
  rewrite exp_0. ring.
Qed.

Lemma Gaussian_bounds_witness :
  exists y : R,
    _Gaussian [3; 1]%R 2%R 5%R !! 0 = Some y /\
    (0 < y <= / R_sqrt.sqrt (2 * PI * (5 * 5)))%R.
Proof.
  destruct (Gaussian_bounds [3; 1]%R 2 5 0 3 ltac:(lra) eq_refl)
    as (y & Hy & Hb & _).
  exists y. split; [exact Hy | exact Hb].
Defined.

(** ** [_calc_rmse] *)

Lemma sumsq_nonneg (d : list R) :
  (0 <= foldr Rplus 0 (zip_with Rmult d d))%R.
Proof. induction d as [|v d IH]; cbn; [lra | nra]. Qed.

Lemma sumsq_zero (d : list R) :
  foldr Rplus 0%R (zip_with Rmult d d) = 0%R -> Forall (fun v => v = 0%R) d.
Proof.
  induction d as [|v d IH]; cbn; intros Hs; [done|].
  pose proof (sumsq_nonneg d). constructor; [nra|]. apply IH. nra.
Qed.

Lemma zip_minus_zero (y yhat : list R) :
  length y = length yhat ->
  Forall (fun v => v = 0%R) (zip_with Rminus y yhat) -> y = yhat.
Proof.
  revert yhat. induction y as [|a y IH]; intros [|b yhat] Hlen Hz; try done.
  cbn in *. apply Forall_cons in Hz as [Hab Hz]. f_equal; [lra|].
  apply IH; [lia | done].
Qed.

Lemma sumsq_self (y : list R) :
  foldr Rplus 0%R (zip_with Rmult (zip_with Rminus y y) (zip_with Rminus y y))
  = 0%R.
Proof. induction y as [|a y IH]; cbn; [done|]. rewrite IH. ring. Qed.

(** X6.  For non-empty arrays of one length, [_calc_rmse] returns a
    non-negative number, which is 0 exactly when [y] and [yhat] are equal. *)
Theorem calc_rmse_zero_iff (y yhat : list R) :
  length y = length yhat -> y <> [] ->
  exists e, _calc_rmse y yhat = Ok e /\ (0 <= e)%R /\ (e = 0%R <-> y = yhat).
Proof.
  intros Hlen Hne. unfold _calc_rmse, vec_sub.
  rewrite (proj2 (Nat.eqb_eq _ _) Hlen). cbn.
  eexists. split; [done|].
  assert (0 < IZR (Z.of_nat (length y)))%R as Hn.
  { apply IZR_lt. destruct y; [done | cbn; lia]. }
  rewrite Rpow_half by lra.
  pose proof (sqrt_lt_R0 _ Hn) as Hsn.
  set (sn := R_sqrt.sqrt (IZR (Z.of_nat (length y)))) in *.
  unfold norm. cbn.
  set (d := zip_with Rminus y yhat).
  pose proof (sumsq_nonneg d) as HS.
  pose proof (sqrt_pos (foldr Rplus 0%R (zip_with Rmult d d))) as Hs0.
  pose proof (Rinv_0_lt_compat _ Hsn) as Hinv.
  split; [unfold Rdiv; nra|]. split.
  - intros He. apply zip_minus_zero; [done|]. apply sumsq_zero.
    apply sqrt_eq_0; [done|]. unfold Rdiv in He.
    apply Rmult_integral in He as [He|He]; [done | lra].
  - intros <-. unfold d. rewrite sumsq_self, sqrt_0. unfold Rdiv. ring.
Qed.

Lemma calc_rmse_zero_iff_witness :
  exists e : R, _calc_rmse [1; 2]%R [1; 4]%R = Ok e /\ (0 <= e)%R /\ e <> 0%R.
Proof.
  destruct (calc_rmse_zero_iff [1; 2]%R [1; 4]%R eq_refl ltac:(done))
    as (e & He & Hpos & Hiff).
  exists e. split; [exact He|]. split; [exact Hpos|].
  intros H0. apply Hiff in H0. injection H0 as H0. lra.
Defined.

(** X7.  For non-empty arrays of one length, the square of the value of
    [_calc_rmse] times [len(y)] is the sum of the squared residuals: the
    value is that of [sqrt(sum((y - yhat)**2) / len(y))], the formula that
    the source keeps as a comment. *)
Theorem calc_rmse_mean_square (y yhat : list R) :
  length y = length yhat -> y <> [] ->
  exists e,
    _calc_rmse y yhat = Ok e /\
    (e * e * INR (length y) =
     foldr Rplus 0 ((fun d => d * d) <$> zip_with Rminus y yhat))%R.
Proof.
  intros Hlen Hne. unfold _calc_rmse, vec_sub.
  rewrite (proj2 (Nat.eqb_eq _ _) Hlen). cbn.
  eexists. split; [done|].
  rewrite <- INR_IZR_INZ.
  assert (0 < INR (length y))%R as Hn.
  { apply lt_0_INR. destruct y; [done | cbn; lia]. }
  rewrite Rpow_half by lra.
  unfold norm. cbn.
  set (d := zip_with Rminus y yhat).
  assert (zip_with Rmult d d = (fun d => d * d)%R <$> d) as ->.
  { clear. induction d as [|v d IH]; cbn; [done | by rewrite IH]. }
  set (S := foldr Rplus 0%R ((fun d => d * d)%R <$> d)).
  assert (0 <= S)%R as HS.
  { unfold S. clear. induction d as [|v d IH]; cbn; [lra | nra]. }
  pose proof (sqrt_sqrt _ HS) as H1.
  pose proof (sqrt_sqrt (INR (length y)) ltac:(lra)) as H2.
  pose proof (sqrt_lt_R0 _ Hn) as Hsn.
  set (a := R_sqrt.sqrt S) in *. set (b := R_sqrt.sqrt (INR (length y))) in *.
  rewrite <- H2 at 1. rewrite <- H1. field. lra.
Qed.

Lemma calc_rmse_mean_square_witness :
  exists e : R,
    _calc_rmse [1; 2]%R [1; 4]%R = Ok e /\ (e * e * 2 = 4)%R.
Proof.
  destruct (calc_rmse_mean_square [1; 2]%R [1; 4]%R eq_refl ltac:(done))
    as (e & He & Hsq).
  exists e. split; [exact He|]. cbn in Hsq. lra.
Defined.

(** ** [linspace] and [_fHH20] *)

Section HH20.
Context {F : Type} `{Scalar F} `{ScalarConst F}.

Lemma linspace_length (start stop : F) (num : Z) (l : list F) :
  linspace start stop num = Ok l -> length l = Z.to_nat num.
Proof.
  unfold linspace. case_match; [done|]. intros [= <-].
  assert (forall y : list F, length y = Z.to_nat num ->
            length (if (1 <? num)%Z
                    then <[(Z.to_nat num - 1)%nat := f_mul stop (lit 1)]> y
                    else y) = Z.to_nat num) as Hfin.
  { intros y Hy. case_match; [by rewrite length_insert | done]. }
  apply Hfin. rewrite length_fmap.
  repeat case_match; by rewrite length_fmap, length_fmap, length_seq.
Qed.

Lemma linspace_Ok (start stop : F) (num : Z) :
  (0 <= num)%Z -> exists l, linspace start stop num = Ok l.
Proof.
  intros Hn. unfold linspace.
  replace (num <? 0)%Z with false by (symmetry; apply Z.ltb_ge; lia).
  by eexists.
Qed.

(** X8.  With fewer than two nodes [_fHH20] returns no curve: [nlam < 0]
    raises [ValueError] (from [np.linspace]), and [nlam = 0] and [nlam =
    1] raise [IndexError] (from [lam[1]]). *)
Theorem fHH20_needs_two_nodes (t : list F) (mu_lam sig_lam lam_max lam_min : F)
    (nlam : Z) :
  (nlam < 2)%Z ->
  _fHH20 t mu_lam sig_lam lam_max lam_min nlam =
  Raise (if (nlam <? 0)%Z then ValueError else IndexError).
Proof.
  intros Hn. unfold _fHH20.
  destruct (nlam <? 0)%Z eqn:Hneg.
  - unfold linspace. by rewrite Hneg.
  - apply Z.ltb_ge in Hneg.
    destruct (linspace_Ok lam_min lam_max nlam Hneg) as [l Hl].
    rewrite Hl. cbn. apply linspace_length in Hl.
    unfold index. rewrite (lookup_ge_None_2 l 1) by lia. done.
Qed.

End HH20.

Lemma fHH20_needs_two_nodes_witness :
  _fHH20 [0; 1]%R 0%R 1%R 4%R (-4)%R 1 = Raise IndexError /\
  _fHH20 [0; 1]%R 0%R 1%R 4%R (-4)%R (-1) = Raise ValueError.
Proof.
  split.
  - apply (fHH20_needs_two_nodes [0; 1]%R 0%R 1%R 4%R (-4)%R 1). lia.
  - apply (fHH20_needs_two_nodes [0; 1]%R 0%R 1%R 4%R (-4)%R (-1)). lia.
Defined.

(** The kernel of [_calc_A] inside [_fHH20]. *)
Lemma inner_density_row (d : R) (rho row : list R) :
  foldr Rplus 0%R
    (zip_with Rmult
       ((fun v => v * d)%R <$> zip_with Rmult ((fun y => 1 * y)%R <$> rho) row)
       (replicate (length rho) 1%R))
  = foldr Rplus 0%R (zip_with Rmult ((fun v => v * d)%R <$> row) rho).
Proof.
  revert row. induction rho as [|r rho IH]; intros [|e row]; cbn; try done.
  rewrite IH. ring.
Qed.

Lemma inner_density (d : R) (rho : list R) (a : ndarray2 R) (nt n : nat) :
  length (rows a) <= nt -> n = length rho ->
  inner (mat_map (fun v => v * d)%R (mat_mul (outer (ones nt) rho) a)) (ones n)
  = inner (mat_map (fun v => v * d)%R a) rho.
Proof.
  intros HE ->. unfold inner, mat_map, mat_mul, outer, ones. cbn [rows ncols].
  rewrite (fmap_replicate (fun x : R => (fun y : R => f_mul x y) <$> rho)).
  rewrite zip_with_replicate_l by done.
  rewrite <- !list_fmap_compose. apply list_fmap_ext. intros _ row _. cbn.
  apply inner_density_row.
Qed.

(** X9.  With [nlam >= 2] and [sig_lam <> 0], [_fHH20] is the forward
    kernel of [_calc_A] on the nodes [lam = linspace(lam_min, lam_max,
    nlam)] applied to the density [_Gaussian(lam, mu_lam, sig_lam)]: [G[i]]
    is the sum over [j] of [A[i, j] * rho[j]]. *)
Theorem fHH20_kernel_times_density (t : list R)
    (mu_lam sig_lam lam_max lam_min : R) (nlam : Z) :
  (2 <= nlam)%Z -> sig_lam <> 0%R ->
  exists lam A,
    linspace lam_min lam_max nlam = Ok lam /\
    length lam = Z.to_nat nlam /\
    _calc_A t lam = Ok A /\
    _fHH20 t mu_lam sig_lam lam_max lam_min nlam =
    Ok (inner A (_Gaussian lam mu_lam sig_lam)).
Proof.
  intros Hn _.
  destruct (linspace_Ok lam_min lam_max nlam ltac:(lia)) as [lam Hl].
  pose proof (linspace_length _ _ _ _ Hl) as Hlen.
  destruct (lookup_lt_is_Some_2 lam 0 ltac:(lia)) as [l0 H0].
  destruct (lookup_lt_is_Some_2 lam 1 ltac:(lia)) as [l1 H1].
  exists lam. eexists. split; [done|]. split; [done|].
  unfold _fHH20, _calc_A. rewrite Hl. cbn [mbind result_bind].
  rewrite (index_Some _ _ _ H0), (index_Some _ _ _ H1). cbn [mbind result_bind].
  split; [reflexivity|]. unfold mret, result_ret. f_equal.
  rewrite <- Hlen. apply inner_density.
  - unfold mat_mul, mat_map, outer. cbn [rows ncols].
    rewrite length_fmap, length_zip_with, !length_fmap. lia.
  - unfold _Gaussian. by rewrite length_fmap.
Qed.

Lemma fHH20_kernel_times_density_witness :
  exists lam A,
    linspace (-4)%R 4%R 3 = Ok lam /\ length lam = 3 /\
    _calc_A [0; 1]%R lam = Ok A /\
    _fHH20 [0; 1]%R 0%R 1%R 4%R (-4)%R 3 = Ok (inner A (_Gaussian lam 0%R 1%R)).
Proof.
  apply (fHH20_kernel_times_density [0; 1]%R 0 1 4 (-4) 3); [lia | lra].
Defined.

(** ** [derivatize] *)

Lemma mapM_result_Forall2 {A B} (f : A -> result B) (l : list A) (k : list B) :
  mapM f l = Ok k <-> Forall2 (fun x y => f x = Ok y) l k.
Proof.
  revert k. induction l as [|x l IH]; intros k; split.
  - intros [= <-]. constructor.
  - by inversion 1.
  - cbn. destruct (f x) as [y|e] eqn:Hy; [|done]. cbn.
    destruct (mapM f l) as [k'|e] eqn:Hk; [|done]. cbn. intros [= <-].
    constructor; [done|]. by apply IH.
  - inversion 1 as [|? y ? k' Hy Hk]; subst. cbn. rewrite Hy. cbn.
    apply IH in Hk. rewrite Hk. done.
Qed.

Section Derivatize.
Context {F : Type} `{Scalar F}.

Lemma gradient_Ok (f : list F) :
  2 <= length f -> gradient f = Ok (gradient_at f <$> seq 0 (length f)).
Proof.
  intros Hf. unfold gradient.
  by replace (length f <? 2) with false by (symmetry; apply Nat.ltb_ge; lia).
Qed.

Lemma gradient_short (f : list F) :
  length f < 2 -> gradient f = Raise ValueError.
Proof.
  intros Hf. unfold gradient.
  by replace (length f <? 2) with true by (symmetry; apply Nat.ltb_lt; lia).
Qed.

Lemma vec_div_unequal (a b : list F) :
  2 <= length a -> 2 <= length b -> length a <> length b ->
  vec_div a b = Raise ValueError.
Proof.
  intros Ha Hb Hne. unfold vec_div.
  replace (length a =? length b) with false
    by (symmetry; by apply Nat.eqb_neq).
  destruct a as [|? [|? ?]], b as [|? [|? ?]]; cbn in *; done || lia.
Qed.

Lemma derivatize_1d_Ok (num denom : list F) :
  2 <= length num -> length denom = length num ->
  derivatize_1d num denom =
  Ok ((fun i => f_div (gradient_at num i) (gradient_at denom i)) <$>
        seq 0 (length num)).
Proof.
  intros Hn Hd. unfold derivatize_1d.
  rewrite !gradient_Ok by lia. cbn. unfold vec_div.
  rewrite !length_fmap, !length_seq, Hd, Nat.eqb_refl.
  by rewrite zip_with_fmap_l, zip_with_fmap_r, zip_with_diag.
Qed.

(** X10.  On two 1-d arrays of one length [n >= 2], [derivatize] returns a
    1-d array of length [n]. *)
Theorem derivatize_1d_shape (num denom : list F) :
  2 <= length num -> length denom = length num ->
  exists v, derivatize (Nd1 num) (Nd1 denom) = Ok (Nd1 v) /\
            length v = length num.
Proof.
  intros Hn Hd. unfold derivatize. rewrite derivatize_1d_Ok by done. cbn.
  eexists. split; [done|]. by rewrite length_fmap, length_seq.
Qed.

Lemma derivatize_1d_rejects (num denom : list F) :
  length num < 2 \/ length denom < 2 \/ length num <> length denom ->
  derivatize_1d num denom = Raise ValueError.
Proof.
  intros Hbad. unfold derivatize_1d.
  destruct (decide (length num < 2)) as [Hn|Hn].
  { rewrite (gradient_short num) by done. reflexivity. }
  rewrite (gradient_Ok num) by lia. cbn.
  destruct (decide (length denom < 2)) as [Hd|Hd].
  { rewrite (gradient_short denom) by done. reflexivity. }
  rewrite (gradient_Ok denom) by lia. cbn.
  apply vec_div_unequal; rewrite !length_fmap, !length_seq; lia.
Qed.

(** X11.  On two 1-d arrays, [derivatize] raises [ValueError] when either
    has fewer than two entries or their lengths differ. *)
Theorem derivatize_rejects_lengths (num denom : list F) :
  length num < 2 \/ length denom < 2 \/ length num <> length denom ->
  derivatize (Nd1 num) (Nd1 denom) = Raise ValueError.
Proof.
  intros Hbad. unfold derivatize. by rewrite derivatize_1d_rejects.
Qed.

(** X12.  When [num] or [denom] has a number of dimensions other than 1
    and 2 (a 0-d array, say), no branch assigns [dndd], and [derivatize]
    raises [UnboundLocalError] at its [return]. *)
Theorem derivatize_unsupported_ndim (num denom : ndarray F) :
  num = NdOther \/ denom = NdOther ->
  derivatize num denom = Raise UnboundLocalError.
Proof.
  intros [-> | ->]; [done|]. by destruct num.
Qed.

End Derivatize.

Lemma derivatize_1d_shape_witness :
  exists v : list R,
    derivatize (Nd1 [1; 4; 9]%R) (Nd1 [1; 2; 3]%R) = Ok (Nd1 v) /\ length v = 3.
Proof.
  apply (derivatize_1d_shape [1; 4; 9]%R [1; 2; 3]%R); cbn; lia.
Defined.

Lemma derivatize_rejects_lengths_witness :
  derivatize (Nd1 [1%R]) (Nd1 [1; 2; 3]%R) = Raise ValueError.
Proof.
  apply (derivatize_rejects_lengths [1%R] [1; 2; 3]%R). left. cbn. lia.
Defined.

Lemma derivatize_unsupported_ndim_witness :
  derivatize (F := R) NdOther (Nd1 [1; 2]%R) = Raise UnboundLocalError.
Proof. apply derivatize_unsupported_ndim. left. reflexivity. Defined.

(** X13.  [derivatize] is exact on affine data: for a 1-d [denom] of at
    least two pairwise distinct values and [num = a + b * denom], every
    entry of the result is [b]. *)
Theorem derivatize_affine (a b : R) (denom : list R) :
  2 <= length denom -> NoDup denom ->
  derivatize (Nd1 ((fun x => a + b * x)%R <$> denom)) (Nd1 denom)
  = Ok (Nd1 (replicate (length denom) b)).
Proof.
  intros Hn Hnd. unfold derivatize.
  rewrite derivatize_1d_Ok by (rewrite ?length_fmap; lia). cbn.
  do 2 f_equal. rewrite length_fmap.
  apply list_eq. intros i. rewrite list_lookup_fmap.
  destruct (decide (i < length denom)) as [Hi|Hi].
  2:{ rewrite lookup_seq_ge by lia. symmetry. apply lookup_ge_None_2.
      rewrite length_replicate. lia. }
  rewrite lookup_seq_lt, lookup_replicate_2 by lia. cbn. f_equal.
  assert (forall j k x y, j <> k -> denom !! j = Some x -> denom !! k = Some y ->
            x <> y) as Hdist.
  { intros j k x y Hjk Hj Hk ->. apply Hjk. by eapply NoDup_lookup. }
  assert (forall k x, denom !! k = Some x ->
            default (lit 0) (((fun x => a + b * x)%R <$> denom) !! k)
            = (a + b * x)%R)
    as Hnum.
  { intros k x Hk. by rewrite list_lookup_fmap, Hk. }
  unfold gradient_at. rewrite length_fmap.
  set (n := length denom) in *.
  assert (forall j k, j < n -> k < n -> j <> k ->
    exists x y, denom !! j = Some x /\ denom !! k = Some y /\ x <> y) as Hget.
  { intros j k Hj Hk Hjk.
    destruct (lookup_lt_is_Some_2 denom j Hj) as [x Hx].
    destruct (lookup_lt_is_Some_2 denom k Hk) as [y Hy].
    exists x, y. split; [done|]. split; [done|]. by eapply Hdist. }
  repeat case_match.
  - destruct (Hget 1 0) as (x & y & Hx & Hy & Hxy); try lia.
    rewrite (Hnum _ _ Hx), (Hnum _ _ Hy), Hx, Hy. cbn. field. lra.
  - destruct (Hget (n - 1) (n - 2)) as (x & y & Hx & Hy & Hxy); try lia.
    rewrite (Hnum _ _ Hx), (Hnum _ _ Hy), Hx, Hy. cbn. field. lra.
  - assert (i <> 0 /\ i <> n - 1) as [Hi0 Hi1].
    { split; by apply Nat.eqb_neq. }
    destruct (Hget (i + 1) (i - 1)) as (x & y & Hx & Hy & Hxy); try lia.
    rewrite (Hnum _ _ Hx), (Hnum _ _ Hy), Hx, Hy. cbn. field. lra.
Qed.

Lemma derivatize_affine_witness :
  derivatize (Nd1 ((fun x => 5 + 2 * x)%R <$> [1; 2; 4]%R)) (Nd1 [1; 2; 4]%R)
  = Ok (Nd1 [2; 2; 2]%R).
Proof.
  apply (derivatize_affine 5 2 [1; 2; 4]%R); [cbn; lia|].
  apply NoDup_cons. split.
  { rewrite !not_elem_of_cons. repeat split; try lra. apply not_elem_of_nil. }
  apply NoDup_cons. split.
  { rewrite !not_elem_of_cons. repeat split; try lra. apply not_elem_of_nil. }
  apply NoDup_singleton.
Defined.

(** ** [derivatize], column by column *)

Lemma mapM_result_fmap {A B} (f : A -> result B) (g : A -> B) (l : list A) :
  Forall (fun x => f x = Ok (g x)) l -> mapM f l = Ok (g <$> l).
Proof.
  induction 1 as [|x l Hx Hl IH]; [done|]. cbn. by rewrite Hx, IH.
Qed.

Lemma mapM_result_fmap_fmap {A B C} (f : B -> result C) (g : A -> B)
    (h : A -> C) (l : list A) :
  Forall (fun x => f (g x) = Ok (h x)) l -> mapM f (g <$> l) = Ok (h <$> l).
Proof.
  induction 1 as [|x l Hx Hl IH]; [done|]. cbn. by rewrite Hx, IH.
Qed.

Lemma mapM_result_Ok {A B} (f : A -> result B) (l : list A) :
  Forall (fun x => exists y, f x = Ok y) l -> exists k, mapM f l = Ok k.
Proof.
  induction 1 as [|x l [y Hx] Hl [k IH]]; [by eexists|].
  cbn. rewrite Hx, IH. by eexists.
Qed.

Lemma fmap_lookup_seq {A} (d : A) (l : list A) :
  (fun i => default d (l !! i)) <$> seq 0 (length l) = l.
Proof.
  apply list_eq. intros i. rewrite list_lookup_fmap.
  destruct (decide (i < length l)) as [Hi|Hi].
  - rewrite lookup_seq_lt by done. cbn.
    destruct (lookup_lt_is_Some_2 l i Hi) as [x Hx]. by rewrite Hx.
  - rewrite lookup_seq_ge by lia. symmetry. apply lookup_ge_None_2. lia.
Qed.

Section Columns.
Context {F : Type} `{Scalar F}.

Lemma columns_Ok (a : ndarray2 F) :
  Forall (fun row => length row = ncols a) (rows a) ->
  exists cols,
    columns a = Ok cols /\ length cols = ncols a /\
    forall j, j < ncols a ->
      exists c, cols !! j = Some c /\ column a j = Ok c /\
                length c = length (rows a).
Proof.
  intros Hrows. unfold columns.
  destruct (mapM_result_Ok (column a) (seq 0 (ncols a))) as [cols Hcols].
  { apply Forall_forall. intros j Hj. apply elem_of_seq in Hj.
    apply column_Ok; [lia | done]. }
  exists cols. split; [done|].
  pose proof (mapM_result_length _ _ _ Hcols) as Hlen.
  rewrite length_seq in Hlen. split; [done|].
  intros j Hj. apply mapM_result_Forall2 in Hcols.
  destruct (Forall2_lookup_l _ _ _ j j Hcols) as (c & Hc & Hcol).
  { by rewrite lookup_seq_lt. }
  exists c. split; [done|]. split; [done|]. by eapply column_length.
Qed.

Lemma column_stack_Ok (cols : list (list F)) (n : nat) :
  cols <> [] -> Forall (fun c => length c = n) cols ->
  column_stack cols = Ok (transpose (Mat n cols)).
Proof.
  intros Hne Hall. unfold column_stack. destruct cols as [|c cols]; [done|].
  apply Forall_cons in Hall as Hc. destruct Hc as [Hc _].
  rewrite (proj2 (forallb_forall _ _)).
  - by rewrite Hc.
  - intros c' Hc'. apply Nat.eqb_eq. rewrite Hc.
    apply (proj1 (Forall_forall _ _) Hall). by apply list_elem_of_In.
Qed.

Lemma column_transpose (cols : list (list F)) (n j : nat) (c : list F) :
  cols !! j = Some c -> length c = n ->
  column (transpose (Mat n cols)) j = Ok c.
Proof.
  intros Hj Hc. unfold column, transpose. cbn [ncols rows].
  pose proof (lookup_lt_Some _ _ _ Hj) as Hlt.
  replace (j <? length cols) with true by (symmetry; by apply Nat.ltb_lt).
  rewrite <- (fmap_lookup_seq (lit 0) c) at 1. rewrite Hc.
  apply mapM_result_fmap_fmap. apply Forall_forall. intros i _. cbn.
  unfold index. by rewrite list_lookup_fmap, Hj.
Qed.

(** X14.  For a 2-d [num] with at least one column and a 1-d [denom] as
    long as [num] has rows (at least two), [derivatize] returns a 2-d
    array of the shape of [num] whose column [j] is [derivatize(num[:, j],
    denom)]. *)
Theorem derivatize_columnwise (num : ndarray2 F) (denom : list F) :
  Forall (fun row => length row = ncols num) (rows num) ->
  1 <= ncols num -> length (rows num) = length denom -> 2 <= length denom ->
  exists D,
    derivatize (Nd2 num) (Nd1 denom) = Ok (Nd2 D) /\
    length (rows D) = length denom /\ ncols D = ncols num /\
    forall j, j < ncols num ->
      exists col dcol,
        column num j = Ok col /\
        derivatize (Nd1 col) (Nd1 denom) = Ok (Nd1 dcol) /\
        column D j = Ok dcol.
Proof.
  intros Hrows Hcols Hlen Hn.
  destruct (columns_Ok num Hrows) as (cols & Hc & Hcl & Hcj).
  set (der := fun col : list F =>
    (fun i => f_div (gradient_at col i) (gradient_at denom i)) <$>
      seq 0 (length col)).
  assert (Forall (fun c => length c = length denom) cols) as Hclen.
  { apply Forall_lookup. intros j c Hj.
    destruct (Hcj j) as (c' & Hc' & _ & Hl).
    { rewrite <- Hcl. by eapply lookup_lt_Some. }
    rewrite Hj in Hc'. injection Hc' as <-. lia. }
  assert (mapM (fun col => derivatize_1d col denom) cols = Ok (der <$> cols))
    as Hder.
  { apply mapM_result_fmap. eapply Forall_impl; [exact Hclen|].
    cbn. intros c Hl. apply derivatize_1d_Ok; lia. }
  exists (transpose (Mat (length denom) (der <$> cols))).
  split; [|split; [|split]].
  - unfold derivatize. rewrite Hc. cbn [mbind result_bind].
    rewrite Hder. cbn [mbind result_bind].
    rewrite (column_stack_Ok _ (length denom)); [done| |].
    + destruct cols; [cbn in Hcl; lia | done].
    + apply Forall_fmap. eapply Forall_impl; [exact Hclen|].
      cbn. intros c Hl. unfold der. by rewrite length_fmap, length_seq.
  - unfold transpose. cbn [rows ncols]. by rewrite length_fmap, length_seq.
  - unfold transpose. cbn [rows ncols]. by rewrite length_fmap.
  - intros j Hj. destruct (Hcj j Hj) as (c & Hcj' & Hcol & Hl).
    exists c, (der c). split; [done|]. split.
    + unfold derivatize. rewrite derivatize_1d_Ok by lia. done.
    + apply column_transpose.
      * by rewrite list_lookup_fmap, Hcj'.
      * unfold der. rewrite length_fmap, length_seq. lia.
Qed.

End Columns.

Lemma derivatize_columnwise_witness :
  exists D : ndarray2 R,
    derivatize (Nd2 (Mat 2 [[1; 0]; [4; 1]; [9; 2]]%R)) (Nd1 [1; 2; 3]%R)
    = Ok (Nd2 D) /\
    length (rows D) = 3 /\ ncols D = 2.
Proof.
  destruct (derivatize_columnwise (Mat 2 [[1; 0]; [4; 1]; [9; 2]]%R)
              [1; 2; 3]%R) as (D & Hrun & Hr & Hc & _).
  - repeat constructor.
  - cbn. lia.
  - reflexivity.
  - cbn. lia.
  - exists D. split; [exact Hrun|]. split; [exact Hr | exact Hc].
Defined.

(** ** [derivatize] on two 2-d arrays *)

Section Derivatize2d.
Context {F : Type} `{Scalar F}.

Lemma gradient_axis0_Ok (a : ndarray2 F) :
  Forall (fun row => length row = ncols a) (rows a) ->
  2 <= length (rows a) -> 2 <= ncols a ->
  exists cols,
    columns a = Ok cols /\ length cols = ncols a /\
    Forall (fun c => length c = length (rows a)) cols /\
    gradient_axis0 a =
    Ok (transpose (Mat (length (rows a))
          ((fun c => gradient_at c <$> seq 0 (length c)) <$> cols))).
Proof.
  intros Hrows Hr Hc.
  destruct (columns_Ok a Hrows) as (cols & Hcols & Hcl & Hcj).
  assert (Forall (fun c => length c = length (rows a)) cols) as Hclen.
  { apply Forall_lookup. intros j c Hj.
    destruct (Hcj j) as (c' & Hc' & _ & Hl).
    { rewrite <- Hcl. by eapply lookup_lt_Some. }
    rewrite Hj in Hc'. by injection Hc' as <-. }
  exists cols. split; [done|]. split; [done|]. split; [done|].
  unfold gradient_axis0.
  replace (length (rows a) <? 2) with false
    by (symmetry; apply Nat.ltb_ge; lia).
  replace (ncols a <? 2) with false by (symmetry; apply Nat.ltb_ge; lia).
  cbn [orb]. rewrite Hcols. cbn [mbind result_bind].
  rewrite (mapM_result_fmap gradient
             (fun c => gradient_at c <$> seq 0 (length c))).
  2:{ eapply Forall_impl; [exact Hclen|]. cbn. intros c Hl.
      apply gradient_Ok. lia. }
  cbn [mbind result_bind].
  apply column_stack_Ok.
  - destruct cols; [cbn in Hcl; lia | done].
  - apply Forall_fmap. eapply Forall_impl; [exact Hclen|]. cbn.
    intros c Hl. by rewrite length_fmap, length_seq.
Qed.

(** X15.  On two 2-d arrays, [derivatize] raises [ValueError] when [num]
    has fewer than two rows or fewer than two columns: [np.gradient]
    differentiates along both axes, so an array of a single column is
    refused. *)
Theorem derivatize_2d_rejects_thin (num denom : ndarray2 F) :
  length (rows num) < 2 \/ ncols num < 2 ->
  derivatize (Nd2 num) (Nd2 denom) = Raise ValueError.
Proof.
  intros Hthin. unfold derivatize, gradient_axis0.
  destruct (length (rows num) <? 2) eqn:E1; [done|].
  destruct (ncols num <? 2) eqn:E2; [done|].
  apply Nat.ltb_ge in E1, E2. lia.
Qed.

(** X16.  On two 2-d arrays of one shape, with at least two rows and two
    columns, [derivatize] returns an array of that shape whose column [j]
    is [derivatize(num[:, j], denom[:, j])]. *)
Theorem derivatize_2d_columnwise (num denom : ndarray2 F) :
  Forall (fun row => length row = ncols num) (rows num) ->
  Forall (fun row => length row = ncols denom) (rows denom) ->
  length (rows denom) = length (rows num) -> ncols denom = ncols num ->
  2 <= length (rows num) -> 2 <= ncols num ->
  exists D,
    derivatize (Nd2 num) (Nd2 denom) = Ok (Nd2 D) /\
    length (rows D) = length (rows num) /\ ncols D = ncols num /\
    forall j, j < ncols num ->
      exists cn cd dcol,
        column num j = Ok cn /\ column denom j = Ok cd /\
        derivatize (Nd1 cn) (Nd1 cd) = Ok (Nd1 dcol) /\
        column D j = Ok dcol.
Proof.
  intros Hrn Hrd Hl Hc Hn Hm.
  destruct (gradient_axis0_Ok num Hrn Hn Hm)
    as (cn & Hcn & Hcnl & Hcnr & Hgn).
  destruct (gradient_axis0_Ok denom Hrd ltac:(lia) ltac:(lia))
    as (cd & Hcd & Hcdl & Hcdr & Hgd).
  set (n := length (rows num)) in *. rewrite Hl in Hgd, Hcdr. fold n in Hgd.
  set (grad := fun c : list F => gradient_at c <$> seq 0 (length c)) in *.
  eexists. split; [|split; [|split]].
  - unfold derivatize. rewrite Hgn, Hgd. cbn [mbind result_bind].
    unfold mat_div, transpose. cbn [rows ncols].
    rewrite !length_fmap, !length_seq, Hcnl, Hcdl, Hc, !Nat.eqb_refl.
    reflexivity.
  - cbn [rows]. rewrite length_zip_with, !length_fmap, !length_seq. lia.
  - reflexivity.
  - intros j Hj.
    destruct (columns_Ok num Hrn) as (cn' & Hcn' & _ & Hnj).
    rewrite Hcn in Hcn'. injection Hcn' as <-.
    destruct (columns_Ok denom Hrd) as (cd' & Hcd' & _ & Hdj).
    rewrite Hcd in Hcd'. injection Hcd' as <-.
    destruct (Hnj j Hj) as (c1 & Hc1 & Hcol1 & Hl1).
    destruct (Hdj j ltac:(lia)) as (c2 & Hc2 & Hcol2 & Hl2).
    exists c1, c2,
      ((fun i => f_div (gradient_at c1 i) (gradient_at c2 i)) <$>
         seq 0 (length c1)).
    split; [done|]. split; [done|]. split.
    + unfold derivatize. rewrite derivatize_1d_Ok by lia. done.
    + unfold column. cbn [ncols rows].
      replace (j <? ncols num) with true by (symmetry; by apply Nat.ltb_lt).
      rewrite zip_with_fmap_l, zip_with_fmap_r, zip_with_diag.
      fold n in Hl1. rewrite Hl1.
      apply mapM_result_fmap_fmap. apply Forall_forall.
      intros i Hi. apply elem_of_seq in Hi. unfold index.
      rewrite lookup_zip_with, !list_lookup_fmap, Hc1, Hc2. cbn.
      unfold grad. rewrite !list_lookup_fmap.
      rewrite Hl1, Hl2, Hl. fold n.
      rewrite !lookup_seq_lt by lia. done.
Qed.

End Derivatize2d.

Lemma derivatize_2d_rejects_thin_witness :
  derivatize (Nd2 (Mat 1 [[1]; [4]; [9]]%R)) (Nd2 (Mat 1 [[1]; [2]; [3]]%R))
  = Raise ValueError.
Proof.
  apply (derivatize_2d_rejects_thin (Mat 1 [[1]; [4]; [9]]%R)). right. cbn. lia.
Defined.

Lemma derivatize_2d_columnwise_witness :
  exists D : ndarray2 R,
    derivatize (Nd2 (Mat 2 [[1; 0]; [4; 1]; [9; 2]]%R))
               (Nd2 (Mat 2 [[1; 1]; [2; 3]; [3; 5]]%R))
    = Ok (Nd2 D) /\
    length (rows D) = 3 /\ ncols D = 2.
Proof.
  destruct (derivatize_2d_columnwise (Mat 2 [[1; 0]; [4; 1]; [9; 2]]%R)
              (Mat 2 [[1; 1]; [2; 3]; [3; 5]]%R))
    as (D & Hrun & Hr & Hc & _).
  - repeat constructor.
  - repeat constructor.
  - reflexivity.
  - reflexivity.
  - cbn. lia.
  - cbn. lia.
  - exists D. split; [exact Hrun|]. split; [exact Hr | exact Hc].
Defined.

(** ** More on the matrices *)

(** X17.  [_calc_R n] returns no matrix for [n <= 0]: [n = 0] raises
    [IndexError] (the entry [R[0, 0]] of a [1 x 0] array), and [n < 0]
    raises [ValueError] (from [np.zeros]). *)
Theorem calc_R_rejects_nonpositive {F : Type} `{Scalar F} (n : Z) :
  (n <= 0)%Z ->
  _calc_R (F := F) n =
  Raise (if (n <? 0)%Z then ValueError else IndexError).
Proof.
  intros Hn. unfold _calc_R. destruct (n <? 0)%Z eqn:Hneg; [done|].
  apply Z.ltb_ge in Hneg. assert (n = 0%Z) as -> by lia. reflexivity.
Qed.

Lemma calc_R_rejects_nonpositive_witness :
  _calc_R (F := R) 0 = Raise IndexError /\
  _calc_R (F := R) (-2) = Raise ValueError.
Proof.
  split.
  - apply (calc_R_rejects_nonpositive (F := R) 0). lia.
  - apply (calc_R_rejects_nonpositive (F := R) (-2)). lia.
Defined.

(** X18.  When the first two nodes increase ([lam[0] < lam[1]]) and [t[i]
    >= 0], every entry of row [i] of the kernel [_calc_A t lam] lies in
    [(0, dlam]] for [dlam = lam[1] - lam[0]]; the row of [t[i] = 0] is
    [dlam] throughout. *)
Theorem calc_A_kernel_bounded (t lam : list R) (l0 l1 ti : R) (i j : nat) :
  lam !! 0 = Some l0 -> lam !! 1 = Some l1 -> (l0 < l1)%R ->
  t !! i = Some ti -> (0 <= ti)%R -> j < length lam ->
  exists A v,
    _calc_A t lam = Ok A /\ entry A i j = Some v /\
    (0 < v <= l1 - l0)%R /\ (ti = 0%R -> v = (l1 - l0)%R).
Proof.
  intros H0 H1 Hd Hti Hpos Hj. unfold _calc_A.
  rewrite (index_Some _ _ _ H1), bind_Ok, (index_Some _ _ _ H0), bind_Ok.
  destruct (lookup_lt_is_Some_2 lam j Hj) as [lj Hlj].
  eexists _, (exp (- exp lj * ti) * (l1 - l0))%R. split; [reflexivity|].
  split.
  - unfold mat_map, mat_mul, outer, ones, entry. cbn [rows ncols].
    apply lookup_lt_Some in Hti as Hi.
    rewrite !list_lookup_fmap, lookup_zip_with, !list_lookup_fmap.
    rewrite lookup_replicate_2 by done. rewrite Hti. simpl.
    rewrite !list_lookup_fmap, lookup_zip_with, !list_lookup_fmap.
    rewrite Hlj, lookup_replicate_2 by done. simpl.
    by rewrite Rmult_1_l, Rmult_1_r.
  - pose proof (exp_pos lj) as Hk.
    pose proof (exp_pos (- exp lj * ti)) as He.
    assert (exp (- exp lj * ti) <= 1)%R as He1.
    { assert (- exp lj * ti <= 0)%R as [Hlt | ->] by nra;
        [|rewrite exp_0; lra].
      pose proof (exp_increasing _ _ Hlt) as Hinc. rewrite exp_0 in Hinc. lra. }
    split; [split; nra|].
    intros ->. rewrite Rmult_0_r, exp_0. ring.
Qed.

Lemma calc_A_kernel_bounded_witness :
  exists A v,
    _calc_A [0; 1]%R [0; 1]%R = Ok A /\ entry A 1 1 = Some v /\
    (0 < v <= 1 - 0)%R.
Proof.
  destruct (calc_A_kernel_bounded [0; 1]%R [0; 1]%R 0 1 1 1 1 eq_refl eq_refl
              ltac:(lra) eq_refl ltac:(lra) ltac:(cbn; lia))
    as (A & v & Hrun & Hv & Hb & _).
  exists A, v. split; [exact Hrun|]. split; [exact Hv | exact Hb].
Defined.

(** ** More on the stochastic distribution *)

(** X19.  In exact arithmetic the division by [f44] in [_calc_R_stoch]
    cancels the fractional abundances: [R45 = R13 + 2 R17], [R46 = 2 R18 +
    2 R13 R17 + R17^2] and [R47 = 2 R13 R18 + 2 R17 R18 + R13 R17^2], for
    the ratios [R13], [R18], [R17] that the function forms from [d13C],
    [d18O] and the registry. *)
Theorem calc_R_stoch_closed_form (reg : gmap string (R * R * R * R))
    (name : string) (R13v R18v R17v lam17 d13C d18O : R) :
  reg !! name = Some (R13v, R18v, R17v, lam17) ->
  (0 < R13v)%R -> (0 < R18v)%R -> (0 < R17v)%R ->
  (-1000 <= d13C)%R -> (-1000 < d18O)%R ->
  let R13 := ((d13C / 1000 + 1) * R13v)%R in
  let R18 := ((d18O / 1000 + 1) * R18v)%R in
  let R17 := (R17v * Rpow (R18 / R18v) lam17)%R in
  _calc_R_stoch reg d13C d18O name =
  Ok (R13 + 2 * R17, 2 * R18 + 2 * R13 * R17 + R17 * R17,
      2 * R13 * R18 + 2 * R17 * R18 + R13 * R17 * R17)%R.
Proof. apply calc_R_stoch_polynomials. Qed.

Lemma calc_R_stoch_closed_form_witness :
  exists R17 : R,
    _calc_R_stoch example_isoparams 0%R 0%R "Brand" =
    Ok (1118 / 100000 + 2 * R17,
        2 * (20052 / 10000000) + 2 * (1118 / 100000) * R17 + R17 * R17,
        2 * (1118 / 100000) * (20052 / 10000000) +
        2 * R17 * (20052 / 10000000) + 1118 / 100000 * R17 * R17)%R.
Proof.
  eexists.
  rewrite (calc_R_stoch_closed_form example_isoparams "Brand"
             (1118 / 100000) (20052 / 10000000) (38475 / 100000000)
             (528 / 1000) 0 0 eq_refl
             ltac:(lra) ltac:(lra) ltac:(lra) ltac:(lra) ltac:(lra)).
  replace ((0 / 1000 + 1) * (1118 / 100000))%R with (1118 / 100000)%R by lra.
  replace ((0 / 1000 + 1) * (20052 / 10000000))%R
    with (20052 / 10000000)%R by lra.
  reflexivity.
Defined.

Lemma Rpow_lt_1 (x : R) (z : Z) :
  (0 < x < 1)%R -> (1 <= z)%Z -> (0 < Rpow x (IZR z) < 1)%R.
Proof.
  intros [Hx0 Hx1] Hz. split; [by apply Rpow_pos|].
  unfold Rpow. destruct (Rlt_dec 0 x); [|done]. unfold Rpower.
  assert (ln x < 0)%R as Hln by (rewrite <- ln_1; by apply ln_increasing).
  assert (1 <= IZR z)%R as Hz' by by apply IZR_le.
  assert (IZR z * ln x < 0)%R as Hlt by nra.
  pose proof (exp_increasing _ _ Hlt) as Hinc. by rewrite exp_0 in Hinc.
Qed.

(** X20.  For positive [R45_stoch] and [R46_stoch], a non-negative
    [R47_stoch] and a coordination number [z >= 1], [_calc_Rpeq] is
    positive. *)
Theorem calc_Rpeq_positive (R45 R46 R47 : R) (z : Z) :
  (0 < R45)%R -> (0 < R46)%R -> (0 <= R47)%R -> (1 <= z)%Z ->
  (0 < _calc_Rpeq R45 R46 R47 z)%R.
Proof.
  intros H45 H46 H47 Hz. unfold _calc_Rpeq.
  cbn [lit f_add f_sub f_mul f_div f_pow R_scalar].
  set (S := (1 + R45 + R46 + R47)%R).
  assert (0 < S)%R as HS by (unfold S; lra).
  assert (0 < 1 / S)%R as H44 by (apply Rdiv_lt_0_compat; lra).
  assert (R45 * (1 / S) < 1)%R as Hf45.
  { apply (Rmult_lt_reg_r S); [done|]. unfold S in *. field_simplify; lra. }
  assert (R46 * (1 / S) < 1)%R as Hf46.
  { apply (Rmult_lt_reg_r S); [done|]. unfold S in *. field_simplify; lra. }
  set (g44 := (1 / S)%R) in *.
  assert (0 < R45 * g44)%R as Hp45 by prod_pos.
  assert (0 < R46 * g44)%R as Hp46 by prod_pos.
  destruct (Rpow_lt_1 (1 - R45 * g44) z) as [Ha0 Ha1]; [lra | done |].
  destruct (Rpow_lt_1 (1 - R46 * g44) z) as [Hb0 Hb1]; [lra | done |].
  apply Rdiv_lt_0_compat; [|done].
  apply Rdiv_lt_0_compat; [|lra].
  assert (0 < R46 * g44 * (1 - Rpow (1 - R45 * g44) (IZR z)))%R by prod_pos.
  assert (0 < R45 * g44 * (1 - Rpow (1 - R46 * g44) (IZR z)))%R by prod_pos.
  lra.
Qed.

Lemma calc_Rpeq_positive_witness :
  (0 < _calc_Rpeq (1 / 100) (1 / 250) (1 / 20000) 6)%R.
Proof. apply calc_Rpeq_positive; lra || lia. Defined.

(** ** More on [_fSE15] *)

Section SE15Errors.
Context {F : Type} `{Scalar F}.
Variable reg : gmap string (F * F * F * F).

(** X21.  When [he.iso_params] is not a key of [d47_isoparams] (and
    [he.dex] has its three columns), [_fSE15] raises [KeyError]; it has
    made no step and changed nothing. *)
Theorem fSE15_unregistered_isoparams (t : list F)
    (lnk1f lnkds lnp0peq D0 Deq Dppeq : F) (he : HeatingExperiment F)
    (w : world F) :
  Forall (fun row => length row = ncols (dex he)) (rows (dex he)) ->
  3 <= ncols (dex he) -> reg !! iso_params he = None ->
  _fSE15 reg t lnk1f lnkds lnp0peq D0 Deq Dppeq he w = (Raise KeyError, w).
Proof.
  intros Hrows Hcols Hreg. unfold _fSE15. rewrite run_lift.
  unfold _fSE15_system.
  destruct (column_Ok (dex he) 1) as [c1 ->]; [lia | done |].
  destruct (column_Ok (dex he) 2) as [c2 ->]; [lia | done |].
  rewrite !bind_Ok. unfold _calc_R_stoch, _calc_R_stoch_abundances, dict_get.
  by rewrite Hreg.
Qed.

(** X22.  With an empty [t], [_fSE15] raises [IndexError] once its first
    half is done (at the row [x[0, :]] of a [0 x 2] array); it has made no
    step. *)
Theorem fSE15_empty_time (lnk1f lnkds lnp0peq D0 Deq Dppeq : F)
    (he : HeatingExperiment F) (w : world F) sys :
  _fSE15_system reg lnk1f lnkds lnp0peq D0 Deq Dppeq he = Ok sys ->
  _fSE15 reg [] lnk1f lnkds lnp0peq D0 Deq Dppeq he w = (Raise IndexError, w).
Proof.
  intros Hsys. unfold _fSE15. rewrite Hsys, run_lift.
  destruct sys as [[[[a b] c] d] x0]. reflexivity.
Qed.

End SE15Errors.

Lemma fSE15_unregistered_isoparams_witness :
  _fSE15 (F := R) ∅ [0; 1]%R 0%R 0%R 0%R (6 / 10)%R (1 / 2)%R 1%R example_he
    (World ∅ [])
  = (Raise KeyError, World ∅ []).
Proof.
  apply (fSE15_unregistered_isoparams (F := R) ∅).
  - repeat constructor.
  - cbn. lia.
  - reflexivity.
Defined.

Lemma fSE15_empty_time_witness :
  _fSE15 example_isoparams [] 0%R 0%R 0%R (6 / 10)%R (1 / 2)%R 1%R example_he
    (World ∅ [])
  = (Raise IndexError, World ∅ []).
Proof.
  destruct (example_system 0 0 0 (6 / 10) (1 / 2))
    as (a & b & c & d & x0 & Hsys & _); [lra|].
  exact (fSE15_empty_time example_isoparams 0%R 0%R 0%R (6 / 10)%R (1 / 2)%R
           1%R example_he (World ∅ []) _ Hsys).
Defined.

(** ** [_fSE15] on a time grid that does not decrease *)

(** X23.  In exact arithmetic, when the entries [a], [b], [c] of the
    matrix [A] are non-negative and the non-empty [t] does not decrease,
    every matrix [I - dt*A] has an inverse: [_fSE15] returns [nt] values
    after [nt - 1] steps, the first of them [D0]. *)
Theorem fSE15_returns_on_increasing_times (reg : gmap string (R * R * R * R))
    (t : list R) (lnk1f lnkds lnp0peq D0 Deq Dppeq : R)
    (he : HeatingExperiment R) a b c d x0 (w : world R) :
  _fSE15_system reg lnk1f lnkds lnp0peq D0 Deq Dppeq he
    = Ok (a, b, c, d, x0) ->
  (0 <= a)%R -> (0 <= b)%R -> (0 <= c)%R -> 0 < length t ->
  (forall i ti ti1, t !! i = Some ti -> t !! (i + 1) = Some ti1 ->
     (ti <= ti1)%R) ->
  exists D,
    _fSE15 reg t lnk1f lnkds lnp0peq D0 Deq Dppeq he w =
    (Ok D, World (heap w) (calls w ++ replicate (length t - 1) CallInv)) /\
    length D = length t /\ D !! 0 = Some D0.
Proof.
  intros Hsys Ha Hb Hc Hnt Hmono.
  destruct (fSE15_returns reg t _ _ _ _ _ _ _ _ _ _ _ _ w Hsys Hnt)
    as (D & Hrun & Hlen & H0).
  { intros i ti ti1 Hti Hti1. apply Rinv2_SE15_Some; try done.
    specialize (Hmono i ti ti1 Hti Hti1). cbn. lra. }
  exists D. split; [done|]. split; [done|]. rewrite H0. f_equal. cbn. lra.
Qed.

Lemma fSE15_returns_on_increasing_times_witness :
  exists D : list R,
    _fSE15 example_isoparams [0; 1; 3]%R 0%R 0%R 0%R (6 / 10)%R (1 / 2)%R 1%R
      example_he (World ∅ [])
    = (Ok D, World ∅ [CallInv; CallInv]) /\
    length D = 3 /\ D !! 0 = Some (6 / 10)%R.
Proof.
  destruct (example_system 0 0 0 (6 / 10) (1 / 2))
    as (a & b & c & d & x0 & Hsys & Ha & Hb & Hc); [lra|].
  apply (fSE15_returns_on_increasing_times example_isoparams [0; 1; 3]%R
           0 0 0 (6 / 10) (1 / 2) 1 example_he a b c d x0 (World ∅ []) Hsys);
    [done | done | done | cbn; lia |].
  intros i ti ti1 Hti Hti1.
  destruct i as [|[|[|i]]]; cbn in Hti, Hti1; simplify_eq; lra.
Defined.

(** ** [_fSE15] at equilibrium *)

Section SE15Values.
Context {F : Type} `{Scalar F}.
Variable reg : gmap string (F * F * F * F).

(** The state that one backward-Euler step writes into row [i + 1]. *)
Lemma fSE15_step_value (t : list F) (a b c d : F) (x : ndarray2 F)
    (i : nat) (w : world F) ti ti1 m00 m01 m10 m11 u0 u1 :
  t !! i = Some ti -> t !! (i + 1) = Some ti1 ->
  f_inv2 (_fSE15_matrix a b c (f_sub ti1 ti)) = Some (m00, m01, (m10, m11)) ->
  rows x !! i = Some [u0; u1] ->
  i + 1 < length (rows x) -> ncols x = 2 ->
  let dt := f_sub ti1 ti in
  let v0 := f_add u0 (f_mul dt (lit 0)) in
  let v1 := f_add u1 (f_mul dt d) in
  _fSE15_step t a b c d x i w =
  (Ok (Mat 2 (<[i + 1 :=
                 [f_add (f_mul m00 v0) (f_mul m01 v1);
                  f_add (f_mul m10 v0) (f_mul m11 v1)]]> (rows x))),
   World (heap w) (calls w ++ [CallInv])).
Proof.
  intros Hti Hti1 HAi Hxi Hlen Hcols dt v0 v1.
  destruct (lookup_lt_is_Some_2 (rows x) (i + 1) ltac:(lia)) as [xi1 Hxi1].
  cbv [_fSE15_step set_row np_inv log lift mbind M_bind result_bind
       mret M_ret].
  rewrite (index_Some _ _ _ Hti), (index_Some _ _ _ Hti1), HAi.
  cbn [heap calls].
  rewrite (index_Some _ _ _ Hxi). cbn.
  rewrite (index_Some _ _ _ Hxi1), Hcols. cbn. reflexivity.
Qed.

(** What [_fSE15_system] returns, when it returns. *)
Lemma fSE15_system_relations lnk1f lnkds lnp0peq D0 Deq Dppeq he a b c d x0 :
  _fSE15_system reg lnk1f lnkds lnp0peq D0 Deq Dppeq he = Ok (a, b, c, d, x0) ->
  b = f_div (f_mul a (f_add (f_div Deq (lit 1000)) (lit 1))) Dppeq /\
  d = f_mul c Dppeq /\
  x0 = [f_add (f_div D0 (lit 1000)) (lit 1); f_mul (f_exp lnp0peq) Dppeq].
Proof.
  unfold _fSE15_system. intros Hsys.
  destruct (column (dex he) 1) as [c1|]; [|done]. rewrite bind_Ok in Hsys.
  destruct (column (dex he) 2) as [c2|]; [|done]. rewrite bind_Ok in Hsys.
  destruct (_calc_R_stoch _ _ _ _) as [[[R45 R46] R47]|]; [|done].
  rewrite bind_Ok in Hsys. by injection Hsys as <- <- <- <- <-.
Qed.

End SE15Values.

(** At the fixed point of the system, the backward-Euler update returns the
    fixed point. *)
Lemma fSE15_fixed_point (a c u v dt : R) Ai :
  v <> 0%R ->
  Rinv2 (_fSE15_matrix a (a * u / v)%R c dt) = Some Ai ->
  dot2 Ai [(u + dt * 0)%R; (v + dt * (c * v))%R] = Ok [u; v].
Proof.
  intros Hv. unfold Rinv2, _fSE15_matrix.
  cbn [lit f_sub f_mul f_neg f_add R_scalar].
  destruct (Req_dec_T _ 0) as [|Hdet]; [done|]. intros [= <-]. cbn.
  set (D := ((1 - dt * - a) * (1 - dt * - (a * u / v + c)) -
             (0 - dt * (a * u / v)) * (0 - dt * a))%R) in *.
  do 2 f_equal; [|f_equal];
    match goal with
    | |- (?X / D * ?p + ?Y / D * ?q)%R = ?r =>
        replace (X / D * p + Y / D * q)%R with ((X * p + Y * q) / D)%R
          by (unfold Rdiv; ring);
        apply (Rmult_eq_reg_r D); [|done];
        unfold Rdiv; rewrite Rmult_assoc, Rinv_l by done;
        rewrite Rmult_1_r; unfold D; field; done
    end.
Qed.

Lemma fSE15_loop_fixed_point (t : list R) (a c d u v : R) (k : nat) :
  v <> 0%R -> d = (c * v)%R ->
  (forall i ti ti1, t !! i = Some ti -> t !! (i + 1) = Some ti1 ->
     is_Some (Rinv2 (_fSE15_matrix a (a * u / v)%R c (ti1 - ti)%R))) ->
  forall (i0 : nat) (x : ndarray2 R) (w : world R),
  i0 + k < length t -> length (rows x) = length t -> ncols x = 2 ->
  rows x !! i0 = Some [u; v] ->
  exists x',
    for_each (_fSE15_step t a (a * u / v)%R c d) x (seq i0 k) w =
    (Ok x', World (heap w) (calls w ++ replicate k CallInv)) /\
    length (rows x') = length t /\ ncols x' = 2 /\
    (forall r, i0 <= r <= i0 + k -> rows x' !! r = Some [u; v]) /\
    (forall r, r < i0 -> rows x' !! r = rows x !! r).
Proof.
  intros Hv -> Hinv. induction k as [|k IH]; intros i0 x w Hk Hlen Hcols Hx.
  - exists x. cbn. rewrite app_nil_r. split; [by destruct w|].
    split; [done|]. split; [done|]. split; [|done].
    intros r Hr. by replace r with i0 by lia.
  - destruct (lookup_lt_is_Some_2 t i0 ltac:(lia)) as [ti Hti].
    destruct (lookup_lt_is_Some_2 t (i0 + 1) ltac:(lia)) as [ti1 Hti1].
    destruct (Hinv i0 ti ti1 Hti Hti1) as [[[m00 m01] [m10 m11]] HAi].
    pose proof (fSE15_step_value t a (a * u / v)%R c (c * v)%R x i0 w
                  ti ti1 m00 m01 m10 m11 u v Hti Hti1 HAi Hx
                  ltac:(lia) Hcols) as Hstep.
    cbn zeta in Hstep.
    pose proof (fSE15_fixed_point a c u v (ti1 - ti)%R _ Hv HAi) as Hfix.
    cbn [dot2] in Hfix. injection Hfix as Hf0 Hf1.
    cbn [f_add f_sub f_mul lit R_scalar] in Hstep.
    rewrite Hf0, Hf1 in Hstep.
    cbn [seq]. rewrite for_each_cons, Hstep.
    destruct (IH (S i0) (Mat 2 (<[i0 + 1 := [u; v]]> (rows x)))
                (World (heap w) (calls w ++ [CallInv])))
      as (x' & Hrun & Hl' & Hc' & Hfixed & Hpre).
    + lia.
    + cbn. by rewrite length_insert.
    + done.
    + cbn. replace (i0 + 1) with (S i0) by lia.
      apply list_lookup_insert_eq. lia.
    + exists x'. rewrite Hrun. cbn [heap calls].
      rewrite <- app_assoc. split; [done|]. split; [done|]. split; [done|].
      split.
      * intros r Hr. destruct (decide (r = i0)) as [->|Hne].
        -- rewrite Hpre by lia. cbn.
           by rewrite list_lookup_insert_ne by lia.
        -- apply Hfixed. lia.
      * intros r Hr. rewrite Hpre by lia. cbn.
        by rewrite list_lookup_insert_ne by lia.
Qed.

(** X24.  A sample that starts at equilibrium stays there: with [D0 =
    Deq], [lnp0peq = 0] and [Dppeq <> 0], [_fSE15] returns [Deq] at every
    time point (in exact arithmetic, when the matrices [I - dt*A] have
    inverses).  The experiment is one that the first half of [_fSE15]
    divides by no zero on: [he.dex] has a row, the registered standard
    ratios are positive, the mean [d13C] is at least -1000 and the mean
    [d18O] above -1000, so that [R47_stoch] and, with it, [Rpeq] are not
    0. *)
Theorem fSE15_stays_at_equilibrium (reg : gmap string (R * R * R * R))
    (t : list R) (lnk1f lnkds Deq Dppeq : R) (he : HeatingExperiment R)
    (R13v R18v R17v lam17 : R) (c1 c2 : list R)
    a b c d x0 (w : world R) :
  reg !! iso_params he = Some (R13v, R18v, R17v, lam17) ->
  (0 < R13v)%R -> (0 < R18v)%R -> (0 < R17v)%R ->
  rows (dex he) <> [] ->
  column (dex he) 1 = Ok c1 -> (-1000 <= Rmean c1)%R ->
  column (dex he) 2 = Ok c2 -> (-1000 < Rmean c2)%R ->
  _fSE15_system reg lnk1f lnkds 0%R Deq Deq Dppeq he = Ok (a, b, c, d, x0) ->
  Dppeq <> 0%R -> 0 < length t ->
  (forall i ti ti1, t !! i = Some ti -> t !! (i + 1) = Some ti1 ->
     is_Some (Rinv2 (_fSE15_matrix a b c (ti1 - ti)%R))) ->
  _fSE15 reg t lnk1f lnkds 0%R Deq Deq Dppeq he w =
  (Ok (replicate (length t) Deq),
   World (heap w) (calls w ++ replicate (length t - 1) CallInv)).
Proof.
  intros _ _ _ _ _ _ _ _ _ Hsys Hv Hnt Hinv.
  destruct (fSE15_system_relations _ _ _ _ _ _ _ _ _ _ _ _ _ Hsys)
    as (Hb & Hd & Hx0).
  cbn [f_add f_div f_mul f_exp lit R_scalar] in Hb, Hd, Hx0.
  rewrite exp_0, Rmult_1_l in Hx0.
  set (u := (Deq / 1000 + 1)%R) in *.
  unfold _fSE15. rewrite Hsys, run_lift. subst x0.
  assert (set_row (zeros2 (length t) 2) 0 [u; Dppeq]
          = Ok (Mat 2 (<[0 := [u; Dppeq]]> (replicate (length t) (zeros 2)))))
    as ->.
  { unfold set_row, zeros2. cbn [rows ncols].
    rewrite (index_Some _ 0 (zeros 2)) by (apply lookup_replicate_2; lia).
    done. }
  rewrite run_lift, run_bind. subst b.
  destruct (fSE15_loop_fixed_point t a c d u Dppeq (length t - 1) Hv Hd Hinv 0
              (Mat 2 (<[0 := [u; Dppeq]]> (replicate (length t) (zeros 2)))) w)
    as (x' & Hrun & Hl' & Hc' & Hfixed & _).
  - lia.
  - cbn. by rewrite length_insert, length_replicate.
  - done.
  - cbn. apply list_lookup_insert_eq. rewrite length_replicate. lia.
  - rewrite Hrun, run_lift.
    assert (column x' 0 = Ok (replicate (length t) u)) as ->.
    { unfold column. rewrite Hc'. cbn.
      rewrite <- (fmap_replicate (fun _ : nat => u) (length t) 0).
      assert (rows x' = replicate (length t) [u; Dppeq]) as ->.
      { apply list_eq. intros r.
        destruct (decide (r < length t)) as [Hr|Hr].
        - rewrite Hfixed by lia. by rewrite lookup_replicate_2.
        - rewrite !lookup_ge_None_2; [done | |]; rewrite ?length_replicate; lia. }
      rewrite fmap_replicate.
      generalize (length t). intros n. induction n as [|n IHn]; [done|].
      cbn. rewrite IHn. done. }
    rewrite fmap_replicate. unfold mret, M_ret. do 3 f_equal.
    unfold u. cbn. lra.
Qed.

Lemma fSE15_stays_at_equilibrium_witness :
  _fSE15 example_isoparams [0; 1; 3]%R 0%R 0%R 0%R (1 / 2)%R (1 / 2)%R 1%R
    example_he (World ∅ [])
  = (Ok [1 / 2; 1 / 2; 1 / 2]%R, World ∅ [CallInv; CallInv]).
Proof.
  destruct (example_system 0 0 0 (1 / 2) (1 / 2))
    as (a & b & c & d & x0 & Hsys & Ha & Hb & Hc); [lra|].
  assert (Rmean [0%R] = 0%R) as Hmean
    by (cbv [Rmean foldr length INR]; lra).
  apply (fSE15_stays_at_equilibrium example_isoparams [0; 1; 3]%R 0 0
           (1 / 2) 1 example_he (1118 / 100000) (20052 / 10000000)
           (38475 / 100000000) (528 / 1000) [0%R] [0%R] a b c d x0
           (World ∅ []));
    [reflexivity | lra | lra | lra | done | reflexivity | rewrite Hmean; lra
    | reflexivity | rewrite Hmean; lra | exact Hsys | lra | cbn; lia |].
  intros i ti ti1 Hti Hti1.
  apply Rinv2_SE15_Some; try done.
  destruct i as [|[|[|i]]]; cbn in Hti, Hti1; simplify_eq; cbn; lra.
Defined.

(** ** The Jacobian of a model that is linear in its parameters *)

Lemma dot_insert (row pv : list R) (j : nat) (x y rj : R) :
  pv !! j = Some x -> row !! j = Some rj ->
  foldr Rplus 0%R (zip_with Rmult row (<[j := y]> pv)) =
  (foldr Rplus 0 (zip_with Rmult row pv) + rj * (y - x))%R.
Proof.
  revert pv j. induction row as [|r row IH]; intros [|v pv] [|j] Hx Hr;
    try done; simpl in *.
  - injection Hx as ->. injection Hr as ->. ring.
  - rewrite (IH pv j) by done. ring.
Qed.

Lemma design_model_length (B : list (list R)) (q : list R) :
  length (design_model B q) = length B.
Proof. unfold design_model. by rewrite length_fmap. Qed.

(** X25.  For a pure function that is linear in its parameters, [f(t, *q)
    = B q] for a design matrix [B] with [len(t)] rows of length [len(p)],
    a float64 array [p] and [eps <> 0], the matrix that [_Jacobian] returns
    is [B] (in exact arithmetic). *)
Theorem Jacobian_exact_for_linear_model
    (f : list R -> list R -> M R (list R)) (B : list (list R))
    (t : list R) (p : nat) (eps : R) (pv : list R) (w : world R) :
  (forall q w0, f t q w0 = (Ok (design_model B q), w0)) ->
  length B = length t ->
  Forall (fun row => length row = length pv) B ->
  heap w !! p = Some pv -> eps <> 0%R ->
  exists J w', _Jacobian float64 f t p eps w = (Ok J, w') /\ rows J = B.
Proof.
  intros Hf HB Hrows Hp Heps. unfold _Jacobian.
  rewrite run_bind, (run_load p pv w Hp).
  destruct (Jacobian_loop_run f (design_model B) t p eps pv (length pv) Hf
              ltac:(intros; by rewrite design_model_length) 0
              (zeros2 (length t) (length pv)) w)
    as (J & w' & evals & Hrun & _ & _ & _ & Hn & Hl & Hr & Hent);
    try done.
  { cbn. apply length_replicate. }
  { cbn. apply Forall_replicate. apply length_replicate. }
  exists J, w'. split; [done|].
  apply list_eq_same_length with (length t); [done | done |].
  intros r rowJ rowB Hlt HrJ HrB.
  assert (length rowJ = length pv) as HlJ
    by (eapply (proj1 (Forall_lookup _ _) Hr); eauto).
  assert (length rowB = length pv) as HlB
    by (eapply (proj1 (Forall_lookup _ _) Hrows); eauto).
  apply list_eq_same_length with (length pv); [done | done |].
  intros j a b Hj Ha Hb.
  specialize (Hent r j). unfold entry in Hent. rewrite HrJ in Hent.
  cbn in Hent. rewrite Ha in Hent. case_decide; [|lia].
  destruct (lookup_lt_is_Some_2 pv j Hj) as [x Hx].
  unfold central_difference in Hent. rewrite Hx in Hent.
  rewrite list_lookup_fmap, lookup_zip_with in Hent.
  unfold design_model in Hent. rewrite !list_lookup_fmap, HrB in Hent.
  cbn in Hent. injection Hent as ->.
  rewrite !(dot_insert rowB pv j x _ b) by done. field. done.
Qed.

Lemma Jacobian_exact_for_linear_model_witness :
  exists (J : ndarray2 R) (w' : world R),
    _Jacobian float64
      (fun _ q w0 => (Ok (design_model [[1; 0]; [1; 1]; [1; 2]]%R q), w0))
      [0; 1; 2]%R 0 (1 / 1000000)%R (World {[ 0 := [1; 2]%R ]} [])
    = (Ok J, w') /\
    rows J = [[1; 0]; [1; 1]; [1; 2]]%R.
Proof.
  apply (Jacobian_exact_for_linear_model _ [[1; 0]; [1; 1]; [1; 2]]%R
           [0; 1; 2]%R 0 (1 / 1000000)%R [1; 2]%R).
  - reflexivity.
  - reflexivity.
  - repeat constructor.
  - reflexivity.
  - lra.
Defined.

(** ** More on the checks of [geologic_history] *)

Section GeologicHistoryErrors.
Context {F : Type} `{Scalar F}.
Variable caleqs : gmap string (gmap string (list F -> list F)).
Variable gh : gh_fun -> list F -> list F -> list F -> list F -> F ->
              option Z -> result (list F).

Lemma checks_pass (t T : list F) (c r : string) :
  length T = length t ->
  c ∈ ["PH12"; "SE15"; "Bea17"]%string ->
  r ∈ ["Ghosh25"; "Ghosh90"; "CDES25"; "CDES90"]%string ->
  geologic_history_checks t T (PyStr c) (PyStr r) = Ok tt.
Proof.
  intros Hlen Hc Hr. unfold geologic_history_checks.
  rewrite Hlen, Nat.eqb_refl. cbn [negb py_in isinstance_str].
  rewrite (bool_decide_eq_true_2 _ Hc), (bool_decide_eq_true_2 _ Hr).
  reflexivity.
Qed.

(** X26.  With [T] as long as [t] and one of the three calibration names,
    a [ref_frame] string other than 'Ghosh25', 'Ghosh90', 'CDES25' and
    'CDES90' makes [geologic_history] raise [ValueError], and the world is
    as it was. *)
Theorem geologic_history_rejects_bad_ref_frame (t T : list F)
    (ed : EDistribution F) (d0 d0_std : list F) (c r : string)
    (nlam : Z) (eps : option F) (w : world F) :
  length T = length t ->
  c ∈ ["PH12"; "SE15"; "Bea17"]%string ->
  r ∉ ["Ghosh25"; "Ghosh90"; "CDES25"; "CDES90"]%string ->
  geologic_history caleqs gh t T ed d0 d0_std (PyStr c) (PyStr r) nlam eps w
  = (Raise ValueError, w).
Proof.
  intros Hlen Hc Hr. unfold geologic_history. rewrite run_bind.
  unfold lift at 1. unfold geologic_history_checks.
  rewrite Hlen, Nat.eqb_refl. cbn [negb py_in isinstance_str].
  rewrite (bool_decide_eq_true_2 _ Hc), (bool_decide_eq_false_2 _ Hr).
  reflexivity.
Qed.

(** X27.  A [calibration] that is a tuple is refused while the message of
    the [ValueError] is formatted: the operator [%] takes a tuple as its
    list of arguments, so a tuple of one item gives the [ValueError] and
    any other tuple a [TypeError]. *)
Theorem geologic_history_tuple_calibration (t T : list F)
    (ed : EDistribution F) (d0 d0_std : list F) (items : list pyobj)
    (ref_frame : pyobj) (nlam : Z) (eps : option F) (w : world F) :
  length T = length t ->
  geologic_history caleqs gh t T ed d0 d0_std (PyTuple items) ref_frame nlam
    eps w
  = (Raise (if decide (length items = 1) then ValueError else TypeError), w).
Proof.
  intros Hlen. unfold geologic_history. rewrite run_bind.
  unfold lift at 1. unfold geologic_history_checks.
  rewrite Hlen, Nat.eqb_refl. cbn [negb py_in isinstance_str].
  destruct items as [|x [|y items]]; reflexivity.
Qed.

(** X28.  The name [ed.model] is not checked: when it is none of 'Hea14',
    'HH20', 'PH12', 'SE15' and the other arguments are valid,
    [geologic_history] raises [UnboundLocalError] where it reads [lamfunc]
    and [p]; the calibration equation has been looked up and no forward
    model has been called. *)
Theorem geologic_history_unknown_model (t T : list F)
    (ed : EDistribution F) (d0 d0_std : list F) (c r : string)
    (nlam : Z) (eps : option F) (w : world F) eqs caleq D0 s0 :
  length T = length t ->
  c ∈ ["PH12"; "SE15"; "Bea17"]%string ->
  r ∈ ["Ghosh25"; "Ghosh90"; "CDES25"; "CDES90"]%string ->
  caleqs !! c = Some eqs -> eqs !! r = Some caleq ->
  d0 !! 0 = Some D0 -> d0_std !! 0 = Some s0 ->
  model ed ∉ ["Hea14"; "HH20"; "PH12"; "SE15"]%string ->
  geologic_history caleqs gh t T ed d0 d0_std (PyStr c) (PyStr r) nlam eps w
  = (Raise UnboundLocalError,
     World (heap w) (calls w ++ [CallCaleq c r])).
Proof.
  intros Hlen Hc Hr Heqs Heq HD0 Hs0 Hm. unfold geologic_history.
  rewrite run_bind. unfold lift at 1. rewrite checks_pass by done.
  rewrite run_lift. unfold dict_get_obj, dict_get. rewrite Heqs.
  rewrite run_lift, Heq. rewrite run_bind. unfold log at 1.
  rewrite run_lift, (index_Some _ _ _ HD0).
  rewrite run_lift, (index_Some _ _ _ Hs0).
  apply not_elem_of_cons in Hm as [Hm1 Hm].
  apply not_elem_of_cons in Hm as [Hm2 Hm].
  apply not_elem_of_cons in Hm as [Hm3 Hm].
  apply not_elem_of_cons in Hm as [Hm4 _].
  rewrite (proj2 (String.eqb_neq _ _) Hm1), (proj2 (String.eqb_neq _ _) Hm2),
    (proj2 (String.eqb_neq _ _) Hm3), (proj2 (String.eqb_neq _ _) Hm4).
  reflexivity.
Qed.

End GeologicHistoryErrors.

Lemma geologic_history_rejects_bad_ref_frame_witness :
  geologic_history (F := R) example_caleqs tagged_forward [0; 1]%R [300; 310]%R
    example_Hea14 [6 / 10]%R [0]%R (PyStr "Bea17") (PyStr "bogus") 400 None
    (World ∅ [])
  = (Raise ValueError, World ∅ []).
Proof.
  apply geologic_history_rejects_bad_ref_frame.
  - reflexivity.
  - apply (bool_decide_unpack _). vm_compute. exact I.
  - apply (bool_decide_unpack _). vm_compute. exact I.
Defined.

Lemma geologic_history_tuple_calibration_witness :
  geologic_history (F := R) example_caleqs tagged_forward [0; 1]%R [300; 310]%R
    example_Hea14 [6 / 10]%R [0]%R
    (PyTuple [PyStr "PH12"; PyStr "SE15"]) (PyStr "CDES90") 400 None
    (World ∅ [])
  = (Raise TypeError, World ∅ []).
Proof.
  apply (geologic_history_tuple_calibration (F := R) example_caleqs
           tagged_forward [0; 1]%R [300; 310]%R example_Hea14 [6 / 10]%R [0]%R
           [PyStr "PH12"; PyStr "SE15"]).
  reflexivity.
Defined.

Lemma geologic_history_unknown_model_witness :
  geologic_history (F := R) example_caleqs tagged_forward [0; 1]%R [300; 310]%R
    {| model := "Hea2014"; Tref := 0%R; Eparams := Mat 0 [];
       Eparams_cov := Mat 0 [] |}
    [6 / 10]%R [0]%R (PyStr "Bea17") (PyStr "CDES90") 400 None (World ∅ [])
  = (Raise UnboundLocalError, World ∅ [CallCaleq "Bea17" "CDES90"]).
Proof.
  apply (geologic_history_unknown_model (F := R) example_caleqs tagged_forward
           [0; 1]%R [300; 310]%R _ [6 / 10]%R [0]%R "Bea17" "CDES90" 400 None
           (World ∅ []) {[ "CDES90"%string := fun T : list R => T ]}
           (fun T : list R => T) (6 / 10)%R 0%R); try reflexivity.
  - apply (bool_decide_unpack _). vm_compute. exact I.
  - apply (bool_decide_unpack _). vm_compute. exact I.
  - apply (bool_decide_unpack _). vm_compute. exact I.
Defined.

(** ** [_Jacobian] on a function that writes to the log *)

Section JacobianLog.
Context {F : Type} `{Scalar F}.

(** One pass of the loop of [_Jacobian] for a function [f] that, on a
    parameter array as long as [p], returns [g q], leaves the heap alone and
    appends [c q] to the log. *)
Lemma Jacobian_step_run_log (f : list F -> list F -> M F (list F))
    (g : list F -> list F) (c : list F -> list (call F)) (t : list F)
    (p : nat) (eps : F) (J : ndarray2 F) (i : nat) (w : world F)
    (pv : list F) (x : F) :
  (forall q w0, length q = length pv ->
     f t q w0 = (Ok (g q), World (heap w0) (calls w0 ++ c q))) ->
  (forall q, length q = length pv -> length (g q) = length t) ->
  heap w !! p = Some pv -> pv !! i = Some x ->
  length (rows J) = length t -> i < ncols J ->
  exists w',
    _Jacobian_step float64 f t p eps J i w =
    (Ok (Mat (ncols J)
           (zip_with (fun row v => <[i := v]> row) (rows J)
              ((fun v => f_div v (f_mul (lit 2) eps)) <$>
                 zip_with f_sub (g (<[i := f_add x eps]> pv))
                                (g (<[i := f_sub x eps]> pv))))), w') /\
    heap w ⊆ heap w' /\
    calls w' = calls w ++
      (CallF (<[i := f_add x eps]> pv) :: c (<[i := f_add x eps]> pv)) ++
      (CallF (<[i := f_sub x eps]> pv) :: c (<[i := f_sub x eps]> pv)).
Proof.
  intros Hf Hg Hp Hi HJ HiJ. unfold _Jacobian_step.
  rewrite run_bind, (run_np_copy p pv w Hp).
  set (pp := fresh (dom (heap w))).
  set (h1 := <[pp := pv]> (heap w)).
  rewrite run_bind, (run_iadd float64 pp i eps pv x (World h1 (calls w)))
    by (apply lookup_insert_eq || done).
  cbn [heap calls]. change (float64 (f_add x eps)) with (f_add x eps).
  set (h2 := <[pp := <[i := f_add x eps]> pv]> h1).
  assert (h2 !! p = Some pv) as Hp2.
  { unfold h2, h1. rewrite !lookup_insert_ne by (symmetry; by eapply fresh_ne).
    done. }
  rewrite run_bind, (run_np_copy p pv (World h2 (calls w)) Hp2).
  cbn [heap calls].
  set (pm := fresh (dom h2)).
  set (h3 := <[pm := pv]> h2).
  rewrite run_bind, (run_isub float64 pm i eps pv x (World h3 (calls w)))
    by (apply lookup_insert_eq || done).
  cbn [heap calls]. change (float64 (f_sub x eps)) with (f_sub x eps).
  set (h4 := <[pm := <[i := f_sub x eps]> pv]> h3).
  assert (h4 !! pp = Some (<[i := f_add x eps]> pv)) as Hpp4.
  { assert (h2 !! pp = Some (<[i := f_add x eps]> pv)) as Hpp2
      by apply lookup_insert_eq.
    unfold h4, h3. rewrite !lookup_insert_ne by (symmetry; by eapply fresh_ne).
    done. }
  rewrite run_bind, (run_load pp _ (World h4 (calls w)) Hpp4).
  rewrite run_bind. unfold call_f at 1. rewrite run_bind. unfold log at 1.
  cbn [heap calls]. rewrite Hf by apply length_insert. cbn [heap calls].
  rewrite run_bind,
    (run_load pm (<[i := f_sub x eps]> pv) (World h4 _))
    by apply lookup_insert_eq.
  rewrite run_bind. unfold call_f at 1. rewrite run_bind. unfold log at 1.
  cbn [heap calls]. rewrite Hf by apply length_insert. cbn [heap calls].
  rewrite run_lift. unfold vec_sub.
  rewrite !Hg by apply length_insert. rewrite Nat.eqb_refl.
  unfold lift, set_column.
  replace (i <? ncols J) with true by (symmetry; apply Nat.ltb_lt; lia).
  cbn [negb].
  rewrite length_fmap, length_zip_with, !Hg, HJ by apply length_insert.
  replace (length t `min` length t) with (length t) by lia.
  rewrite Nat.eqb_refl.
  eexists. split; [reflexivity|]. cbn [heap calls]. split.
  - unfold h4, h3. rewrite insert_insert_eq.
    etrans; [|apply insert_subseteq; apply fresh_lookup_None].
    unfold h2, h1. rewrite insert_insert_eq.
    apply insert_subseteq, fresh_lookup_None.
  - rewrite <- !app_assoc. reflexivity.
Qed.

Lemma Jacobian_loop_run_log (f : list F -> list F -> M F (list F))
    (g : list F -> list F) (c : list F -> list (call F)) (t : list F)
    (p : nat) (eps : F) (pv : list F) (k : nat) :
  (forall q w0, length q = length pv ->
     f t q w0 = (Ok (g q), World (heap w0) (calls w0 ++ c q))) ->
  (forall q, length q = length pv -> length (g q) = length t) ->
  forall (a : nat) (J : ndarray2 F) (w : world F),
  heap w !! p = Some pv -> a + k <= length pv ->
  length (rows J) = length t -> ncols J = length pv ->
  Forall (fun row => length row = length pv) (rows J) ->
  exists J' w' evals,
    for_each (_Jacobian_step float64 f t p eps) J (seq a k) w = (Ok J', w') /\
    heap w ⊆ heap w' /\
    calls w' = calls w ++ concat ((fun q => CallF q :: c q) <$> evals) /\
    length evals = 2 * k /\
    Forall (fun q => length q = length pv) evals /\
    ncols J' = length pv /\ length (rows J') = length t /\
    Forall (fun row => length row = length pv) (rows J') /\
    forall r j, entry J' r j =
      if decide (a <= j < a + k) then central_difference g pv eps j !! r
      else entry J r j.
Proof.
  intros Hf Hg. induction k as [|k IH]; intros a J w Hp Hk HJ Hn Hrows.
  - exists J, w, []. cbn. rewrite app_nil_r.
    repeat split; try done. intros r j. case_decide; [lia | done].
  - destruct (lookup_lt_is_Some_2 pv a ltac:(lia)) as [x Hx].
    destruct (Jacobian_step_run_log f g c t p eps J a w pv x)
      as (w1 & Hstep & Hsub1 & Hcalls1); try done; [lia|].
    set (col := (fun v => f_div v (f_mul (lit 2) eps)) <$>
                  zip_with f_sub (g (<[a := f_add x eps]> pv))
                                 (g (<[a := f_sub x eps]> pv))) in *.
    assert (length col = length t) as Hcol.
    { unfold col. rewrite length_fmap, length_zip_with, !Hg
        by apply length_insert. lia. }
    set (J1 := Mat (ncols J)
                 (zip_with (fun row v => <[a := v]> row) (rows J) col)) in *.
    destruct (IH (S a) J1 w1) as (J' & w' & evals & Hrun & Hsub & Hcalls &
                                  Hev & Hevl & Hn' & Hl' & Hr' & Hent).
    + eapply lookup_weaken; eauto.
    + lia.
    + unfold J1. cbn. rewrite length_zip_with. lia.
    + done.
    + unfold J1. cbn. apply Forall_forall. intros row Hrow.
      apply list_elem_of_lookup in Hrow as [r Hrow].
      apply lookup_zip_with_Some in Hrow as (row0 & v & -> & Hrow0 & _).
      rewrite length_insert.
      eapply (proj1 (Forall_lookup _ _) Hrows); eauto.
    + exists J', w', (<[a := f_add x eps]> pv :: <[a := f_sub x eps]> pv :: evals).
      cbn [seq]. rewrite for_each_cons, Hstep. split; [done|].
      split; [by etrans|].
      split.
      { rewrite Hcalls, Hcalls1. cbn [fmap list_fmap concat].
        by rewrite <- !app_assoc. }
      split; [cbn; lia|].
      split; [repeat constructor; try done; apply length_insert|].
      split; [done|]. split; [done|]. split; [done|].
      intros r j. rewrite Hent. unfold J1.
      rewrite set_column_entry; [|lia|].
      2:{ eapply Forall_impl; [exact Hrows|]. cbn. intros; lia. }
      unfold central_difference.
      destruct (decide (j = a)) as [-> | Hne].
      * rewrite Hx. fold col. repeat case_decide; try lia; done.
      * repeat case_decide; try lia; done.
Qed.

Lemma Jacobian_run_log (f : list F -> list F -> M F (list F))
    (g : list F -> list F) (c : list F -> list (call F)) (t : list F)
    (p : nat) (eps : F) (pv : list F) (w : world F) :
  (forall q w0, length q = length pv ->
     f t q w0 = (Ok (g q), World (heap w0) (calls w0 ++ c q))) ->
  (forall q, length q = length pv -> length (g q) = length t) ->
  heap w !! p = Some pv ->
  exists J w' evals,
    _Jacobian float64 f t p eps w = (Ok J, w') /\
    heap w ⊆ heap w' /\
    calls w' = calls w ++ concat ((fun q => CallF q :: c q) <$> evals) /\
    length evals = 2 * length pv /\
    ncols J = length pv /\ length (rows J) = length t /\
    Forall (fun row => length row = length pv) (rows J).
Proof.
  intros Hf Hg Hp. unfold _Jacobian.
  rewrite run_bind, (run_load p pv w Hp).
  destruct (Jacobian_loop_run_log f g c t p eps pv (length pv) Hf Hg 0
              (zeros2 (length t) (length pv)) w)
    as (J & w' & evals & Hrun & Hsub & Hcalls & Hev & _ & Hn & Hl & Hr & _);
    try done.
  { cbn. apply length_replicate. }
  { cbn. apply Forall_replicate. apply length_replicate. }
  by exists J, w', evals.
Qed.

End JacobianLog.

(** ** A run of [geologic_history] on valid input *)

Lemma length_omap_Some {A B} (f : A -> option B) (l : list A) :
  Forall (fun x => is_Some (f x)) l -> length (omap f l) = length l.
Proof.
  induction 1 as [|x l [y Hx] Hl IH]; [done|]. cbn. rewrite Hx. cbn. by f_equal.
Qed.

Section GeologicHistoryRun.
Context {F : Type} `{Scalar F}.
Variable caleqs : gmap string (gmap string (list F -> list F)).
Variable gh : gh_fun -> list F -> list F -> list F -> list F -> F ->
              option Z -> result (list F).

Lemma matmul_Ok (a b : ndarray2 F) :
  ncols a = length (rows b) ->
  exists m, matmul a b = Ok m /\ ncols m = ncols b /\
            length (rows m) = length (rows a) /\
            Forall (fun row => length row = ncols b) (rows m).
Proof.
  intros Hab. unfold matmul. rewrite Hab, Nat.eqb_refl. cbn [negb].
  eexists. split; [done|]. cbn [ncols rows]. split; [done|].
  split; [by rewrite length_fmap|].
  apply Forall_fmap, Forall_forall. intros row _. cbn.
  by rewrite !length_fmap, length_seq.
Qed.

Lemma diag_length (a : ndarray2 F) (n : nat) :
  length (rows a) = n -> ncols a = n ->
  Forall (fun row => length row = n) (rows a) ->
  length (diag a) = n.
Proof.
  intros Hr Hc Hrows. unfold diag. rewrite length_omap_Some.
  - rewrite length_seq, Hr, Hc. lia.
  - apply Forall_forall. intros i Hi. apply elem_of_seq in Hi.
    unfold entry.
    destruct (lookup_lt_is_Some_2 (rows a) i ltac:(lia)) as [row Hrow].
    rewrite Hrow. cbn. apply lookup_lt_is_Some_2.
    rewrite (proj1 (Forall_lookup _ _) Hrows i row Hrow). lia.
Qed.

Lemma append_D0_cov_Ok (pcov : ndarray2 F) (D0_cov : F) (n : nat) :
  length (rows pcov) = n -> ncols pcov = n ->
  exists m, append_D0_cov pcov D0_cov = Ok m /\
            ncols m = S n /\ length (rows m) = S n.
Proof.
  intros Hr Hc. unfold append_D0_cov. rewrite Hr, Hc, Nat.eqb_refl.
  cbn [negb]. eexists. split; [done|]. cbn [ncols rows].
  split; [lia|].
  rewrite length_zip_with, !length_app, Hr. unfold zeros.
  rewrite length_replicate. cbn. lia.
Qed.

(** The forward models that a list of Jacobian evaluations adds to the
    log. *)
Lemma forward_calls_evals (g : gh_fun) (evals : list (list F))
    (cs : list (call F)) :
  omap (fun c : call F => match c with CallGh g' => Some g' | _ => None end)
    (cs ++ concat ((fun q => CallF q :: [CallGh g]) <$> evals))
  = omap (fun c : call F => match c with CallGh g' => Some g' | _ => None end)
      cs ++ replicate (length evals) g.
Proof.
  rewrite omap_app. f_equal.
  induction evals as [|q evals IH]; [done|]. cbn. by rewrite IH.
Qed.

(** The body that the four branches share: read the parameters, append
    [D0], extend the covariance, run the forward model. *)
Lemma branch_run (getp : result (list F)) (cov : ndarray2 F) (g : gh_fun)
    (lam : list F -> list F -> M F (list F)) (t Deq T : list F)
    (Tref D0 D0_cov : F)
    (pv0 : list F) (pcov : ndarray2 F) (D : list F) (w : world F) :
  getp = Ok pv0 -> append_D0_cov cov D0_cov = Ok pcov ->
  gh g t (pv0 ++ [D0]) Deq T Tref None = Ok D ->
  (p ← lift getp;
   p ← alloc (p ++ [D0]);
   pcov ← lift (append_D0_cov cov D0_cov);
   q ← load p;
   D ← call_gh gh g t q Deq T Tref None;
   mret (p, pcov, D, lam)) w
  = (Ok (fresh (dom (heap w)), pcov, D, lam),
     World (<[fresh (dom (heap w)) := pv0 ++ [D0]]> (heap w))
           (calls w ++ [CallGh g])).
Proof.
  intros -> Hcov HD. rewrite run_lift, run_bind. unfold alloc at 1.
  rewrite run_lift, Hcov. rewrite run_bind.
  rewrite (run_load _ (pv0 ++ [D0])) by apply lookup_insert_eq.
  rewrite run_bind. unfold call_gh, log, lift. rewrite run_bind.
  cbn [heap calls]. by rewrite HD.
Qed.

(** The uncertainty propagation that follows the branches. *)
Lemma uncertainty_run (g : gh_fun) (k : nat) (nl : option Z)
    (t Deq T : list F) (Tref eps : F) (p : nat) (q : list F)
    (pcov : ndarray2 F) (D : list F) (w : world F) :
  heap w !! p = Some q -> length q = k ->
  (forall q', length q' = k ->
     exists y, gh g t q' Deq T Tref nl = Ok y /\ length y = length t) ->
  ncols pcov = k -> length (rows pcov) = k ->
  exists J PJt Dcov w',
    (J ← _Jacobian float64 (lamfunc gh k g Deq T Tref nl) t p eps;
     PJt ← lift (matmul pcov (transpose J));
     Dcov ← lift (matmul J PJt);
     mret (D, f_sqrt <$> diag Dcov)) w
    = (Ok (D, f_sqrt <$> diag Dcov), w') /\
    matmul pcov (transpose J) = Ok PJt /\ matmul J PJt = Ok Dcov /\
    length (diag Dcov) = length t /\
    heap w ⊆ heap w' /\
    forward_calls w' = forward_calls w ++ replicate (2 * k) g.
Proof.
  intros Hp Hq Hgh Hcov Hcovr.
  set (G := fun q' => match gh g t q' Deq T Tref nl with
                      | Ok y => y | Raise _ => [] end).
  destruct (Jacobian_run_log (lamfunc gh k g Deq T Tref nl) G
              (fun _ => [CallGh g]) t p eps q w)
    as (J & w' & evals & HJ & Hsub & Hcalls & Hev & Hn & Hl & Hrows); [| |done|].
  { intros q' w0 Hq'. unfold lamfunc. rewrite Hq', Hq, Nat.eqb_refl.
    unfold call_gh, log, lift. rewrite run_bind. unfold G.
    destruct (Hgh q' ltac:(lia)) as (y & -> & _). done. }
  { intros q' Hq'. unfold G.
    destruct (Hgh q' ltac:(lia)) as (y & -> & Hy). done. }
  destruct (matmul_Ok pcov (transpose J)) as (PJt & HPJt & HPn & HPl & HPr).
  { unfold transpose. cbn [rows]. rewrite length_fmap, length_seq. lia. }
  destruct (matmul_Ok J PJt) as (Dcov & HDcov & HDn & HDl & HDr).
  { lia. }
  exists J, PJt, Dcov, w'.
  split; [by rewrite run_bind, HJ, run_lift, HPJt, run_lift, HDcov|].
  split; [done|]. split; [done|].
  assert (ncols PJt = length t) as HPn'.
  { rewrite HPn. unfold transpose. cbn [ncols]. done. }
  split.
  { apply diag_length; [lia | lia |].
    eapply Forall_impl; [exact HDr|]. cbn. intros; lia. }
  split; [done|].
  unfold forward_calls. rewrite Hcalls, forward_calls_evals. f_equal.
  f_equal. lia.
Qed.

(** On valid input -- arrays of one length, a known calibration and
    reference frame that the table has, non-empty [d0] and [d0_std], one of
    the four model names, parameters and a square covariance of the sizes
    that model takes, and a forward model that returns a curve as long as
    [t] -- [geologic_history] returns. *)
Lemma geologic_history_run (t T : list F) (ed : EDistribution F)
    (d0 d0_std : list F) (c r : string) (nlam : Z) (eps : option F)
    (w : world F) eqs caleq D0 s0 g k pv0 :
  length T = length t ->
  c ∈ ["PH12"; "SE15"; "Bea17"]%string ->
  r ∈ ["Ghosh25"; "Ghosh90"; "CDES25"; "CDES90"]%string ->
  caleqs !! c = Some eqs -> eqs !! r = Some caleq ->
  d0 !! 0 = Some D0 -> d0_std !! 0 = Some s0 ->
  forward_model_of (model ed) = Some (g, k) ->
  model_params ed = Ok pv0 -> S (length pv0) = k ->
  length (rows (model_cov ed)) = length pv0 ->
  ncols (model_cov ed) = length pv0 ->
  (forall q nl, length q = k ->
     exists y, gh g t q (caleq T) T (Tref ed) nl = Ok y /\ length y = length t) ->
  exists pcov J PJt Dcov D w',
    geologic_history caleqs gh t T ed d0 d0_std (PyStr c) (PyStr r) nlam eps w
    = (Ok (D, f_sqrt <$> diag Dcov), w') /\
    gh g t (pv0 ++ [D0]) (caleq T) T (Tref ed) None = Ok D /\
    append_D0_cov (model_cov ed) (f_pow s0 (lit 2)) = Ok pcov /\
    matmul pcov (transpose J) = Ok PJt /\ matmul J PJt = Ok Dcov /\
    length (diag Dcov) = length t /\
    heap w ⊆ heap w' /\
    forward_calls w' = forward_calls w ++ replicate (1 + 2 * k) g.
Proof.
  intros Hlen Hc Hr Heqs Heq HD0 Hs0 Hfm Hpar Hk Hcr Hcc Hgh.
  destruct (append_D0_cov_Ok (model_cov ed) (f_pow s0 (lit 2)) (length pv0)
              Hcr Hcc) as (pcov & Hpcov & Hpn & Hpl).
  destruct (Hgh (pv0 ++ [D0]) None) as (D & HD & HDl).
  { rewrite length_app. cbn. lia. }
  set (w1 := World (heap w) (calls w ++ [CallCaleq c r])).
  set (p := fresh (dom (heap w1))).
  set (w2 := World (<[p := pv0 ++ [D0]]> (heap w1)) (calls w1 ++ [CallGh g])).
  assert (exists J PJt Dcov w',
    (J ← _Jacobian float64 (lamfunc gh k g (caleq T) T (Tref ed)
                      (lamfunc_nlam (model ed) nlam)) t p (default f_eps eps);
     PJt ← lift (matmul pcov (transpose J));
     Dcov ← lift (matmul J PJt);
     mret (D, f_sqrt <$> diag Dcov)) w2
    = (Ok (D, f_sqrt <$> diag Dcov), w') /\
    matmul pcov (transpose J) = Ok PJt /\ matmul J PJt = Ok Dcov /\
    length (diag Dcov) = length t /\
    heap w2 ⊆ heap w' /\
    forward_calls w' = forward_calls w2 ++ replicate (2 * k) g)
    as (J & PJt & Dcov & w' & Htail & HPJt & HDcov & Hdl & Hsub & Hfc).
  { apply (uncertainty_run g k _ t (caleq T) T (Tref ed) _ p (pv0 ++ [D0])).
    - apply lookup_insert_eq.
    - rewrite length_app. cbn. lia.
    - intros q' Hq'. by apply Hgh.
    - lia.
    - lia. }
  exists pcov, J, PJt, Dcov, D, w'.
  split; [|split; [done|split; [done|split; [done|split; [done|split;
    [done|split]]]]]].
  - unfold geologic_history.
    rewrite run_bind. unfold lift at 1. rewrite checks_pass by done.
    rewrite run_lift. unfold dict_get_obj, dict_get. rewrite Heqs.
    rewrite run_lift, Heq. rewrite run_bind. unfold log at 1. fold w1.
    rewrite run_lift, (index_Some _ _ _ HD0).
    rewrite run_lift, (index_Some _ _ _ Hs0).
    rewrite run_bind.
    unfold forward_model_of in Hfm. unfold model_params in Hpar.
    unfold model_cov in Hpcov. unfold lamfunc_nlam in Htail.
    destruct (String.eqb (model ed) "Hea14") eqn:E1.
    { apply String.eqb_eq in E1. rewrite E1 in Hpar, Hpcov, Htail.
      injection Hfm as <- <-.
      rewrite (branch_run _ _ GhHea14 _ t (caleq T) T (Tref ed) D0 _ pv0 pcov D w1
                 Hpar Hpcov HD).
      exact Htail. }
    destruct (String.eqb (model ed) "HH20") eqn:E2.
    { apply String.eqb_eq in E2. rewrite E2 in Hpar, Hpcov.
      injection Hfm as <- <-.
      rewrite (branch_run _ _ GhHH20 _ t (caleq T) T (Tref ed) D0 _ pv0 pcov D w1
                 Hpar Hpcov HD).
      exact Htail. }
    destruct (String.eqb (model ed) "PH12") eqn:E3.
    { injection Hfm as <- <-.
      rewrite (branch_run _ _ GhPH12 _ t (caleq T) T (Tref ed) D0 _ pv0 pcov D w1
                 Hpar Hpcov HD).
      exact Htail. }
    destruct (String.eqb (model ed) "SE15") eqn:E4; [|done].
    { injection Hfm as <- <-.
      rewrite (branch_run _ _ GhHH20 _ t (caleq T) T (Tref ed) D0 _ pv0 pcov D w1
                 Hpar Hpcov HD).
      exact Htail. }
  - etrans; [|exact Hsub]. unfold w2, w1. cbn [heap].
    apply insert_subseteq, fresh_lookup_None.
  - rewrite Hfc. unfold w2, w1, forward_calls. cbn [calls].
    rewrite !omap_app. cbn. rewrite <- !app_assoc, app_nil_l. done.
Qed.

End GeologicHistoryRun.

(** X29.  On valid input ([T] as long as [t], a calibration and reference
    frame that the table holds, non-empty [d0] and [d0_std], one of the
    four model names with parameters and a square covariance of the sizes
    its branch takes, a forward model that returns a curve as long as
    [t]), [geologic_history] returns [(D, D_std)]: [D] is the forward
    model's curve at the parameters followed by [d0[0]], both arrays are
    as long as [t], the run has called that one forward model [1 + 2*k]
    times for [k] parameters ([D0] among them), and the caller's arrays
    are as they were. *)
Theorem geologic_history_returns {F : Type} `{Scalar F}
    (caleqs : gmap string (gmap string (list F -> list F)))
    (gh : gh_fun -> list F -> list F -> list F -> list F -> F ->
          option Z -> result (list F))
    (t T : list F) (ed : EDistribution F)
    (d0 d0_std : list F) (c r : string) (nlam : Z) (eps : option F)
    (w : world F) eqs caleq D0 s0 g k pv0 :
  length T = length t ->
  c ∈ ["PH12"; "SE15"; "Bea17"]%string ->
  r ∈ ["Ghosh25"; "Ghosh90"; "CDES25"; "CDES90"]%string ->
  caleqs !! c = Some eqs -> eqs !! r = Some caleq ->
  d0 !! 0 = Some D0 -> d0_std !! 0 = Some s0 ->
  forward_model_of (model ed) = Some (g, k) ->
  model_params ed = Ok pv0 -> S (length pv0) = k ->
  length (rows (model_cov ed)) = length pv0 ->
  ncols (model_cov ed) = length pv0 ->
  (forall q nl, length q = k ->
     exists y, gh g t q (caleq T) T (Tref ed) nl = Ok y /\ length y = length t) ->
  exists D D_std w',
    geologic_history caleqs gh t T ed d0 d0_std (PyStr c) (PyStr r) nlam eps w
    = (Ok (D, D_std), w') /\
    gh g t (pv0 ++ [D0]) (caleq T) T (Tref ed) None = Ok D /\
    length D = length t /\ length D_std = length t /\
    heap w ⊆ heap w' /\
    forward_calls w' = forward_calls w ++ replicate (1 + 2 * k) g.
Proof.
  intros Hlen Hc Hr Heqs Heq HD0 Hs0 Hfm Hpar Hk Hcr Hcc Hgh.
  destruct (geologic_history_run caleqs gh t T ed d0 d0_std c r nlam eps w
              eqs caleq D0 s0 g k pv0)
    as (pcov & J & PJt & Dcov & D & w' & Hrun & HD & _ & _ & _ & Hdl &
        Hsub & Hfc); try done.
  exists D, (f_sqrt <$> diag Dcov), w'.
  split; [done|]. split; [done|]. split.
  { destruct (Hgh (pv0 ++ [D0]) None) as (y & Hy & Hyl).
    - rewrite length_app. cbn. lia.
    - rewrite Hy in HD. by injection HD as <-. }
  split; [by rewrite length_fmap|]. done.
Qed.

Lemma geologic_history_returns_witness :
  exists D D_std w',
    geologic_history (F := R) example_caleqs tagged_forward [0; 1]%R
      [300; 310]%R example_SE15 [6 / 10]%R [1 / 100]%R (PyStr "Bea17")
      (PyStr "CDES90") 400 None (World ∅ [])
    = (Ok (D, D_std), w') /\
    length D = 2 /\ length D_std = 2 /\
    forward_calls w' = replicate 15 GhHH20.
Proof.
  destruct (geologic_history_returns (F := R) example_caleqs tagged_forward
              [0; 1]%R [300; 310]%R example_SE15 [6 / 10]%R [1 / 100]%R
              "Bea17" "CDES90" 400 None (World ∅ [])
              {[ "CDES90"%string := fun T : list R => T ]}
              (fun T : list R => T) (6 / 10)%R (1 / 100)%R GhHH20 7
              [1; 4; 2; 5; 3; 6]%R)
    as (D & D_std & w' & Hrun & _ & HDl & HSl & _ & Hfc);
    try reflexivity.
  - apply (bool_decide_unpack _). vm_compute. exact I.
  - apply (bool_decide_unpack _). vm_compute. exact I.
  - intros q nl _. eexists. split; [reflexivity|]. reflexivity.
  - exists D, D_std, w'. split; [exact Hrun|]. split; [exact HDl|].
    split; [exact HSl | exact Hfc].
Defined.

(** ** Zero covariance *)

Lemma dot_zero_l (row col : list R) :
  Forall (eq 0%R) row -> foldr Rplus 0%R (zip_with Rmult row col) = 0%R.
Proof.
  intros Hrow. revert col. induction Hrow as [|x row <- _ IH]; intros [|y col];
    try done. simpl. rewrite IH. ring.
Qed.

Lemma dot_zero_r (row col : list R) :
  Forall (eq 0%R) col -> foldr Rplus 0%R (zip_with Rmult row col) = 0%R.
Proof.
  intros Hcol. revert row. induction Hcol as [|x col <- _ IH]; intros [|y row];
    try done. simpl. rewrite IH. ring.
Qed.

Lemma matmul_zero_l (a b m : ndarray2 R) :
  Forall (Forall (eq 0%R)) (rows a) -> matmul a b = Ok m ->
  Forall (Forall (eq 0%R)) (rows m).
Proof.
  intros Ha. unfold matmul. case_match; [done|]. intros [= <-]. cbn [rows].
  apply Forall_fmap. eapply Forall_impl; [exact Ha|]. cbn. intros row Hrow.
  apply Forall_fmap, Forall_forall. intros col _. cbn.
  symmetry. by apply dot_zero_l.
Qed.

Lemma matmul_zero_r (a b m : ndarray2 R) :
  Forall (Forall (eq 0%R)) (rows b) -> matmul a b = Ok m ->
  Forall (Forall (eq 0%R)) (rows m).
Proof.
  intros Hb. unfold matmul. case_match; [done|]. intros [= <-]. cbn [rows].
  apply Forall_fmap, Forall_forall. intros row _. cbn.
  apply Forall_fmap, Forall_fmap, Forall_forall. intros j _. cbn.
  symmetry. apply dot_zero_r.
  apply Forall_fmap. eapply Forall_impl; [exact Hb|]. cbn. intros brow Hbrow.
  destruct (brow !! j) as [v|] eqn:Hv; [|done]. cbn.
  eapply (proj1 (Forall_lookup _ _) Hbrow); eauto.
Qed.

Lemma diag_zero (a : ndarray2 R) :
  Forall (Forall (eq 0%R)) (rows a) -> Forall (eq 0%R) (diag a).
Proof.
  intros Ha. unfold diag. apply Forall_forall. intros v Hv.
  apply list_elem_of_omap in Hv as (i & _ & Hv).
  unfold entry in Hv. destruct (rows a !! i) as [row|] eqn:Hrow; [|done].
  cbn in Hv. pose proof (proj1 (Forall_lookup _ _) Ha i row Hrow) as Hz.
  eapply (proj1 (Forall_lookup _ _) Hz); eauto.
Qed.

Lemma append_D0_cov_zero (pcov m : ndarray2 R) :
  Forall (Forall (eq 0%R)) (rows pcov) -> append_D0_cov pcov 0%R = Ok m ->
  Forall (Forall (eq 0%R)) (rows m).
Proof.
  intros Hz. unfold append_D0_cov. case_match; [done|]. intros [= <-].
  cbn [rows].
  apply Forall_zip_with_fst with (P := Forall (eq 0%R)).
  - apply Forall_app. split; [done|]. repeat constructor.
    by apply Forall_replicate.
  - apply Forall_forall. intros x Hx row Hrow.
    apply Forall_app. split; [done|]. repeat constructor.
    apply elem_of_app in Hx as [Hx | Hx].
    + unfold zeros in Hx. by apply elem_of_replicate in Hx as [-> _].
    + by apply list_elem_of_singleton in Hx as ->.
Qed.

(** X30.  On valid input with a parameter covariance of zeros,
    [d0_std[0] = 0] and a perturbation [eps] that is not 0 (the default
    [1e-6], or a keyword [eps] other than 0), the uncertainty [D_std] that
    [geologic_history] returns is 0 at every time point (in exact
    arithmetic). *)
Theorem geologic_history_zero_covariance
    (caleqs : gmap string (gmap string (list R -> list R)))
    (gh : gh_fun -> list R -> list R -> list R -> list R -> R ->
          option Z -> result (list R))
    (t T : list R) (ed : EDistribution R)
    (d0 d0_std : list R) (c r : string) (nlam : Z) (eps : option R)
    (w : world R) eqs caleq D0 g k pv0 :
  eps <> Some 0%R ->
  length T = length t ->
  c ∈ ["PH12"; "SE15"; "Bea17"]%string ->
  r ∈ ["Ghosh25"; "Ghosh90"; "CDES25"; "CDES90"]%string ->
  caleqs !! c = Some eqs -> eqs !! r = Some caleq ->
  d0 !! 0 = Some D0 -> d0_std !! 0 = Some 0%R ->
  forward_model_of (model ed) = Some (g, k) ->
  model_params ed = Ok pv0 -> S (length pv0) = k ->
  length (rows (model_cov ed)) = length pv0 ->
  ncols (model_cov ed) = length pv0 ->
  Forall (Forall (eq 0%R)) (rows (model_cov ed)) ->
  (forall q nl, length q = k ->
     exists y, gh g t q (caleq T) T (Tref ed) nl = Ok y /\ length y = length t) ->
  exists D w',
    geologic_history caleqs gh t T ed d0 d0_std (PyStr c) (PyStr r) nlam eps w
    = (Ok (D, replicate (length t) 0%R), w') /\
    gh g t (pv0 ++ [D0]) (caleq T) T (Tref ed) None = Ok D.
Proof.
  intros _ Hlen Hc Hr Heqs Heq HD0 Hs0 Hfm Hpar Hk Hcr Hcc Hzero Hgh.
  destruct (geologic_history_run caleqs gh t T ed d0 d0_std c r nlam eps w
              eqs caleq D0 0%R g k pv0)
    as (pcov & J & PJt & Dcov & D & w' & Hrun & HD & Hpcov & HPJt & HDcov &
        Hdl & _ & _); try done.
  exists D, w'. split; [|done]. rewrite Hrun. do 3 f_equal.
  symmetry. apply replicate_as_Forall_2; [by rewrite length_fmap|].
  apply Forall_fmap.
  cbn [f_pow lit R_scalar] in Hpcov. rewrite Rpow_square, Rmult_0_l in Hpcov.
  pose proof (append_D0_cov_zero _ _ Hzero Hpcov) as Hz1.
  pose proof (matmul_zero_l _ _ _ Hz1 HPJt) as Hz2.
  pose proof (matmul_zero_r _ _ _ Hz2 HDcov) as Hz3.
  eapply Forall_impl; [exact (diag_zero _ Hz3)|]. cbn. intros v <-.
  symmetry. apply sqrt_0.
Qed.

Lemma geologic_history_zero_covariance_witness :
  exists D w',
    geologic_history (F := R) example_caleqs zero_forward [0; 1]%R
      [300; 310]%R example_PH12 [6 / 10]%R [0]%R (PyStr "Bea17")
      (PyStr "CDES90") 400 None (World ∅ [])
    = (Ok (D, [0; 0]%R), w').
Proof.
  destruct (geologic_history_zero_covariance example_caleqs zero_forward
              [0; 1]%R [300; 310]%R example_PH12 [6 / 10]%R [0]%R
              "Bea17" "CDES90" 400 None (World ∅ [])
              {[ "CDES90"%string := fun T : list R => T ]}
              (fun T : list R => T) (6 / 10)%R GhPH12 3 [1; 2]%R)
    as (D & w' & Hrun & _);
    try reflexivity.
  - done.
  - apply (bool_decide_unpack _). vm_compute. exact I.
  - apply (bool_decide_unpack _). vm_compute. exact I.
  - repeat constructor.
  - intros q nl _. eexists. split; [reflexivity|]. reflexivity.
  - by exists D, w'.
Defined.
